(** * mbgl-renderer: the request orchestration pipeline

    A shallow embedding of [src/render.ts] and [src/server.js]: parameter
    validation ([renderImage]), viewport derivation, style-import merging,
    the resource fetchers, icon loading and the post-render pixel
    conversion ([render], [toPNG]); and of the second copy of render.ts
    that the repository holds (unnamed/part_000), where it differs
    (module [Part000]).

    How the program is read:
    - JavaScript numbers are IEEE 754 binary64 values: they are the
      kernel's primitive floats, so every comparison and division below is
      the one the engine performs.
    - Strings are [string]s (code units below 256).  Objects are
      association lists in enumeration order; a style document, a layer,
      an import and an icon are records whose optional fields are options
      ([None] is [undefined], or [null] where the code compares with
      [null]).
    - Asynchronous code runs in a monad [M] that logs the calls made to the
      rendering engine and to the PNG encoder and carries the error of a
      rejected promise.  [Promise.all] takes its promises in list order,
      which is one of the orders they can settle in: what is stated about
      the calls of several of them is stated up to their order.
    - What the code gets from its platform (JSON, URL, [fetch], the
      viewport fit, the image decoder, the engine, the encoder) is a
      parameter: the class [Platform]. *)

From Stdlib Require Import ZArith List String Ascii Bool Lia DecimalString.
From Stdlib Require Import Floats Uint63 Permutation.
Import ListNotations.

Set Implicit Arguments.
Set Warnings "-register-all,-inexact-float".

Local Open Scope string_scope.
Local Open Scope Z_scope.
Local Open Scope list_scope.

(** ** JavaScript numbers *)

Module JsNum.

(** [Number.isFinite] on a number. *)
Definition isFinite (x : float) : bool := PrimFloat.is_finite x.

(** Truthiness of a number: everything but [0], [-0] and [NaN]. *)
Definition truthy (x : float) : bool :=
  negb (PrimFloat.is_nan x || PrimFloat.is_zero x).

(** [Math.max] of two numbers. *)
Definition Math_max (a b : float) : float :=
  if PrimFloat.is_nan a || PrimFloat.is_nan b then PrimFloat.nan
  else if PrimFloat.ltb a b then b
  else if PrimFloat.ltb b a then a
  else if PrimFloat.get_sign a then b else a.

(** The integer a finite number truncates to (toward zero); [0] for
    [NaN] and the infinities, as in the [ToUint8] conversion. *)
Definition trunc_Z (x : float) : Z :=
  match Prim2SF x with
  | S754_finite s m e =>
      let v := if 0 <=? e then Z.pos m * 2 ^ e else Z.pos m / 2 ^ (- e) in
      if s then - v else v
  | _ => 0
  end.

(** What storing a number into a [Uint8Array] element keeps. *)
Definition ToUint8 (x : float) : Z := trunc_Z x mod 256.

(** An integer below [2^53] in magnitude as a number (exact). *)
Definition of_Z (n : Z) : float :=
  let a := PrimFloat.of_uint63 (Uint63.of_Z (Z.abs n)) in
  if n <? 0 then PrimFloat.opp a else a.

(** [floor (x + 1/2)] of a finite number with a negative exponent,
    computed exactly. *)
Definition round_half_up (s : bool) (m : positive) (e : Z) : Z :=
  let d := 2 ^ (- e) in
  let n := if s then - Z.pos m else Z.pos m in
  (2 * n + d) / (2 * d).

(** [Math.round]: the nearest integer, ties toward [+Infinity]; [NaN],
    the infinities, the zeros and integers are returned as they are. *)
Definition Math_round (x : float) : float :=
  match Prim2SF x with
  | S754_finite s m e =>
      if 0 <=? e then x
      else
        let n := round_half_up s m e in
        if n =? 0 then (if s then PrimFloat.neg_zero else PrimFloat.zero)
        else of_Z n
  | _ => x
  end.

(** What [Math.round] has to return, said without computing it: [r] is
    [x] itself when [x] is an integer, a zero, an infinity or [NaN], and
    otherwise [x] is [v * 2 ^ e] with [e < 0] and [r] is the integer [n]
    with [n - 1/2 <= x < n + 1/2] (the nearest one, the upper of two
    equally near), a zero with the sign of [x] when [n] is 0. *)
Definition rounds_to (x r : float) : Prop :=
  match Prim2SF x with
  | S754_finite s m e =>
      if 0 <=? e then r = x
      else
        let v := if s then - Z.pos m else Z.pos m in
        exists n : Z,
          (2 * n - 1) * 2 ^ (- e) <= 2 * v < (2 * n + 1) * 2 ^ (- e) /\
          r = if n =? 0 then (if s then PrimFloat.neg_zero else PrimFloat.zero)
              else of_Z n
  | _ => r = x
  end.

End JsNum.

(** ** JavaScript strings *)

Module JsStr.

(** [s.startsWith(p)]. *)
Definition startsWith (p s : string) : bool := String.prefix p s.

(** [s.includes(p)]. *)
Fixpoint includes (p s : string) : bool :=
  String.prefix p s ||
  match s with
  | EmptyString => false
  | String _ s' => includes p s'
  end.

(** The scan behind [s.split(sep)] for a non-empty [sep]: [skip] counts
    the code units of a separator still to be passed over, [acc] is the
    piece being collected. *)
Fixpoint split_go (sep : string) (skip : nat) (acc s : string) : list string :=
  match s with
  | EmptyString => [acc]
  | String c s' =>
      match skip with
      | S k => split_go sep k acc s'
      | O =>
          if String.prefix sep s
          then acc :: split_go sep (Nat.pred (String.length sep)) EmptyString s'
          else split_go sep O (acc ++ String c EmptyString)%string s'
      end
  end.

(** [s.split(sep)] for a non-empty separator. *)
Definition split (sep s : string) : list string := split_go sep O EmptyString s.

(** [n.toString()] for an array index. *)
Definition of_index (n : nat) : string := NilEmpty.string_of_uint (Nat.to_uint n).

(** Truthiness of a string. *)
Definition truthy (s : string) : bool := negb (String.eqb s EmptyString).

(** ASCII lower-casing of one code unit, as [/i] compares letters. *)
Definition lower (c : ascii) : ascii :=
  let n := nat_of_ascii c in
  if ((65 <=? n) && (n <=? 90))%nat then ascii_of_nat (n + 32) else c.

(** [p] is a prefix of [s] up to ASCII case; [p] is given in lower case. *)
Fixpoint prefix_ci (p s : string) : bool :=
  match p, s with
  | EmptyString, _ => true
  | String a p', String b s' => Ascii.eqb a (lower b) && prefix_ci p' s'
  | String _ _, EmptyString => false
  end.

(** The remainder of [s] after [n] code units. *)
Fixpoint drop (n : nat) (s : string) : string :=
  match n, s with
  | O, _ => s
  | S k, String _ s' => drop k s'
  | S _, EmptyString => EmptyString
  end.

(** White space as the regular-expression class [\s] sees it, among the
    code units a [string] holds: TAB, LF, VT, FF, CR, SPACE and NBSP. *)
Definition is_space (c : ascii) : bool :=
  let n := nat_of_ascii c in
  ((9 <=? n) && (n <=? 13) || (n =? 32) || (n =? 160))%nat.

(** No code unit of [s] is white space. *)
Fixpoint no_space (s : string) : bool :=
  match s with
  | EmptyString => true
  | String c s' => negb (is_space c) && no_space s'
  end.

End JsStr.

(** ** JavaScript objects: association lists in enumeration order *)

Module JsObj.
Section Obj.
Variable V : Type.

(** [o[k]]; [None] is [undefined]. *)
Fixpoint get (k : string) (o : list (string * V)) : option V :=
  match o with
  | [] => None
  | (k', v) :: o' => if String.eqb k k' then Some v else get k o'
  end.

(** [o[k] = v]: an existing key keeps its place, a new one goes last.
    (Of a real object this leaves out that keys which read as array
    indices are enumerated first, and that [__proto__] is no key one can
    assign; the source names met below are import ids and names built
    from them.) *)
Fixpoint set (k : string) (v : V) (o : list (string * V)) : list (string * V) :=
  match o with
  | [] => [(k, v)]
  | (k', v') :: o' =>
      if String.eqb k k' then (k, v) :: o' else (k', v') :: set k v o'
  end.

(** [Object.keys(o)]. *)
Definition keys (o : list (string * V)) : list string := map fst o.
End Obj.
End JsObj.

(** ** Data model *)

(** Dynamically typed payloads: source definitions, layer properties,
    [fog], [glyphs], [sprite], [version].  [undefined] is the [None] of an
    [option jsval]. *)
Inductive jsval : Type :=
| JNull
| JBool (b : bool)
| JNum (x : float)
| JStr (s : string)
| JArr (l : list jsval)
| JObj (o : list (string * jsval)).

Module JsVal.

(** Truthiness of a possibly undefined value. *)
Definition truthy (v : option jsval) : bool :=
  match v with
  | None | Some JNull => false
  | Some (JBool b) => b
  | Some (JNum x) => JsNum.truthy x
  | Some (JStr s) => JsStr.truthy s
  | Some (JArr _) | Some (JObj _) => true
  end.

(** [typeof v === 'object'] ([null] and arrays included). *)
Definition typeof_object (v : option jsval) : bool :=
  match v with
  | Some JNull | Some (JArr _) | Some (JObj _) => true
  | _ => false
  end.

(** [typeof v === 'string']. *)
Definition typeof_string (v : option jsval) : bool :=
  match v with Some (JStr _) => true | _ => false end.

(** [v === 8]. *)
Definition is_eight (v : option jsval) : bool :=
  match v with Some (JNum x) => PrimFloat.eqb x 8%float | _ => false end.

End JsVal.

(** A number of a request as it reaches [renderImage] and [render]: a
    number (a JSON body has numbers) or a text (a query string has only
    texts). *)
Inductive reqnum : Type :=
| NumV (x : float)
| TextV (s : string).

Module ReqNum.

(** Truthiness: that of the number, or that of the text (every text but
    the empty one is truthy, also [0]). *)
Definition truthy (v : reqnum) : bool :=
  match v with
  | NumV x => JsNum.truthy x
  | TextV s => JsStr.truthy s
  end.

End ReqNum.

(** A layer: its [source] reference and its other properties. *)
Record LayerDef : Type := mkLayer {
  source : option string;
  layer_rest : list (string * jsval)
}.

(** A style document.  A field that is [None] is [undefined] on the
    object ([{}] has them all undefined). *)
Record StyleDoc : Type := mkStyle {
  version : option jsval;
  sources : option (list (string * jsval));
  layers : option (list LayerDef);
  fog : option jsval;
  glyphs : option jsval;
  sprite : option jsval
}.

Record ImportRef : Type := mkImport { imp_id : string; imp_url : string }.

(** An icon; a missing [url] is the empty string (both are falsy). *)
Record ImageRef : Type := mkImage {
  img_url : string;
  img_pixelRatio : option float;
  img_sdf : option bool
}.

Record Viewport : Type := mkViewport { vp_center : list float; vp_zoom : float }.

(** What [fetch] resolves to.  [body] is what [res.arrayBuffer()] resolves
    to, [None] when reading the body rejects. *)
Record Response : Type := mkResponse {
  status : Z;
  headers : list (string * string);
  body : option (list Z)
}.

(** [res.ok]. *)
Definition ok (res : Response) : bool := (200 <=? status res) && (status res <=? 299).

(** What [res.json()] resolves to: a falsy value, a value that is not an
    object that could be a style (arrays included), or an object. *)
Inductive json_value : Type :=
| JsonFalsy
| JsonNonObject
| JsonObject (s : StyleDoc).

(** The renderer's [RequestResponse]; [modified] and [expires] hold the
    header text the [Date] is built from. *)
Record RequestResponse : Type := mkRequestResponse {
  data : list Z;
  etag : option string;
  modified : option string;
  expires : option string
}.

Record DecodedImage : Type := mkDecoded {
  dec_width : Z;
  dec_height : Z;
  dec_data : list Z
}.

(** The argument of [map.render]. *)
Record RenderOptions : Type := mkRenderOptions {
  r_zoom : option float;
  r_center : option (list float);
  r_height : float;
  r_width : float;
  r_bearing : option float;
  r_pitch : option float
}.

(** The raw image handed to the PNG encoder. *)
Record RawImage : Type := mkRaw {
  raw_data : list Z;
  raw_width : float;
  raw_height : float;
  raw_channels : Z
}.

(** The [options] argument of [render], after its destructuring defaults;
    [None] is [null]. *)
Record Options : Type := mkOptions {
  o_bounds : option (list float);
  o_bearing : option float;
  o_pitch : option float;
  o_token : option string;
  o_ratio : option reqnum;
  o_padding : reqnum;
  o_images : option (list (string * ImageRef));
  o_imports : option (list ImportRef);
  o_center : option (list float);
  o_zoom : option float;
  o_tilePath : option string
}.

(** The same options with another [tilePath]. *)
Definition with_tilePath (tilePath : option string) (o : Options) : Options :=
  {| o_bounds := o_bounds o; o_bearing := o_bearing o; o_pitch := o_pitch o;
     o_token := o_token o; o_ratio := o_ratio o; o_padding := o_padding o;
     o_images := o_images o; o_imports := o_imports o; o_center := o_center o;
     o_zoom := o_zoom o; o_tilePath := tilePath |}.

(** The [params] of [renderImage], after its destructuring defaults.
    [center] and [bounds] come as text or as arrays, [style] and [images]
    as text or as objects. *)
Record Params : Type := mkParams {
  p_style : option (string + StyleDoc);
  p_width : float;
  p_height : float;
  p_token : option string;
  p_padding : reqnum;
  p_bearing : option float;
  p_pitch : option float;
  p_imports : option (list ImportRef);
  p_zoom : option float;
  p_center : option (string + list float);
  p_bounds : option (string + list float);
  p_ratio : option reqnum;
  p_images : option (string + list (string * ImageRef))
}.

(** ** Errors: one constructor per [throw] site and message *)

Inductive exn : Type :=
(* server.js, renderImage *)
| ErrJSONStyle
| ErrCenterLength (c : list float)
| ErrCenterLon (x : float)
| ErrCenterLat (x : float)
| ErrZoom (z : float)
| ErrRatio (r : reqnum)
| ErrBounds (b : list float)
| ErrBoundsWestEast
| ErrBoundsSouthNorth
| ErrPaddingWidth
| ErrPaddingHeight
| ErrBearing (b : float)
| ErrPitch (p : float)
| ErrCenterZoomOrBounds
| ErrJSONSyntax
| ErrImageObject
| ErrImageURL (url : string)
| ErrImportObject
| ErrImportURL (url : string)
| ErrProcessing (e : exn)
(* render.ts, render *)
| ErrStyleRequired
| ErrWidthHeight
| RErrCenterLength (c : list float)
| RErrBounds (b : list float)
| RErrBearing (b : float)
| RErrPitch (p : float)
| ErrLocalMbtiles
| ErrTypeError (what : string)
| ErrRenderer
| ErrEncode
(* render.ts, style imports *)
| ErrNormalizeStyleURL (url : string)
| ErrImportStyleURL
| ErrFetchRejected (url : string)
| ErrBodyRejected (url : string)
| ErrRemoteJSON (url : string) (st : Z)
| ErrBodyNotJSON
| ErrCouldNotFetchImport (url : string)
| ErrInvalidImportStyle
| ErrImportFetch (url : string) (e : exn)
(* render.ts, resource requests *)
| ErrRemoteTile (url : string) (st : Z)
| ErrRemoteAsset (url : string) (st : Z)
| ErrMapboxNotSupported
| ErrKindNotHandled (kind : Z)
| ErrResourceRequest (url : string) (e : exn)
(* render.ts, icons *)
| ErrInvalidImageUrl (id : string)
| ErrCouldNotLoadImage (id : string)
| ErrDecodeImage
| ErrAddImage
| ErrLoadingIcon (id : string) (e : exn).

(** What a resource callback is called with: [callback(err)] or
    [callback(null, data)], [data] possibly [null]. *)
Inductive callback_result : Type :=
| CallbackErr (e : exn)
| CallbackData (r : option RequestResponse).

(** ** Calls into the rendering engine and the PNG encoder *)

Inductive event : Type :=
| EvMapNew (ratio : option reqnum)
| EvMapLoad (s : StyleDoc)
| EvAddImage (id : string) (img : DecodedImage) (pixelRatio : float) (sdf : bool)
| EvMapRender (o : RenderOptions)
| EvMapRelease
| EvEncode (raw : RawImage).

(** An event that drives the engine (anything but the encoder). *)
Definition is_renderer_event (e : event) : bool :=
  match e with EvEncode _ => false | _ => true end.

(** ** The monad of the asynchronous code: a log of the calls made so
    far, and an error or a value *)

Definition M (A : Type) : Type := (list event * (exn + A))%type.

Definition ret {A} (a : A) : M A := ([], inr a).
Definition throw {A} (e : exn) : M A := ([], inl e).
Definition emit (ev : event) : M unit := ([ev], inr tt).

Definition bind {A B} (m : M A) (k : A -> M B) : M B :=
  match m with
  | (t, inl e) => (t, inl e)
  | (t, inr a) => let (t', r) := k a in (t ++ t', r)
  end.

(** [try { m } catch (e) { h e }]. *)
Definition try_catch {A} (m : M A) (h : exn -> M A) : M A :=
  match m with
  | (t, inl e) => let (t', r) := h e in (t ++ t', r)
  | (t, inr a) => (t, inr a)
  end.

(** [if (c) throw e]. *)
Definition throw_if (c : bool) (e : exn) : M unit :=
  if c then throw e else ret tt.

Notation "x <- m ;; k" := (bind m (fun x => k))
  (at level 61, m at next level, right associativity).
Notation "m ;;; k" := (bind m (fun _ => k))
  (at level 61, right associativity).

(** [Promise.all] over a list: the results come in list order.  The
    promises are taken in list order too and the first failure ends the
    run, which is one of the ways the real promises can settle. *)
Fixpoint mapM {A B} (f : A -> M B) (l : list A) : M (list B) :=
  match l with
  | [] => ret []
  | a :: l' => b <- f a ;; bs <- mapM f l' ;; ret (b :: bs)
  end.

Definition log {A} (m : M A) : list event := fst m.
Definition outcome {A} (m : M A) : exn + A := snd m.

(** The request failed. *)
Definition failed {A} (m : M A) : Prop := exists e, outcome m = inl e.

(** [m] called neither the engine nor the encoder. *)
Definition silent {A} (m : M A) : Prop := log m = [].

(** [m] stopped with an error before anything was called. *)
Definition rejected {A} (m : M A) : Prop := exists e, m = ([], inl e).

(** The error a step ends with, when it ends with one. *)
Definition error_of {A} (m : M A) : option exn :=
  match outcome m with
  | inl e => Some e
  | inr _ => None
  end.

(** The first error among steps taken one after the other. *)
Fixpoint first_error (steps : list (option exn)) : option exn :=
  match steps with
  | [] => None
  | Some e :: _ => Some e
  | None :: rest => first_error rest
  end.

(** ** The platform: the engine's built-ins, the network, and the
    libraries [render.ts] imports *)

Class Platform : Type := {
  (** [JSON.parse] of a style text; [None] when it throws. *)
  JSON_parse_style : string -> option StyleDoc;
  (** [JSON.parse] of the [images] text; [None] when it throws. *)
  JSON_parse_images : string -> option (list (string * ImageRef));
  (** [Number(text)]. *)
  Number_of : string -> float;
  (** [parseFloat] and [parseInt(_, 10)] of a number. *)
  parseFloat : float -> float;
  parseInt10 : float -> float;
  (** [new URL(text)] does not throw. *)
  URL_valid : string -> bool;
  (** [new URL(text).pathname]; [None] when the constructor throws. *)
  URL_pathname : string -> option string;
  (** The text of [new URL(base)] after [searchParams.set] of each pair. *)
  URL_with_params : string -> list (string * string) -> option string;
  (** [geoViewport.viewport(bounds, [w, h], undefined, undefined, undefined, true)]. *)
  viewport : list float -> float -> float -> Viewport;
  (** [fetch(url, ...)]; [None] when the promise rejects. *)
  fetch : string -> option Response;
  (** [res.json()]; [None] when it rejects. *)
  response_json : Response -> option json_value;
  (** [JSON.stringify] of a style. *)
  JSON_stringify : StyleDoc -> string;
  (** [Buffer.from(text, 'base64')]. *)
  base64_decode : string -> list Z;
  (** [sharp(buffer)]: [metadata()] and [raw().toBuffer()]; [None] when either rejects. *)
  sharp_decode : list Z -> option DecodedImage;
  (** [map.addImage] returns normally. *)
  map_addImage : string -> DecodedImage -> bool;
  (** [map.render]: the buffer, or [None] when the callback gets an error. *)
  map_render : StyleDoc -> RenderOptions -> option (list Z);
  (** [sharp(buffer, {raw}).png().toBuffer()]. *)
  png_encode : RawImage -> option (list Z)
}.

(** ** render.ts *)

Section Impl.
Context {P : Platform}.

(** [ToNumber] of a number of a request: the number itself, or
    [Number(text)]. *)
Definition ToNumber (v : reqnum) : float :=
  match v with
  | NumV x => x
  | TextV s => Number_of s
  end.

(** [ToNumber] of a nullable one: [null] is [+0]. *)
Definition ToNumber_nullable (o : option reqnum) : float :=
  match o with
  | Some v => ToNumber v
  | None => PrimFloat.zero
  end.

Definition isMapboxURL (url : string) : bool := JsStr.startsWith "mapbox://" url.
Definition isMapboxStyleURL (url : string) : bool :=
  JsStr.startsWith "mapbox://styles/" url.

(** Template text of a nullable token. *)
Definition token_text (token : option string) : string :=
  match token with Some t => t | None => "null" end.

Definition normalizeMapboxStyleURL (url : string) (token : option string) : M string :=
  match URL_pathname url with
  | None => throw (ErrNormalizeStyleURL url)
  | Some pathname =>
      match URL_with_params ("https://api.mapbox.com" ++ pathname)%string
              [("access_token", token_text token); ("secure", "true")] with
      | None => throw (ErrNormalizeStyleURL url)
      | Some u => ret u
      end
  end.

(** [res.headers.get(name)] when it is truthy. *)
Definition header (name : string) (res : Response) : option string :=
  match JsObj.get name (headers res) with
  | Some v => if JsStr.truthy v then Some v else None
  | None => None
  end.

(** The [.then] handler of [getRemoteTile]: [inr None] is [null]. *)
Definition tileResponse (url : string) (res : Response) : exn + option RequestResponse :=
  if status res =? 204 then inr None
  else if status res =? 404 then inr None
  else if negb (ok res) then inl (ErrRemoteTile url (status res))
  else match body res with
       | None => inl (ErrBodyRejected url)
       | Some bytes =>
           inr (Some {| data := bytes;
                        etag := header "etag" res;
                        modified := header "last-modified" res;
                        expires := header "expires" res |})
       end.

Definition getRemoteTile (url : string) : callback_result :=
  match fetch url with
  | None => CallbackErr (ErrFetchRejected url)
  | Some res =>
      match tileResponse url res with
      | inl e => CallbackErr e
      | inr r => CallbackData r
      end
  end.

(** The [.then] handler of [getRemoteAsset]. *)
Definition assetResponse (url : string) (res : Response) : exn + RequestResponse :=
  if negb (ok res) then inl (ErrRemoteAsset url (status res))
  else match body res with
       | None => inl (ErrBodyRejected url)
       | Some bytes =>
           inr {| data := bytes;
                  etag := header "etag" res;
                  modified := header "last-modified" res;
                  expires := header "expires" res |}
       end.

Definition getRemoteAsset (url : string) : callback_result :=
  match fetch url with
  | None => CallbackErr (ErrFetchRejected url)
  | Some res =>
      match assetResponse url res with
      | inl e => CallbackErr e
      | inr r => CallbackData (Some r)
      end
  end.

Definition getRemoteAssetPromise (url : string) : M (option RequestResponse) :=
  match getRemoteAsset url with
  | CallbackErr e => throw e
  | CallbackData d => ret d
  end.

Definition getRemoteJSON (url : string) : M json_value :=
  match fetch url with
  | None => throw (ErrFetchRejected url)
  | Some res =>
      if negb (ok res) then throw (ErrRemoteJSON url (status res))
      else match response_json res with
           | None => throw ErrBodyNotJSON
           | Some v => ret v
           end
  end.

Definition getRemoteStyleImport (url : string) (token : option string) : M StyleDoc :=
  importStyleUrl <- (if isMapboxStyleURL url
                     then normalizeMapboxStyleURL url token
                     else ret url) ;;
  throw_if (negb (JsStr.truthy importStyleUrl)) ErrImportStyleURL ;;;
  try_catch
    (importedStyle <- getRemoteJSON importStyleUrl ;;
     match importedStyle with
     | JsonFalsy => throw (ErrCouldNotFetchImport importStyleUrl)
     | JsonNonObject => throw ErrInvalidImportStyle
     | JsonObject s =>
         if negb (JsVal.is_eight (version s)) then throw ErrInvalidImportStyle
         else ret s
     end)
    (fun e => throw (ErrImportFetch importStyleUrl e)).

(** [kind] is the engine's numeric [ResourceKind]. *)
Definition requestHandler (url : string) (kind : Z) : callback_result :=
  if isMapboxURL url then CallbackErr ErrMapboxNotSupported
  else
    match kind with
    | 2 => getRemoteAsset url
    | 3 => getRemoteTile url
    | 4 => getRemoteAsset url
    | 5 => getRemoteAsset url
    | 6 => getRemoteAsset url
    | 7 => getRemoteAsset url
    | _ => CallbackErr (ErrResourceRequest url (ErrKindNotHandled kind))
    end.

Definition loadImage (id : string) (image : ImageRef) : M unit :=
  let url := img_url image in
  let pixelRatio := match img_pixelRatio image with Some r => r | None => 1%float end in
  let sdf := match img_sdf image with Some b => b | None => false end in
  throw_if (negb (JsStr.truthy url)) (ErrInvalidImageUrl id) ;;;
  try_catch
    (imgBuffer <-
       (if JsStr.startsWith "data:" url
        then match nth_error (JsStr.split "base64," url) 1 with
             | None => throw (ErrTypeError "Buffer.from(undefined, 'base64')")
             | Some payload => ret (base64_decode payload)
             end
        else img <- getRemoteAssetPromise url ;;
             match img with
             | None => throw (ErrCouldNotLoadImage id)
             | Some r => ret (data r)
             end) ;;
     match sharp_decode imgBuffer with
     | None => throw ErrDecodeImage
     | Some d =>
         emit (EvAddImage id d pixelRatio sdf) ;;;
         throw_if (negb (map_addImage id d)) ErrAddImage
     end)
    (fun e => throw (ErrLoadingIcon id e)).

Definition loadImages (images : option (list (string * ImageRef))) : M unit :=
  match images with
  | None => ret tt
  | Some entries =>
      mapM (fun entry => loadImage (fst entry) (snd entry)) entries ;;; ret tt
  end.

Definition renderMap (style : StyleDoc) (options : RenderOptions) : M (list Z) :=
  emit (EvMapRender options) ;;;
  match map_render style options with
  | None => throw ErrRenderer
  | Some buffer => ret buffer
  end.

(** *** toPNG *)

(** [buffer[j]] read as a number; [undefined] reads as [NaN]. *)
Definition buffer_get (buffer : list Z) (j : nat) : float :=
  match nth_error buffer j with
  | Some v => JsNum.of_Z v
  | None => PrimFloat.nan
  end.

(** [buffer[j] = v] on a typed array: nothing happens out of range. *)
Fixpoint buffer_set (j : nat) (v : Z) (buffer : list Z) : list Z :=
  match buffer, j with
  | [], _ => []
  | _ :: rest, O => v :: rest
  | b :: rest, S k => b :: buffer_set k v rest
  end.

(** The body of the loop at index [i]. *)
Definition unpremultiply_at (i : nat) (buffer : list Z) : list Z :=
  let alpha := nth_error buffer (i + 3) in
  let norm := match alpha with
              | Some a => (JsNum.of_Z a / 255)%float
              | None => PrimFloat.nan
              end in
  if match alpha with Some a => a =? 0 | None => false end
  then buffer_set (i + 2) 0 (buffer_set (i + 1) 0 (buffer_set i 0 buffer))
  else
    let b1 := buffer_set i (JsNum.ToUint8 (buffer_get buffer i / norm)) buffer in
    let b2 := buffer_set (i + 1) (JsNum.ToUint8 (buffer_get b1 (i + 1) / norm)) b1 in
    buffer_set (i + 2) (JsNum.ToUint8 (buffer_get b2 (i + 2) / norm)) b2.

(** [for (let i = ...; i < buffer.length; i += 4)], at most [fuel] rounds. *)
Fixpoint unpremultiply_from (fuel i : nat) (buffer : list Z) : list Z :=
  match fuel with
  | O => buffer
  | S fuel' =>
      if (i <? List.length buffer)%nat
      then unpremultiply_from fuel' (i + 4) (unpremultiply_at i buffer)
      else buffer
  end.

(** The whole loop: [buffer.length] rounds are more than it takes. *)
Definition unpremultiply (buffer : list Z) : list Z :=
  unpremultiply_from (List.length buffer) 0 buffer.

(** What the loop is expected to leave in one colour byte [c] of a
    pixel whose alpha byte is [a]. *)
Definition unpremultiplied_channel (c a : Z) : Z :=
  if a =? 0 then 0
  else JsNum.ToUint8 (JsNum.of_Z c / (JsNum.of_Z a / 255))%float.

(** The same for a whole buffer, pixel by pixel. *)
Fixpoint unpremultiplied (buffer : list Z) : list Z :=
  match buffer with
  | r :: g :: b :: a :: rest =>
      unpremultiplied_channel r a :: unpremultiplied_channel g a
      :: unpremultiplied_channel b a :: a :: unpremultiplied rest
  | _ => buffer
  end.

(** A byte. *)
Definition is_u8 (b : Z) : Prop := 0 <= b < 256.

Definition toPNG (buffer : list Z) (width height : float) (ratio : option reqnum)
  : M (list Z) :=
  let raw := {| raw_data := unpremultiply buffer;
                raw_width := JsNum.Math_round (width * ToNumber_nullable ratio)%float;
                raw_height := JsNum.Math_round (height * ToNumber_nullable ratio)%float;
                raw_channels := 4 |} in
  emit (EvEncode raw) ;;;
  match png_encode raw with
  | None => throw ErrEncode
  | Some png => ret png
  end.

(** *** Style imports *)

(** The name an imported source gets:
    [key === 'composite' ? importId : `${importId}-${key}`]. *)
Definition rewriteSource (importId key : string) : string :=
  if String.eqb key "composite" then importId
  else (importId ++ "-" ++ key)%string.

(** [id || idx.toString()]. *)
Definition importIdOf (id : string) (idx : nat) : string :=
  if JsStr.truthy id then id else JsStr.of_index idx.

Definition set_sources (o : list (string * jsval)) (s : StyleDoc) : StyleDoc :=
  {| version := version s; sources := Some o; layers := layers s;
     fog := fog s; glyphs := glyphs s; sprite := sprite s |}.

Definition set_layers (l : list LayerDef) (s : StyleDoc) : StyleDoc :=
  {| version := version s; sources := sources s; layers := Some l;
     fog := fog s; glyphs := glyphs s; sprite := sprite s |}.

Definition set_fog (v : option jsval) (s : StyleDoc) : StyleDoc :=
  {| version := version s; sources := sources s; layers := layers s;
     fog := v; glyphs := glyphs s; sprite := sprite s |}.

Definition set_glyphs (v : option jsval) (s : StyleDoc) : StyleDoc :=
  {| version := version s; sources := sources s; layers := layers s;
     fog := fog s; glyphs := v; sprite := sprite s |}.

Definition set_sprite (v : option jsval) (s : StyleDoc) : StyleDoc :=
  {| version := version s; sources := sources s; layers := layers s;
     fog := fog s; glyphs := glyphs s; sprite := v |}.

(** One round of [Object.keys(importedStyle.sources).forEach]:
    [correctedStyle.sources[name] = importedStyle.sources[key]]. *)
Definition addSource (importId : string) (imported : list (string * jsval))
           (correctedStyle : StyleDoc) (key : string) : M StyleDoc :=
  match sources correctedStyle with
  | None => throw (ErrTypeError "Cannot set properties of undefined")
  | Some base =>
      match JsObj.get key imported with
      | Some v =>
          ret (set_sources (JsObj.set (rewriteSource importId key) v base)
                           correctedStyle)
      | None => ret correctedStyle
      end
  end.

(** [forEach] with a body that may throw. *)
Fixpoint foldM {A B : Type} (f : B -> A -> M B) (l : list A) (b : B) : M B :=
  match l with
  | [] => ret b
  | a :: l' => b' <- f b a ;; foldM f l' b'
  end.

(** The layer an imported layer becomes. *)
Definition rewriteLayer (importId : string) (layer : LayerDef) : LayerDef :=
  {| source :=
       match source layer with
       | None => None
       | Some s =>
           if negb (JsStr.truthy s) then None
           else if String.eqb s "composite" then Some importId
           else Some (importId ++ "-" ++ s)%string
       end;
     layer_rest := layer_rest layer |}.

(** A resolved import: [{ id, url, style }]. *)
Record ImportedStyle : Type := mkImported {
  is_id : string;
  is_url : string;
  is_style : StyleDoc
}.

(** The body of [importedStyles.forEach(({ id, style }, idx) => ...)]. *)
Definition mergeImport (correctedStyle : StyleDoc) (idx : nat) (imp : ImportedStyle)
  : M StyleDoc :=
  let importId := importIdOf (is_id imp) idx in
  let importedStyle := is_style imp in
  imported <- match sources importedStyle with
              | None => throw (ErrTypeError "Cannot convert undefined or null to object")
              | Some o => ret o
              end ;;
  cs1 <- foldM (addSource importId imported) (JsObj.keys imported) correctedStyle ;;
  importedLayers <- match layers importedStyle with
                    | None => throw (ErrTypeError "Cannot read properties of undefined")
                    | Some l => ret (map (rewriteLayer importId) l)
                    end ;;
  baseLayers <- match layers cs1 with
                | None => throw (ErrTypeError "correctedStyle.layers is not iterable")
                | Some l => ret l
                end ;;
  let cs2 := set_layers (importedLayers ++ baseLayers) cs1 in
  let cs3 := if JsVal.typeof_object (fog importedStyle) && negb (JsVal.truthy (fog cs2))
             then set_fog (fog importedStyle) cs2 else cs2 in
  let cs4 := if JsVal.typeof_string (glyphs importedStyle) && negb (JsVal.truthy (glyphs cs3))
             then set_glyphs (glyphs importedStyle) cs3 else cs3 in
  let cs5 := if JsVal.typeof_string (sprite importedStyle) && negb (JsVal.truthy (sprite cs4))
             then set_sprite (sprite importedStyle) cs4 else cs4 in
  ret cs5.

(** [importedStyles.forEach], from index [idx] on. *)
Fixpoint mergeImports (idx : nat) (importedStyles : list ImportedStyle)
         (correctedStyle : StyleDoc) : M StyleDoc :=
  match importedStyles with
  | [] => ret correctedStyle
  | imp :: rest =>
      cs <- mergeImport correctedStyle idx imp ;;
      mergeImports (S idx) rest cs
  end.

(** [style.sources[name]], [None] when there is no such source. *)
Definition source_at (style : StyleDoc) (name : string) : option jsval :=
  match sources style with
  | Some o => JsObj.get name o
  | None => None
  end.

(** The names the sources of the import at index [idx] are stored under. *)
Definition importedNames (idx : nat) (imp : ImportedStyle) : list string :=
  match sources (is_style imp) with
  | Some o => map (rewriteSource (importIdOf (is_id imp) idx)) (JsObj.keys o)
  | None => []
  end.

(** [name] is one of the names some import, counted from [idx], stores a
    source under. *)
Fixpoint contested (idx : nat) (importedStyles : list ImportedStyle) (name : string)
  : Prop :=
  match importedStyles with
  | [] => False
  | imp :: rest => In name (importedNames idx imp) \/ contested (S idx) rest name
  end.

(** The layers of the import at index [idx], rewritten. *)
Definition rewrittenLayers (idx : nat) (imp : ImportedStyle) : list LayerDef :=
  match layers (is_style imp) with
  | Some l => map (rewriteLayer (importIdOf (is_id imp) idx)) l
  | None => []
  end.

(** The rewritten layers of all imports, those of the first import first. *)
Fixpoint layersInImportOrder (idx : nat) (importedStyles : list ImportedStyle)
  : list LayerDef :=
  match importedStyles with
  | [] => []
  | imp :: rest => rewrittenLayers idx imp ++ layersInImportOrder (S idx) rest
  end.

(** The rewritten layers of all imports, those of the last import first. *)
Fixpoint layersLastImportFirst (idx : nat) (importedStyles : list ImportedStyle)
  : list LayerDef :=
  match importedStyles with
  | [] => []
  | imp :: rest => layersLastImportFirst (S idx) rest ++ rewrittenLayers idx imp
  end.

(** *** The local-tile-archive pattern [MBTILES_REGEXP]

    The text [mbtiles://] in any letter case, then one or more
    characters that are not white space, as few as possible, up to a
    position followed by a slash or a double quote; flags [g] and [i]. *)

(** A slash or a double quote. *)
Definition is_slash_or_quote (c : ascii) : bool :=
  let n := nat_of_ascii c in ((n =? 47) || (n =? 34))%nat.

(** After one [\S] has been taken: more of them, lazily, until the
    look-ahead sees a slash or a quote. *)
Fixpoint lazy_run (s : string) : bool :=
  match s with
  | EmptyString => false
  | String c s' =>
      if is_slash_or_quote c then true
      else if JsStr.is_space c then false
      else lazy_run s'
  end.

(** The pattern matches at the start of [s]. *)
Definition mbtiles_here (s : string) : bool :=
  JsStr.prefix_ci "mbtiles://" s &&
  match JsStr.drop 10 s with
  | EmptyString => false
  | String c s' => negb (JsStr.is_space c) && lazy_run s'
  end.

(** [text.match(MBTILES_REGEXP)] is not [null]. *)
Fixpoint MBTILES_REGEXP (text : string) : bool :=
  mbtiles_here text ||
  match text with
  | EmptyString => false
  | String _ rest => MBTILES_REGEXP rest
  end.

(** *** render *)

(** [a[i]] of an array of numbers read as a number. *)
Definition at_index (a : list float) (i : nat) : float := nth i a PrimFloat.nan.

Definition is_null {A} (o : option A) : bool :=
  match o with None => true | Some _ => false end.

(** [zoom] and [center] after the bounds have been looked at. *)
Definition resolveViewport (bounds : option (list float)) (width height padding : float)
           (zoom : option float) (center : option (list float))
  : option float * option (list float) :=
  match bounds with
  | Some b =>
      if is_null zoom || is_null center
      then
        let vp := viewport b (width - 2 * padding)%float (height - 2 * padding)%float in
        (Some (JsNum.Math_max (vp_zoom vp - 1)%float 0%float), Some (vp_center vp))
      else (zoom, center)
  | None => (zoom, center)
  end.

(** The checks [render] makes before it touches the style. *)
Definition render_checks (width height : float) (options : Options) : M unit :=
  throw_if (negb (JsNum.truthy width && JsNum.truthy height)) ErrWidthHeight ;;;
  match o_center options with
  | None => ret tt
  | Some center =>
      throw_if (negb (List.length center =? 2)%nat) (RErrCenterLength center) ;;;
      throw_if (180 <? PrimFloat.abs (at_index center 0))%float
               (ErrCenterLon (at_index center 0)) ;;;
      throw_if (90 <? PrimFloat.abs (at_index center 1))%float
               (ErrCenterLat (at_index center 1))
  end ;;;
  match o_zoom options with
  | None => ret tt
  | Some zoom => throw_if ((zoom <? 0) || (22 <? zoom))%float (ErrZoom zoom)
  end ;;;
  match o_bearing options with
  | None => ret tt
  | Some bearing =>
      throw_if ((bearing <? 0) || (360 <? bearing))%float (RErrBearing bearing)
  end ;;;
  match o_pitch options with
  | None => ret tt
  | Some pitch => throw_if ((pitch <? 0) || (60 <? pitch))%float (RErrPitch pitch)
  end ;;;
  match o_bounds options with
  | None => ret tt
  | Some bounds =>
      throw_if (negb (List.length bounds =? 4)%nat) (RErrBounds bounds) ;;;
      if ReqNum.truthy (o_padding options)
      then
        throw_if (width / 2 <=? PrimFloat.abs (ToNumber (o_padding options)))%float
                 ErrPaddingWidth ;;;
        throw_if (height / 2 <=? PrimFloat.abs (ToNumber (o_padding options)))%float
                 ErrPaddingHeight
      else ret tt
  end.

(** The imports fetched ([Promise.all]) and merged into the style. *)
Definition resolveImports (style : StyleDoc) (options : Options) : M StyleDoc :=
  match o_imports options with
  | None => ret style
  | Some imports =>
      if (0 <? List.length imports)%nat
      then
        importedStyles <-
          mapM (fun e =>
                  s <- getRemoteStyleImport (imp_url e) (o_token options) ;;
                  ret {| is_id := imp_id e; is_url := imp_url e; is_style := s |})
               imports ;;
        mergeImports 0 importedStyles style
      else ret style
  end.

(** [style] is [None] when the argument is falsy.  [tilePath] is only
    normalized ([path.normalize]) and never read afterwards. *)
Definition render (style : option StyleDoc) (width height : float) (options : Options)
  : M (list Z) :=
  match style with
  | None => throw ErrStyleRequired
  | Some style =>
      render_checks width height options ;;;
      let (zoom, center) :=
        resolveViewport (o_bounds options) width height (ToNumber (o_padding options))
                        (o_zoom options) (o_center options) in
      correctedStyle <- resolveImports style options ;;
      throw_if (MBTILES_REGEXP (JSON_stringify correctedStyle)) ErrLocalMbtiles ;;;
      emit (EvMapNew (o_ratio options)) ;;;
      emit (EvMapLoad correctedStyle) ;;;
      loadImages (o_images options) ;;;
      buffer <- renderMap correctedStyle
                  {| r_zoom := zoom; r_center := center;
                     r_height := height; r_width := width;
                     r_bearing := o_bearing options; r_pitch := o_pitch options |} ;;
      emit EvMapRelease ;;;
      toPNG buffer width height (o_ratio options)
  end.

(** ** server.js *)

(** [text.split(',').map(Number)]. *)
Definition parseListToFloat (text : string) : list float :=
  map Number_of (JsStr.split "," text).

(** A list parameter: parsed when it came as text. *)
Definition decode_list (raw : string + list float) : list float :=
  match raw with
  | inl text => parseListToFloat text
  | inr a => a
  end.

(** [style]: parsed when it came as text. *)
Definition renderImage_style (style : option (string + StyleDoc)) : M (option StyleDoc) :=
  match style with
  | Some (inl text) =>
      match JSON_parse_style text with
      | None => throw ErrJSONStyle
      | Some s => ret (Some s)
      end
  | Some (inr s) => ret (Some s)
  | None => ret None
  end.

(** The [center] rule. *)
Definition renderImage_center (center : option (string + list float))
  : M (option (list float)) :=
  match center with
  | None => ret None
  | Some raw =>
      let center := decode_list raw in
      throw_if (negb (List.length center =? 2)%nat) (ErrCenterLength center) ;;;
      throw_if (negb (JsNum.isFinite (at_index center 0))
                || (180 <? PrimFloat.abs (at_index center 0))%float)
               (ErrCenterLon (at_index center 0)) ;;;
      throw_if (negb (JsNum.isFinite (at_index center 1))
                || (90 <? PrimFloat.abs (at_index center 1))%float)
               (ErrCenterLat (at_index center 1)) ;;;
      ret (Some center)
  end.

(** The [zoom] rule. *)
Definition renderImage_zoom (zoom : option float) : M (option float) :=
  match zoom with
  | None => ret None
  | Some z =>
      let zoom := parseFloat z in
      throw_if ((zoom <? 0) || (22 <? zoom))%float (ErrZoom zoom) ;;;
      ret (Some zoom)
  end.

(** The [ratio] rule. *)
Definition renderImage_ratio (ratio : option reqnum) : M unit :=
  match ratio with
  | None => ret tt
  | Some r => throw_if (negb (ReqNum.truthy r) || (ToNumber r <? 1)%float) (ErrRatio r)
  end.

(** The [bounds] rule, up to the comparison of the corners. *)
Definition renderImage_bounds (bounds : option (string + list float))
  : M (option (list float)) :=
  match bounds with
  | None => ret None
  | Some raw =>
      let bounds := decode_list raw in
      throw_if (negb (List.length bounds =? 4)%nat) (ErrBounds bounds) ;;;
      throw_if (existsb (fun b => negb (JsNum.isFinite b)) bounds) (ErrBounds bounds) ;;;
      let west := at_index bounds 0 in
      let south := at_index bounds 1 in
      let east := at_index bounds 2 in
      let north := at_index bounds 3 in
      throw_if (PrimFloat.eqb west east) ErrBoundsWestEast ;;;
      throw_if (PrimFloat.eqb south north) ErrBoundsSouthNorth ;;;
      ret (Some bounds)
  end.

(** The [padding] rule, the end of the [bounds] block. *)
Definition renderImage_padding (bounds : option (list float)) (padding : reqnum)
           (width height : float) : M unit :=
  match bounds with
  | None => ret tt
  | Some _ =>
      if ReqNum.truthy padding
      then
        throw_if (width / 2 <=? PrimFloat.abs (ToNumber padding))%float ErrPaddingWidth ;;;
        throw_if (height / 2 <=? PrimFloat.abs (ToNumber padding))%float ErrPaddingHeight
      else ret tt
  end.

(** The [bearing] and [pitch] rules. *)
Definition renderImage_bearing (bearing : option float) : M unit :=
  match bearing with
  | None => ret tt
  | Some b => throw_if ((b <? 0) || (360 <? b))%float (ErrBearing b)
  end.

Definition renderImage_pitch (pitch : option float) : M unit :=
  match pitch with
  | None => ret tt
  | Some p => throw_if ((p <? 0) || (60 <? p))%float (ErrPitch p)
  end.

Definition is_some {A} (o : option A) : bool := negb (is_null o).

(** The cross-field rule: [(center && zoom !== null) || bounds]. *)
Definition renderImage_viewport (center : option (list float)) (zoom : option float)
           (bounds : option (list float)) : M unit :=
  throw_if (negb ((is_some center && is_some zoom) || is_some bounds))
           ErrCenterZoomOrBounds.

(** The [images] rule. *)
Definition renderImage_images (images : option (string + list (string * ImageRef)))
  : M (option (list (string * ImageRef))) :=
  match images with
  | None => ret None
  | Some raw =>
      entries <- match raw with
                 | inl text =>
                     match JSON_parse_images text with
                     | None => throw ErrJSONSyntax
                     | Some l => ret l
                     end
                 | inr l => ret l
                 end ;;
      mapM (fun entry =>
              let image := snd entry in
              throw_if (negb (JsStr.truthy (img_url image))) ErrImageObject ;;;
              throw_if (negb (URL_valid (img_url image))) (ErrImageURL (img_url image)))
           entries ;;;
      ret (Some entries)
  end.

(** The [imports] rule. *)
Definition renderImage_imports (imports : option (list ImportRef)) : M unit :=
  match imports with
  | None => ret tt
  | Some l =>
      mapM (fun imp =>
              throw_if (negb (JsStr.truthy (imp_url imp) && JsStr.truthy (imp_id imp)))
                       ErrImportObject ;;;
              if negb (JsStr.startsWith "mapbox://styles" (imp_url imp))
              then throw_if (negb (URL_valid (imp_url imp))) (ErrImportURL (imp_url imp))
              else ret tt)
           l ;;;
      ret tt
  end.

(** [tilePath] is the server's start-up option. *)
Definition renderImage (params : Params) (tilePath : option string) : M (list Z) :=
  style <- renderImage_style (p_style params) ;;
  center <- renderImage_center (p_center params) ;;
  zoom <- renderImage_zoom (p_zoom params) ;;
  renderImage_ratio (p_ratio params) ;;;
  bounds <- renderImage_bounds (p_bounds params) ;;
  renderImage_padding bounds (p_padding params) (p_width params) (p_height params) ;;;
  renderImage_bearing (p_bearing params) ;;;
  renderImage_pitch (p_pitch params) ;;;
  renderImage_viewport center zoom bounds ;;;
  images <- renderImage_images (p_images params) ;;
  renderImage_imports (p_imports params) ;;;
  try_catch
    (render style (parseInt10 (p_width params)) (parseInt10 (p_height params))
            {| o_bounds := bounds; o_bearing := p_bearing params;
               o_pitch := p_pitch params; o_token := p_token params;
               o_ratio := p_ratio params; o_padding := p_padding params;
               o_images := images; o_imports := p_imports params;
               o_center := center; o_zoom := zoom; o_tilePath := tilePath |})
    (fun err => throw (ErrProcessing err)).

(** What each rule that [renderImage] applies ahead of the cross-field
    rule says about a request without [bounds], in the order of the code
    (lines 54-100 and 152-168; the [bounds] and [padding] rules have
    nothing to check there). *)
Definition rules_before_viewport (params : Params) : list (option exn) :=
  [error_of (renderImage_style (p_style params));
   error_of (renderImage_center (p_center params));
   error_of (renderImage_zoom (p_zoom params));
   error_of (renderImage_ratio (p_ratio params));
   error_of (renderImage_bearing (p_bearing params));
   error_of (renderImage_pitch (p_pitch params))].

End Impl.

(** ** The second copy of render.ts (unnamed/part_000, lines 361-772)

    It has the text of render.ts except in three places: the style import
    is fetched in place, with the same tests; a remote icon is fetched
    with no test of the status; and the buffer of the engine goes to the
    encoder without [toPNG].  It has no fetchers for the engine. *)

Module Part000.
Section Impl.
Context {P : Platform}.

(** Lines 479-520: [fetch(url).then((res) => res.arrayBuffer())], the
    buffer being an object and so never falsy. *)
Definition loadImage (id : string) (image : ImageRef) : M unit :=
  let url := img_url image in
  let pixelRatio := match img_pixelRatio image with Some r => r | None => 1%float end in
  let sdf := match img_sdf image with Some b => b | None => false end in
  throw_if (negb (JsStr.truthy url)) (ErrInvalidImageUrl id) ;;;
  try_catch
    (imgBuffer <-
       (if JsStr.startsWith "data:" url
        then match nth_error (JsStr.split "base64," url) 1 with
             | None => throw (ErrTypeError "Buffer.from(undefined, 'base64')")
             | Some payload => ret (base64_decode payload)
             end
        else match fetch url with
             | None => throw (ErrFetchRejected url)
             | Some res =>
                 match body res with
                 | None => throw (ErrBodyRejected url)
                 | Some bytes => ret bytes
                 end
             end) ;;
     match sharp_decode imgBuffer with
     | None => throw ErrDecodeImage
     | Some d =>
         emit (EvAddImage id d pixelRatio sdf) ;;;
         throw_if (negb (map_addImage id d)) ErrAddImage
     end)
    (fun e => throw (ErrLoadingIcon id e)).

(** Lines 527-538. *)
Definition loadImages (images : option (list (string * ImageRef))) : M unit :=
  match images with
  | None => ret tt
  | Some entries =>
      mapM (fun entry => loadImage (fst entry) (snd entry)) entries ;;; ret tt
  end.

(** Lines 761-769: [sharp(buffer, { raw }).png(...).toBuffer()] on the
    buffer as the engine gave it. *)
Definition encode (buffer : list Z) (width height : float) (ratio : option reqnum)
  : M (list Z) :=
  let raw := {| raw_data := buffer;
                raw_width := JsNum.Math_round (width * ToNumber_nullable ratio)%float;
                raw_height := JsNum.Math_round (height * ToNumber_nullable ratio)%float;
                raw_channels := 4 |} in
  emit (EvEncode raw) ;;;
  match png_encode raw with
  | None => throw ErrEncode
  | Some png => ret png
  end.

(** Lines 572-770. *)
Definition render (style : option StyleDoc) (width height : float) (options : Options)
  : M (list Z) :=
  match style with
  | None => throw ErrStyleRequired
  | Some style =>
      render_checks width height options ;;;
      let (zoom, center) :=
        resolveViewport (o_bounds options) width height (ToNumber (o_padding options))
                        (o_zoom options) (o_center options) in
      correctedStyle <- resolveImports style options ;;
      throw_if (MBTILES_REGEXP (JSON_stringify correctedStyle)) ErrLocalMbtiles ;;;
      emit (EvMapNew (o_ratio options)) ;;;
      emit (EvMapLoad correctedStyle) ;;;
      loadImages (o_images options) ;;;
      buffer <- renderMap correctedStyle
                  {| r_zoom := zoom; r_center := center;
                     r_height := height; r_width := width;
                     r_bearing := o_bearing options; r_pitch := o_pitch options |} ;;
      emit EvMapRelease ;;;
      encode buffer width height (o_ratio options)
  end.

End Impl.
End Part000.


(** ** A platform to run the pipeline on

    A fixed network, a fixed viewport fit and an engine that always
    answers with the same two pixels: enough to evaluate the definitions
    above on concrete requests. *)

(** The double quote, as a one-character text. *)
Definition dquote : string := String (ascii_of_nat 34) EmptyString.

Definition quoted (s : string) : string := (dquote ++ s ++ dquote)%string.

(** [JSON.stringify] for values whose numbers are integers and whose
    texts need no escaping. *)
Fixpoint stringify_val (v : jsval) : string :=
  match v with
  | JNull => "null"
  | JBool b => if b then "true" else "false"
  | JNum x => NilEmpty.string_of_int (Z.to_int (JsNum.trunc_Z x))
  | JStr s => quoted s
  | JArr l =>
      ("[" ++ (fix items (l : list jsval) : string :=
                 match l with
                 | [] => EmptyString
                 | x :: r =>
                     stringify_val x
                     ++ (match r with [] => EmptyString | _ => "," end)
                     ++ items r
                 end) l ++ "]")%string
  | JObj o =>
      ("{" ++ (fix fields (o : list (string * jsval)) : string :=
                 match o with
                 | [] => EmptyString
                 | (k, x) :: r =>
                     quoted k ++ ":" ++ stringify_val x
                     ++ (match r with [] => EmptyString | _ => "," end)
                     ++ fields r
                 end) o ++ "}")%string
  end.

(** A layer as an object: its [source], when defined, then the rest. *)
Definition layer_val (l : LayerDef) : jsval :=
  JObj (match source l with
        | Some s => [("source", JStr s)]
        | None => []
        end ++ layer_rest l).

(** A style as an object; undefined fields are left out. *)
Definition style_val (s : StyleDoc) : jsval :=
  let field (k : string) (v : option jsval) : list (string * jsval) :=
    match v with Some x => [(k, x)] | None => [] end in
  JObj (field "version" (version s)
        ++ field "sources" (option_map JObj (sources s))
        ++ field "layers" (option_map (fun l => JArr (map layer_val l)) (layers s))
        ++ field "fog" (fog s)
        ++ field "glyphs" (glyphs s)
        ++ field "sprite" (sprite s)).

Definition stringify_style (s : StyleDoc) : string := stringify_val (style_val s).

(** Two styles the sample network serves. *)
Definition basemap_style : StyleDoc :=
  {| version := Some (JNum 8%float);
     sources := Some [("composite", JStr "imported-composite");
                      ("roads", JStr "imported-roads")];
     layers := Some [mkLayer (Some "composite") [("id", JStr "land")];
                     mkLayer (Some "roads") [("id", JStr "road")];
                     mkLayer None [("id", JStr "background")]];
     fog := None;
     glyphs := Some (JStr "https://fonts.example/{fontstack}/{range}.pbf");
     sprite := None |}.

Definition labels_style : StyleDoc :=
  {| version := Some (JNum 8%float);
     sources := Some [("places", JStr "imported-places")];
     layers := Some [mkLayer (Some "places") [("id", JStr "label")]];
     fog := None; glyphs := None; sprite := None |}.

Definition sample_fetch (url : string) : option Response :=
  if String.eqb url "https://tiles.example/empty.pbf"
  then Some (mkResponse 204 [] (Some []))
  else if String.eqb url "https://tiles.example/missing.pbf"
       then Some (mkResponse 404 [] (Some []))
  else if String.eqb url "https://tiles.example/broken.pbf"
       then Some (mkResponse 500 [] (Some []))
  else if String.eqb url "https://tiles.example/1/2/3.pbf"
       then Some (mkResponse 200 [("etag", "abc")] (Some [26; 2]))
  else if String.eqb url "https://tiles.example/cut.pbf"
       then Some (mkResponse 200 [("etag", "abc")] None)
  else if String.eqb url "https://tiles.example/sprite.png"
       then Some (mkResponse 200 [("etag", "s1");
                                  ("last-modified", "Mon, 01 Jan 2024 00:00:00 GMT");
                                  ("expires", EmptyString)]
                             (Some [137; 80]))
  else if String.eqb url "https://styles.example/basemap.json"
       then Some (mkResponse 200 [] (Some [1]))
  else if String.eqb url "https://styles.example/labels.json"
       then Some (mkResponse 200 [] (Some [2]))
  else None.

Definition sample_json (res : Response) : option json_value :=
  match body res with
  | Some [1] => Some (JsonObject basemap_style)
  | Some [2] => Some (JsonObject labels_style)
  | _ => None
  end.

(** [Number(text)] on the few texts the sample requests use; any other
    text here is not a number. *)
Definition sample_Number (text : string) : float :=
  if String.eqb text "0" then 0%float
  else if String.eqb text "0.5" then 0.5%float
  else if String.eqb text "2" then 2%float
  else if String.eqb text "10" then 10%float
  else PrimFloat.nan.

#[local] Instance sample_platform : Platform := {|
  JSON_parse_style := fun _ => None;
  JSON_parse_images := fun _ => None;
  Number_of := sample_Number;
  parseFloat := fun x => x;
  parseInt10 := fun x => x;
  URL_valid := fun s => JsStr.startsWith "https://" s || JsStr.startsWith "data:" s;
  URL_pathname := fun _ => None;
  URL_with_params := fun _ _ => None;
  viewport := fun _ _ _ => {| vp_center := [7.15%float; 45%float]; vp_zoom := 11.5%float |};
  fetch := sample_fetch;
  response_json := sample_json;
  JSON_stringify := stringify_style;
  base64_decode := fun s => map (fun c => Z.of_nat (nat_of_ascii c)) (list_ascii_of_string s);
  sharp_decode := fun b => match b with [] => None | _ => Some (mkDecoded 1 1 b) end;
  map_addImage := fun _ _ => true;
  map_render := fun _ _ => Some [128; 64; 32; 128; 10; 20; 30; 0];
  png_encode := fun raw => Some (raw_data raw)
|}.

(** The same platform with a fit that is zoomed far out: zoom 0.25, so
    that the zoom minus 1 is below 0. *)
Definition zoomed_out_platform : Platform :=
  {| JSON_parse_style := @JSON_parse_style sample_platform;
     JSON_parse_images := @JSON_parse_images sample_platform;
     Number_of := @Number_of sample_platform;
     parseFloat := @parseFloat sample_platform;
     parseInt10 := @parseInt10 sample_platform;
     URL_valid := @URL_valid sample_platform;
     URL_pathname := @URL_pathname sample_platform;
     URL_with_params := @URL_with_params sample_platform;
     viewport := fun _ _ _ => {| vp_center := [0%float; 0%float]; vp_zoom := 0.25%float |};
     fetch := @fetch sample_platform;
     response_json := @response_json sample_platform;
     JSON_stringify := @JSON_stringify sample_platform;
     base64_decode := @base64_decode sample_platform;
     sharp_decode := @sharp_decode sample_platform;
     map_addImage := @map_addImage sample_platform;
     map_render := @map_render sample_platform;
     png_encode := @png_encode sample_platform |}.

(** Sample requests. *)

Definition empty_style : StyleDoc :=
  {| version := None; sources := None; layers := None;
     fog := None; glyphs := None; sprite := None |}.

Definition local_style : StyleDoc :=
  {| version := Some (JNum 8%float);
     sources := Some [("basemap", JStr "local-basemap");
                      ("terrain", JStr "local-terrain")];
     layers := Some [mkLayer (Some "basemap") [("id", JStr "local")]];
     fog := None; glyphs := Some (JStr "local-glyphs"); sprite := None |}.

Definition mbtiles_style : StyleDoc :=
  {| version := Some (JNum 8%float);
     sources := Some [("land", JObj [("tiles", JArr [JStr "mbtiles://foo/1/2/3"])])];
     layers := Some [];
     fog := None; glyphs := None; sprite := None |}.

(** [{ style, width: 400, height: 260 }] and nothing else. *)
Definition bare_params (style : StyleDoc) : Params :=
  {| p_style := Some (inr style); p_width := 400%float; p_height := 260%float;
     p_token := None; p_padding := NumV 0%float; p_bearing := None; p_pitch := None;
     p_imports := None; p_zoom := None; p_center := None; p_bounds := None;
     p_ratio := Some (NumV 1%float); p_images := None |}.

Definition with_center (c : list float) (p : Params) : Params :=
  {| p_style := p_style p; p_width := p_width p; p_height := p_height p;
     p_token := p_token p; p_padding := p_padding p; p_bearing := p_bearing p;
     p_pitch := p_pitch p; p_imports := p_imports p; p_zoom := p_zoom p;
     p_center := Some (inr c); p_bounds := p_bounds p;
     p_ratio := p_ratio p; p_images := p_images p |}.

(** A center outside the world and a ratio below 1, with neither [zoom]
    nor [bounds]. *)
Definition two_faults_params : Params :=
  {| p_style := Some (inr empty_style); p_width := 400%float; p_height := 260%float;
     p_token := None; p_padding := NumV 0%float; p_bearing := None; p_pitch := None;
     p_imports := None; p_zoom := None;
     p_center := Some (inr [200%float; 0%float]); p_bounds := None;
     p_ratio := Some (NumV 0.5%float); p_images := None |}.

Definition with_zoom (z : float) (p : Params) : Params :=
  {| p_style := p_style p; p_width := p_width p; p_height := p_height p;
     p_token := p_token p; p_padding := p_padding p; p_bearing := p_bearing p;
     p_pitch := p_pitch p; p_imports := p_imports p; p_zoom := Some z;
     p_center := p_center p; p_bounds := p_bounds p;
     p_ratio := p_ratio p; p_images := p_images p |}.

Definition with_bounds (b : list float) (p : Params) : Params :=
  {| p_style := p_style p; p_width := p_width p; p_height := p_height p;
     p_token := p_token p; p_padding := p_padding p; p_bearing := p_bearing p;
     p_pitch := p_pitch p; p_imports := p_imports p; p_zoom := p_zoom p;
     p_center := p_center p; p_bounds := Some (inr b);
     p_ratio := p_ratio p; p_images := p_images p |}.

Definition with_imports (l : list ImportRef) (p : Params) : Params :=
  {| p_style := p_style p; p_width := p_width p; p_height := p_height p;
     p_token := p_token p; p_padding := p_padding p; p_bearing := p_bearing p;
     p_pitch := p_pitch p; p_imports := Some l; p_zoom := p_zoom p;
     p_center := p_center p; p_bounds := p_bounds p;
     p_ratio := p_ratio p; p_images := p_images p |}.

Definition with_images (l : list (string * ImageRef)) (p : Params) : Params :=
  {| p_style := p_style p; p_width := p_width p; p_height := p_height p;
     p_token := p_token p; p_padding := p_padding p; p_bearing := p_bearing p;
     p_pitch := p_pitch p; p_imports := p_imports p; p_zoom := p_zoom p;
     p_center := p_center p; p_bounds := p_bounds p;
     p_ratio := p_ratio p; p_images := Some (inr l) |}.

(** The two served styles as resolved imports, in request order. *)
Definition sample_imports : list ImportedStyle :=
  [mkImported "basemap" "https://styles.example/basemap.json" basemap_style;
   mkImported "labels" "https://styles.example/labels.json" labels_style].

(** Options with [center] and [zoom]. *)
Definition centered_options : Options :=
  {| o_bounds := None; o_bearing := None; o_pitch := None; o_token := None;
     o_ratio := Some (NumV 1%float); o_padding := NumV 0%float; o_images := None;
     o_imports := None; o_center := Some [10%float; 10%float];
     o_zoom := Some 5%float; o_tilePath := None |}.

(** Options with [bounds] only. *)
Definition bounds_options : Options :=
  {| o_bounds := Some [7.0%float; 44.9%float; 7.3%float; 45.1%float];
     o_bearing := None; o_pitch := None; o_token := None;
     o_ratio := Some (NumV 1%float); o_padding := NumV 0%float; o_images := None;
     o_imports := None; o_center := None; o_zoom := None; o_tilePath := None |}.

(** An icon given inline, without the [base64,] marker. *)
Definition plain_data_icon : ImageRef :=
  {| img_url := "data:image/png,AAAA"; img_pixelRatio := None; img_sdf := None |}.

(** Two premultiplied pixels: one half transparent, one fully transparent. *)
Definition two_pixels : list Z := [128; 64; 32; 128; 10; 20; 30; 0].

(** ** Definitions for the further properties *)

(** How often the code unit [c] occurs in [s]. *)
Fixpoint count_char (c : ascii) (s : string) : nat :=
  match s with
  | EmptyString => O
  | String x s' => (if Ascii.eqb c x then 1 else 0) + count_char c s'
  end.

(** Every error [m] can end with satisfies [Q]. *)
Definition raises {A} (m : M A) (Q : exn -> Prop) : Prop :=
  forall e, outcome m = inl e -> Q e.

(** The errors of the checks [render] makes on center, zoom, bearing,
    pitch and the length of bounds. *)
Definition geometry_error (e : exn) : bool :=
  match e with
  | RErrCenterLength _ | ErrCenterLon _ | ErrCenterLat _ | ErrZoom _
  | RErrBearing _ | RErrPitch _ | RErrBounds _ => true
  | _ => false
  end.

(** The error of [loadImage] for an icon without a [url]. *)
Definition icon_url_error (e : exn) : bool :=
  match e with ErrInvalidImageUrl _ => true | _ => false end.

(** An error [render] raises that is neither of the two. *)
Definition not_prevalidated (e : exn) : Prop :=
  geometry_error e || icon_url_error e = false.

(** For an error of [renderImage]: what it wraps is not one of the two. *)
Definition processing_not_prevalidated (e : exn) : Prop :=
  forall e', e = ErrProcessing e' -> not_prevalidated e'.

(** The [RequestResponse] both fetchers build from a response whose body
    was read as [bytes]. *)
Definition responseOf (res : Response) (bytes : list Z) : RequestResponse :=
  {| data := bytes;
     etag := header "etag" res;
     modified := header "last-modified" res;
     expires := header "expires" res |}.

(** [field] holds the header [name] of the response: its text when the
    response has the header with a text that is not empty, nothing
    otherwise. *)
Definition holds_header (field : option string) (name : string) (res : Response)
  : Prop :=
  match JsObj.get name (headers res) with
  | Some (String c v) => field = Some (String c v)
  | Some EmptyString => field = None
  | None => field = None
  end.

(** [if (typeof imported === T && !current) current = imported], for one
    of [fog], [glyphs] and [sprite]. *)
Definition fillField (is_type : option jsval -> bool) (current imported : option jsval)
  : option jsval :=
  if is_type imported && negb (JsVal.truthy current) then imported else current.

(** How a field of the merged style relates to the field of the base
    style and to the fields of the imports, in import order. *)
Definition filled (is_type : option jsval -> bool) (base merged : option jsval)
           (imported : list (option jsval)) : Prop :=
  (JsVal.truthy base = true -> merged = base) /\
  (merged = base \/
   JsVal.truthy base = false /\
   exists v, In v imported /\ is_type v = true /\ merged = v) /\
  (forall pre v post,
     imported = pre ++ v :: post ->
     JsVal.truthy base = false ->
     Forall (fun w => is_type w = false \/ JsVal.truthy w = false) pre ->
     is_type v = true -> JsVal.truthy v = true ->
     merged = v).

(** The import has what the merge reads from it. *)
Definition mergeable (imp : ImportedStyle) : Prop :=
  sources (is_style imp) <> None /\ layers (is_style imp) <> None.

Section MoreImpl.
Context {P : Platform}.

(** The options [render] calls [map.render] with. *)
Definition renderOptionsOf (width height : float) (options : Options) : RenderOptions :=
  let vp := resolveViewport (o_bounds options) width height
                            (ToNumber (o_padding options))
                            (o_zoom options) (o_center options) in
  {| r_zoom := fst vp; r_center := snd vp; r_height := height; r_width := width;
     r_bearing := o_bearing options; r_pitch := o_pitch options |}.

(** The raw image [toPNG] hands to the encoder. *)
Definition rawImageOf (buffer : list Z) (width height : float) (ratio : option reqnum)
  : RawImage :=
  {| raw_data := unpremultiply buffer;
     raw_width := JsNum.Math_round (width * ToNumber_nullable ratio)%float;
     raw_height := JsNum.Math_round (height * ToNumber_nullable ratio)%float;
     raw_channels := 4 |}.



(** What [render] does from [new maplibre.Map] on, call by call. *)
Definition engine_run (correctedStyle : StyleDoc) (width height : float)
           (options : Options) : M (list Z) :=
  let o := renderOptionsOf width height options in
  let started := EvMapNew (o_ratio options) :: EvMapLoad correctedStyle
                 :: log (loadImages (o_images options)) in
  match outcome (loadImages (o_images options)) with
  | inl e => (started, inl e)
  | inr _ =>
      match map_render correctedStyle o with
      | None => (started ++ [EvMapRender o], inl ErrRenderer)
      | Some buffer =>
          let raw := rawImageOf buffer width height (o_ratio options) in
          (started ++ [EvMapRender o; EvMapRelease; EvEncode raw],
           match png_encode raw with
           | None => inl ErrEncode
           | Some png => inr png
           end)
      end
  end.

End MoreImpl.

(** The [pixelRatio] and [sdf] an icon is added with: 1 and [false]
    unless the request says otherwise. *)
Definition pixelRatioOf (image : ImageRef) : float :=
  match img_pixelRatio image with Some r => r | None => 1%float end.

Definition sdfOf (image : ImageRef) : bool :=
  match img_sdf image with Some b => b | None => false end.

(** [JsNum.trunc_Z] with the powers of two as shifts. *)
Definition trunc_shift (x : float) : Z :=
  match Prim2SF x with
  | S754_finite s m e =>
      let v := if 0 <=? e then Z.shiftl (Z.pos m) e else Z.shiftr (Z.pos m) (- e) in
      if s then - v else v
  | _ => 0
  end.

(** The integers [0], ..., [n - 1]. *)
Definition below (n : nat) : list Z := map Z.of_nat (seq 0 n).

(** One colour byte [c] of a pixel with alpha byte [a], [c <= a]: the
    stored byte is the exact quotient [255 c / a] rounded down, or one
    less, and it is [c] itself when the pixel is opaque. *)
Definition channel_restored (c a : Z) : bool :=
  let r := trunc_shift (JsNum.of_Z c / (JsNum.of_Z a / 255))%float mod 256 in
  let q := 255 * c / a in
  (q - 1 <=? r) && (r <=? q) && ((a <? 255) || (r =? c)).

(** [channel_restored] on every pair [c <= a], [0 < a], of the given bytes. *)
Definition channels_restored (bytes : list Z) : bool :=
  forallb (fun a => forallb (fun c => (a <? c) || (a =? 0) || channel_restored c a) bytes)
          bytes.

(** Every pixel of the buffer is opaque (and the buffer is whole pixels). *)
Fixpoint opaque (buffer : list Z) : Prop :=
  match buffer with
  | [] => True
  | _ :: _ :: _ :: a :: rest => a = 255 /\ opaque rest
  | _ => False
  end.

(** The errors [renderImage] raises itself, before it calls [render]. *)
Definition validation_error (e : exn) : bool :=
  match e with
  | ErrJSONStyle | ErrCenterLength _ | ErrCenterLon _ | ErrCenterLat _ | ErrZoom _
  | ErrRatio _ | ErrBounds _ | ErrBoundsWestEast | ErrBoundsSouthNorth
  | ErrPaddingWidth | ErrPaddingHeight | ErrBearing _ | ErrPitch _
  | ErrCenterZoomOrBounds | ErrJSONSyntax | ErrImageObject | ErrImageURL _
  | ErrImportObject | ErrImportURL _ => true
  | _ => false
  end.

Section MoreRules.
Context {P : Platform}.

(** An icon the [images] rule lets through. *)
Definition image_accepted (entry : string * ImageRef) : bool :=
  JsStr.truthy (img_url (snd entry)) && URL_valid (img_url (snd entry)).

(** An import the [imports] rule lets through. *)
Definition import_accepted (imp : ImportRef) : bool :=
  JsStr.truthy (imp_url imp) && JsStr.truthy (imp_id imp)
  && (JsStr.startsWith "mapbox://styles" (imp_url imp) || URL_valid (imp_url imp)).

End MoreRules.

(** More sample requests. *)

(** A style with nothing but empty [sources] and [layers]. *)
Definition plain_style : StyleDoc :=
  {| version := Some (JNum 8%float); sources := Some []; layers := Some [];
     fog := None; glyphs := None; sprite := None |}.

(** The first of the two served styles as the only import. *)
Definition basemap_import : list ImportedStyle :=
  [mkImported "basemap" "https://styles.example/basemap.json" basemap_style].

(** What merging it into [plain_style] and into [local_style] gives. *)
Definition merged_plain : StyleDoc :=
  {| version := Some (JNum 8%float);
     sources := Some [("basemap", JStr "imported-composite");
                      ("basemap-roads", JStr "imported-roads")];
     layers := Some [mkLayer (Some "basemap") [("id", JStr "land")];
                     mkLayer (Some "basemap-roads") [("id", JStr "road")];
                     mkLayer None [("id", JStr "background")]];
     fog := None;
     glyphs := Some (JStr "https://fonts.example/{fontstack}/{range}.pbf");
     sprite := None |}.

Definition merged_local : StyleDoc :=
  {| version := Some (JNum 8%float);
     sources := Some [("basemap", JStr "imported-composite");
                      ("terrain", JStr "local-terrain");
                      ("basemap-roads", JStr "imported-roads")];
     layers := Some [mkLayer (Some "basemap") [("id", JStr "land")];
                     mkLayer (Some "basemap-roads") [("id", JStr "road")];
                     mkLayer None [("id", JStr "background")];
                     mkLayer (Some "basemap") [("id", JStr "local")]];
     fog := None; glyphs := Some (JStr "local-glyphs"); sprite := None |}.

(** Options with an import the sample network answers with status 500. *)
Definition broken_import_options : Options :=
  {| o_bounds := None; o_bearing := None; o_pitch := None; o_token := None;
     o_ratio := Some (NumV 1%float); o_padding := NumV 0%float; o_images := None;
     o_imports := Some [mkImport "broken" "https://tiles.example/broken.pbf"];
     o_center := Some [10%float; 10%float];
     o_zoom := Some 5%float; o_tilePath := None |}.

(** Options with neither [bounds] nor [zoom] nor [center]. *)
Definition no_viewport_options : Options :=
  {| o_bounds := None; o_bearing := None; o_pitch := None; o_token := None;
     o_ratio := Some (NumV 1%float); o_padding := NumV 0%float; o_images := None;
     o_imports := None; o_center := None; o_zoom := None; o_tilePath := None |}.

(** An icon given inline, with the [base64,] marker. *)
Definition inline_icon : ImageRef :=
  {| img_url := "data:image/png;base64,QUJD"; img_pixelRatio := None; img_sdf := None |}.

(** Options with [center], [zoom] and the inline icon. *)
Definition icon_options : Options :=
  {| o_bounds := None; o_bearing := None; o_pitch := None; o_token := None;
     o_ratio := Some (NumV 1%float); o_padding := NumV 0%float;
     o_images := Some [("pin", inline_icon)];
     o_imports := None; o_center := Some [10%float; 10%float];
     o_zoom := Some 5%float; o_tilePath := None |}.

(** Two opaque pixels. *)
Definition opaque_pixels : list Z := [10; 20; 30; 255; 0; 0; 0; 255].

(** Options with [center], [zoom] and an icon that cannot be decoded. *)
Definition bad_icon_options : Options :=
  {| o_bounds := None; o_bearing := None; o_pitch := None; o_token := None;
     o_ratio := Some (NumV 1%float); o_padding := NumV 0%float;
     o_images := Some [("pin", plain_data_icon)];
     o_imports := None; o_center := Some [10%float; 10%float];
     o_zoom := Some 5%float; o_tilePath := None |}.

(** An icon the sample network serves. *)
Definition remote_icon : ImageRef :=
  {| img_url := "https://tiles.example/1/2/3.pbf";
     img_pixelRatio := Some 2%float; img_sdf := None |}.


(** * Properties *)

(** ** The monad *)

Lemma bind_ret (A B : Type) (a : A) (k : A -> M B) : bind (ret a) k = k a.
Proof. unfold bind, ret. destruct (k a); reflexivity. Qed.

Lemma bind_throw (A B : Type) (e : exn) (k : A -> M B) : bind (throw e) k = throw e.
Proof. reflexivity. Qed.

Lemma throw_if_false (e : exn) : throw_if false e = ret tt.
Proof. reflexivity. Qed.

Lemma throw_if_true (e : exn) : throw_if true e = throw e.
Proof. reflexivity. Qed.

Lemma outcome_bind_ok (A B : Type) (m : M A) (k : A -> M B) (a : A) :
  outcome m = inr a -> outcome (bind m k) = outcome (k a).
Proof.
  destruct m as [t [e | a']]; simpl; intros H; [discriminate |].
  injection H as ->. unfold bind, outcome. destruct (k a); reflexivity.
Qed.

Lemma log_bind_ok (A B : Type) (m : M A) (k : A -> M B) (a : A) :
  outcome m = inr a -> log (bind m k) = log m ++ log (k a).
Proof.
  destruct m as [t [e | a']]; simpl; intros H; [discriminate |].
  injection H as ->. unfold bind, log. destruct (k a); reflexivity.
Qed.

Lemma bind_fail (A B : Type) (m : M A) (k : A -> M B) (e : exn) :
  outcome m = inl e -> bind m k = (log m, inl e).
Proof.
  destruct m as [t [e' | a]]; simpl; intros H; [| discriminate].
  injection H as ->. reflexivity.
Qed.

Lemma failed_bind_l (A B : Type) (m : M A) (k : A -> M B) :
  failed m -> failed (bind m k).
Proof.
  intros [e He]. exists e. rewrite (bind_fail _ _ He). reflexivity.
Qed.

Lemma failed_bind_r (A B : Type) (m : M A) (k : A -> M B) (a : A) :
  outcome m = inr a -> failed (k a) -> failed (bind m k).
Proof.
  intros Hm [e He]. exists e. rewrite (outcome_bind_ok _ _ Hm). exact He.
Qed.

(** A computation fails or gives a value. *)
Lemma outcome_cases (A : Type) (m : M A) :
  (exists e, outcome m = inl e) \/ (exists a, outcome m = inr a).
Proof. destruct m as [t [e | a]]; simpl; eauto. Qed.

Lemma failed_try_catch_throw (A : Type) (m : M A) (h : exn -> exn) :
  failed m -> failed (try_catch m (fun e => throw (h e))).
Proof.
  intros [e He]. destruct m as [t [e' | a]]; simpl in *; [| discriminate].
  exists (h e'). reflexivity.
Qed.

Lemma failed_mapM (A B : Type) (f : A -> M B) (l : list A) (a : A) :
  In a l -> failed (f a) -> failed (mapM f l).
Proof.
  induction l as [| x l IH]; simpl; [tauto |].
  intros [-> | Hin] Hf.
  - now apply failed_bind_l.
  - destruct (outcome_cases (f x)) as [[e He] | [b Hb]].
    + apply failed_bind_l. now exists e.
    + apply failed_bind_r with b; [exact Hb |].
      apply failed_bind_l. now apply IH.
Qed.

(** ** Numbers *)

Lemma SFcompare_antisym (x y : spec_float) (c : comparison) :
  SFcompare x y = Some c -> SFcompare y x = Some (CompOpp c).
Proof.
  destruct x as [sx|sx| |sx mx ex], y as [sy|sy| |sy my ey]; simpl; intros H;
    try discriminate; injection H as <-;
    try (destruct sx); try (destruct sy); try reflexivity.
  all: rewrite (Z.compare_antisym ex ey), (ZC4 my mx).
  all: destruct (ex ?= ey)%Z; simpl; try reflexivity.
  all: destruct (Pos.compare_cont Eq mx my); reflexivity.
Qed.

Lemma SFcompare_not_nan (x y : spec_float) :
  x <> S754_nan -> y <> S754_nan -> exists c, SFcompare x y = Some c.
Proof.
  destruct x, y; simpl; intros; try congruence; eauto.
Qed.

Lemma is_nan_Prim2SF (x : float) : PrimFloat.is_nan x = false -> Prim2SF x <> S754_nan.
Proof.
  unfold PrimFloat.is_nan. rewrite FloatAxioms.eqb_spec. intros H E.
  rewrite E in H. discriminate.
Qed.

(** For numbers that are not [NaN], [y < x] is the negation of [x <= y]. *)
Lemma ltb_negb_leb (x y : float) :
  PrimFloat.is_nan x = false -> PrimFloat.is_nan y = false ->
  (y <? x)%float = negb (x <=? y)%float.
Proof.
  intros Hx Hy. rewrite FloatAxioms.ltb_spec, FloatAxioms.leb_spec.
  unfold SFltb, SFleb.
  destruct (SFcompare_not_nan (is_nan_Prim2SF _ Hx) (is_nan_Prim2SF _ Hy)) as [c Hc].
  rewrite Hc, (SFcompare_antisym _ _ Hc). destruct c; reflexivity.
Qed.

Lemma isFinite_not_nan (x : float) :
  JsNum.isFinite x = true -> PrimFloat.is_nan x = false.
Proof.
  unfold JsNum.isFinite, PrimFloat.is_finite.
  destruct (PrimFloat.is_nan x); simpl; congruence.
Qed.

Lemma is_nan_abs (x : float) : PrimFloat.is_nan (PrimFloat.abs x) = PrimFloat.is_nan x.
Proof.
  unfold PrimFloat.is_nan. rewrite !FloatAxioms.eqb_spec, abs_spec.
  destruct (Prim2SF x) as [s|s| |s m e]; unfold SFeqb; simpl; try reflexivity.
  - destruct s; reflexivity.
  - destruct s; rewrite ?Z.compare_refl, ?Pos.compare_cont_refl; reflexivity.
Qed.

(** For a finite number, [|x| > c] fails exactly when [|x| <= c]. *)
Lemma abs_within (x c : float) :
  JsNum.isFinite x = true -> PrimFloat.is_nan c = false ->
  (c <? PrimFloat.abs x)%float = negb (PrimFloat.abs x <=? c)%float.
Proof.
  intros Hx Hc. apply ltb_negb_leb; [| exact Hc].
  rewrite is_nan_abs. now apply isFinite_not_nan.
Qed.

Lemma is_nan_true_Prim2SF (x : float) : PrimFloat.is_nan x = true -> Prim2SF x = S754_nan.
Proof.
  unfold PrimFloat.is_nan. rewrite FloatAxioms.eqb_spec. unfold SFeqb.
  destruct (Prim2SF x) as [s | s | | s m e]; simpl; try reflexivity.
  - discriminate.
  - destruct s; discriminate.
  - destruct s; rewrite Z.compare_refl, Pos.compare_cont_refl; discriminate.
Qed.

Lemma ltb_nan_l (x y : float) : PrimFloat.is_nan x = true -> (x <? y)%float = false.
Proof.
  intros H. rewrite FloatAxioms.ltb_spec, (@is_nan_true_Prim2SF _ H). reflexivity.
Qed.

Lemma ltb_nan_r (x y : float) : PrimFloat.is_nan y = true -> (x <? y)%float = false.
Proof.
  intros H. rewrite FloatAxioms.ltb_spec, (@is_nan_true_Prim2SF _ H).
  unfold SFltb. destruct (Prim2SF x); reflexivity.
Qed.

Lemma leb_nan_l (x y : float) : PrimFloat.is_nan x = true -> (x <=? y)%float = false.
Proof.
  intros H. rewrite FloatAxioms.leb_spec, (@is_nan_true_Prim2SF _ H). reflexivity.
Qed.

Lemma leb_nan_r (x y : float) : PrimFloat.is_nan y = true -> (x <=? y)%float = false.
Proof.
  intros H. rewrite FloatAxioms.leb_spec, (@is_nan_true_Prim2SF _ H).
  unfold SFleb. destruct (Prim2SF x); reflexivity.
Qed.

(** Of [x < y] and [y < x] at most one holds. *)
Lemma ltb_asym (x y : float) : (x <? y)%float = true -> (y <? x)%float = false.
Proof.
  rewrite !FloatAxioms.ltb_spec. unfold SFltb.
  destruct (SFcompare (Prim2SF x) (Prim2SF y)) as [c |] eqn:E; [| discriminate].
  rewrite (SFcompare_antisym _ _ E). destruct c; try discriminate. reflexivity.
Qed.

(** What is below or above a number is not [NaN]. *)
Lemma ltb_not_nan (x y : float) :
  (x <? y)%float = true -> PrimFloat.is_nan x = false /\ PrimFloat.is_nan y = false.
Proof.
  intros H. split.
  - destruct (PrimFloat.is_nan x) eqn:E; [| reflexivity].
    rewrite (@ltb_nan_l x y E) in H. discriminate H.
  - destruct (PrimFloat.is_nan y) eqn:E; [| reflexivity].
    rewrite (@ltb_nan_r x y E) in H. discriminate H.
Qed.

(** ** Steps that call neither the engine nor the encoder *)

Lemma silent_cases (A : Type) (m : M A) :
  silent m -> (exists e, m = throw e) \/ (exists a, m = ret a).
Proof.
  destruct m as [t [e | a]]; unfold silent, log; simpl; intros ->;
    [left; exists e | right; exists a]; reflexivity.
Qed.

Lemma silent_ret (A : Type) (a : A) : silent (ret a).
Proof. reflexivity. Qed.

Lemma silent_throw (A : Type) (e : exn) : silent (@throw A e).
Proof. reflexivity. Qed.

Lemma silent_throw_if (c : bool) (e : exn) : silent (throw_if c e).
Proof. destruct c; reflexivity. Qed.

Lemma silent_bind (A B : Type) (m : M A) (k : A -> M B) :
  silent m -> (forall a, silent (k a)) -> silent (bind m k).
Proof.
  intros Hm Hk. destruct (silent_cases Hm) as [[e ->] | [a ->]].
  - reflexivity.
  - rewrite bind_ret. apply Hk.
Qed.

Lemma silent_try_catch (A : Type) (m : M A) (h : exn -> M A) :
  silent m -> (forall e, silent (h e)) -> silent (try_catch m h).
Proof.
  intros Hm Hh. destruct (silent_cases Hm) as [[e ->] | [a ->]].
  - unfold try_catch, throw. specialize (Hh e). destruct (h e) as [t r].
    unfold silent, log in *. simpl in *. now subst.
  - reflexivity.
Qed.

Lemma silent_mapM (A B : Type) (f : A -> M B) (l : list A) :
  (forall a, silent (f a)) -> silent (mapM f l).
Proof.
  intros Hf. induction l as [| a l IH]; simpl; [apply silent_ret |].
  apply silent_bind; [apply Hf |]. intros b.
  apply silent_bind; [exact IH |]. intros bs. apply silent_ret.
Qed.

Lemma silent_foldM (A B : Type) (f : B -> A -> M B) (l : list A) (b : B) :
  (forall b a, silent (f b a)) -> silent (foldM f l b).
Proof.
  intros Hf. revert b. induction l as [| a l IH]; intros b; simpl; [apply silent_ret |].
  apply silent_bind; [apply Hf | intros b'; apply IH].
Qed.

Ltac silence :=
  repeat first
    [ apply silent_ret | apply silent_throw | apply silent_throw_if
    | apply silent_bind; [| intros ?]
    | apply silent_try_catch; [| intros ?]
    | apply silent_mapM; intros ?
    | apply silent_foldM; intros ? ?
    | match goal with
      | |- silent (match ?x with _ => _ end) => destruct x
      | |- silent (if ?c then _ else _) => destruct c
      end ].

Section Validation.
Context {P : Platform}.

Lemma silent_renderImage_style s : silent (renderImage_style s).
Proof. unfold renderImage_style. silence. Qed.

Lemma silent_renderImage_center c : silent (renderImage_center c).
Proof. unfold renderImage_center. silence. Qed.

Lemma silent_renderImage_zoom z : silent (renderImage_zoom z).
Proof. unfold renderImage_zoom. silence. Qed.

Lemma silent_renderImage_ratio r : silent (renderImage_ratio r).
Proof. unfold renderImage_ratio. silence. Qed.

Lemma silent_renderImage_bounds b : silent (renderImage_bounds b).
Proof. unfold renderImage_bounds. silence. Qed.

Lemma silent_renderImage_padding b p w h : silent (renderImage_padding b p w h).
Proof. unfold renderImage_padding. silence. Qed.

Lemma silent_renderImage_bearing b : silent (renderImage_bearing b).
Proof. unfold renderImage_bearing. silence. Qed.

Lemma silent_renderImage_pitch p : silent (renderImage_pitch p).
Proof. unfold renderImage_pitch. silence. Qed.

Lemma silent_renderImage_viewport c z b : silent (renderImage_viewport c z b).
Proof. unfold renderImage_viewport. silence. Qed.

Lemma silent_renderImage_images i : silent (renderImage_images i).
Proof. unfold renderImage_images. silence. Qed.

Lemma silent_renderImage_imports i : silent (renderImage_imports i).
Proof. unfold renderImage_imports. silence. Qed.

(** A silent step that fails ends the sequence there, with nothing logged. *)
Lemma bind_silent_fail (A B : Type) (m : M A) (k : A -> M B) (e : exn) :
  silent m -> outcome m = inl e -> bind m k = ([], inl e).
Proof.
  intros Hs He. rewrite (bind_fail _ _ He). now rewrite Hs.
Qed.

Lemma rejected_bind_l (A B : Type) (m : M A) (k : A -> M B) :
  silent m -> failed m -> rejected (bind m k).
Proof.
  intros Hs [e He]. exists e. now apply bind_silent_fail.
Qed.

Lemma rejected_bind_r (A B : Type) (m : M A) (k : A -> M B) :
  silent m -> (forall a, rejected (k a)) -> rejected (bind m k).
Proof.
  intros Hs Hk. destruct (silent_cases Hs) as [[e ->] | [a ->]].
  - exists e. reflexivity.
  - rewrite bind_ret. apply Hk.
Qed.

End Validation.

(** ** Geometry validation *)

Section Geometry.
Context {P : Platform}.

(** Everything [renderImage] does before the [center] rule is silent, and
    so is the rule: a request that fails it is rejected. *)
Lemma renderImage_rejects_center (p : Params) (tilePath : option string) :
  failed (renderImage_center (p_center p)) -> rejected (renderImage p tilePath).
Proof.
  intros Hc. unfold renderImage.
  apply rejected_bind_r; [apply silent_renderImage_style | intros style].
  apply rejected_bind_l; [apply silent_renderImage_center | exact Hc].
Qed.

(** C8: a two-entry [center] passes the [center] rule exactly when both
    coordinates are finite, [|lon| <= 180] and [|lat| <= 90]; and a request
    whose [center] is outside that range is rejected before the engine is
    called. *)
Theorem center_rule_iff_in_world (raw : string + list float) (lon lat : float) :
  decode_list raw = [lon; lat] ->
  let in_world :=
    JsNum.isFinite lon = true /\ JsNum.isFinite lat = true /\
    (PrimFloat.abs lon <=? 180)%float = true /\
    (PrimFloat.abs lat <=? 90)%float = true in
  (renderImage_center (Some raw) = ret (Some [lon; lat]) <-> in_world) /\
  (~ in_world -> failed (renderImage_center (Some raw))) /\
  (~ in_world ->
   forall p tilePath, p_center p = Some raw -> rejected (renderImage p tilePath)).
Proof.
  intros Hd in_world.
  assert (Hrule : renderImage_center (Some raw) = ret (Some [lon; lat]) <-> in_world).
  { unfold in_world, renderImage_center. rewrite Hd.
    cbn [List.length Nat.eqb negb throw_if at_index nth]. rewrite bind_ret.
    destruct (JsNum.isFinite lon) eqn:Flon; cbn [negb orb].
    2: { rewrite throw_if_true, bind_throw.
         split; [discriminate | intros [H _]; discriminate]. }
    rewrite (@abs_within lon 180%float Flon eq_refl).
    destruct (PrimFloat.abs lon <=? 180)%float eqn:Llon; cbn [negb].
    2: { rewrite throw_if_true, bind_throw.
         split; [discriminate | intros (_ & _ & H & _); discriminate]. }
    rewrite throw_if_false, bind_ret.
    destruct (JsNum.isFinite lat) eqn:Flat; cbn [negb orb].
    2: { rewrite throw_if_true, bind_throw.
         split; [discriminate | intros (_ & H & _); discriminate]. }
    rewrite (@abs_within lat 90%float Flat eq_refl).
    destruct (PrimFloat.abs lat <=? 90)%float eqn:Llat; cbn [negb].
    2: { rewrite throw_if_true, bind_throw.
         split; [discriminate | intros (_ & _ & _ & H); discriminate]. }
    rewrite throw_if_false, bind_ret. split; [intros _ | reflexivity].
    repeat split; reflexivity. }
  assert (Hfail : ~ in_world -> failed (renderImage_center (Some raw))).
  { intros Hn.
    destruct (silent_cases (silent_renderImage_center (Some raw))) as [[e He] | [a Ha]].
    - exists e. rewrite He. reflexivity.
    - exfalso. apply Hn, Hrule. rewrite Ha. f_equal.
      revert Ha. unfold renderImage_center. rewrite Hd.
      cbn [List.length Nat.eqb negb throw_if at_index nth]. rewrite bind_ret.
      repeat match goal with
             | |- context [throw_if ?c ?e] =>
                 destruct c; [rewrite throw_if_true, bind_throw; discriminate
                             | rewrite throw_if_false, bind_ret]
             end.
      intros H. injection H as <-. reflexivity. }
  split; [exact Hrule | split; [exact Hfail |]].
  intros Hn p tilePath Hp. apply renderImage_rejects_center.
  rewrite Hp. now apply Hfail.
Qed.

(** Everything [renderImage] does before the [bounds] rule is silent, and
    so is the rule. *)
Lemma renderImage_rejects_bounds (p : Params) (tilePath : option string) :
  failed (renderImage_bounds (p_bounds p)) -> rejected (renderImage p tilePath).
Proof.
  intros Hb. unfold renderImage.
  apply rejected_bind_r; [apply silent_renderImage_style | intros style].
  apply rejected_bind_r; [apply silent_renderImage_center | intros center].
  apply rejected_bind_r; [apply silent_renderImage_zoom | intros zoom].
  apply rejected_bind_r; [apply silent_renderImage_ratio | intros _].
  apply rejected_bind_l; [apply silent_renderImage_bounds | exact Hb].
Qed.

(** C7: a four-entry [bounds] fails the [bounds] rule exactly when west
    equals east, or south equals north, or one of the four coordinates is
    not finite; such a request is rejected before the engine is called, and
    any other four-entry [bounds] passes the rule unchanged. *)
Theorem bounds_rule_fails_iff_degenerate
        (raw : string + list float) (w s e n : float) :
  decode_list raw = [w; s; e; n] ->
  let degenerate :=
    PrimFloat.eqb w e = true \/ PrimFloat.eqb s n = true \/
    JsNum.isFinite w = false \/ JsNum.isFinite s = false \/
    JsNum.isFinite e = false \/ JsNum.isFinite n = false in
  (failed (renderImage_bounds (Some raw)) <-> degenerate) /\
  (~ degenerate -> renderImage_bounds (Some raw) = ret (Some [w; s; e; n])) /\
  (degenerate ->
   forall p tilePath, p_bounds p = Some raw -> rejected (renderImage p tilePath)).
Proof.
  intros Hd degenerate.
  assert (Hrule : (failed (renderImage_bounds (Some raw)) <-> degenerate) /\
                  (~ degenerate ->
                   renderImage_bounds (Some raw) = ret (Some [w; s; e; n]))).
  { unfold degenerate, failed, renderImage_bounds. rewrite Hd.
    cbn [List.length Nat.eqb negb throw_if at_index nth existsb]. rewrite bind_ret.
    destruct (JsNum.isFinite w), (JsNum.isFinite s), (JsNum.isFinite e),
      (JsNum.isFinite n), (PrimFloat.eqb w e), (PrimFloat.eqb s n);
      cbn [negb orb throw_if]; rewrite ?bind_ret, ?bind_throw;
      (split; [split; [intros [x Hx]; first [discriminate Hx | tauto]
                      | intros Hdeg; first [eexists; reflexivity
                                           | exfalso; intuition discriminate]]
              | intros Hn; first [reflexivity | exfalso; apply Hn; tauto]]). }
  destruct Hrule as [Hiff Hpass].
  split; [exact Hiff | split; [exact Hpass |]].
  intros Hdeg p tilePath Hp. apply renderImage_rejects_bounds.
  rewrite Hp. now apply Hiff.
Qed.

End Geometry.

(** ** The cross-field rule *)

Ltac silent_step H :=
  let e := fresh "e" in
  let a := fresh "a" in
  destruct (silent_cases H) as [[e ->] | [a ->]];
  [rewrite bind_throw; eexists; reflexivity | rewrite bind_ret].

Section CrossField.
Context {P : Platform}.

(** Without [bounds], the [bounds] and [padding] rules pass. *)
Lemma renderImage_bounds_absent : renderImage_bounds None = ret None.
Proof. reflexivity. Qed.

(** C3 (as amended): a request without [bounds] and without [center] or
    without [zoom] is rejected before the engine is called; the error is
    the one of the cross-field rule whenever the rules before it ([style],
    [center], [zoom], [ratio], [bearing], [pitch]) pass, and the one of the
    first of those that fails otherwise. *)
Theorem missing_viewport_rejected (p : Params) (tilePath : option string) :
  p_bounds p = None ->
  p_center p = None \/ p_zoom p = None ->
  rejected (renderImage p tilePath) /\
  renderImage p tilePath =
    ([], inl (match first_error (rules_before_viewport p) with
              | Some e => e
              | None => ErrCenterZoomOrBounds
              end)) /\
  (forall style center zoom,
     renderImage_style (p_style p) = ret style ->
     renderImage_center (p_center p) = ret center ->
     renderImage_zoom (p_zoom p) = ret zoom ->
     renderImage_ratio (p_ratio p) = ret tt ->
     renderImage_bearing (p_bearing p) = ret tt ->
     renderImage_pitch (p_pitch p) = ret tt ->
     renderImage p tilePath = ([], inl ErrCenterZoomOrBounds)).
Proof.
  intros Hb Hcz.
  assert (Hcross : forall center zoom,
             renderImage_center (p_center p) = ret center ->
             renderImage_zoom (p_zoom p) = ret zoom ->
             renderImage_viewport center zoom None = throw ErrCenterZoomOrBounds).
  { intros center zoom Hc Hz. destruct Hcz as [E | E]; rewrite E in *.
    - injection Hc as <-. reflexivity.
    - injection Hz as <-. destruct center; reflexivity. }
  assert (Hfirst : renderImage p tilePath =
                   ([], inl (match first_error (rules_before_viewport p) with
                             | Some e => e
                             | None => ErrCenterZoomOrBounds
                             end))).
  { unfold renderImage, rules_before_viewport.
    rewrite Hb, renderImage_bounds_absent.
    destruct (silent_cases (silent_renderImage_style (p_style p)))
      as [[e He] | [style Hs]]; rewrite ?He, ?Hs;
      [rewrite bind_throw; reflexivity | rewrite bind_ret].
    destruct (silent_cases (silent_renderImage_center (p_center p)))
      as [[e He] | [center Hc]]; rewrite ?He, ?Hc;
      [rewrite bind_throw; reflexivity | rewrite bind_ret].
    destruct (silent_cases (silent_renderImage_zoom (p_zoom p)))
      as [[e He] | [zoom Hz]]; rewrite ?He, ?Hz;
      [rewrite bind_throw; reflexivity | rewrite bind_ret].
    destruct (silent_cases (silent_renderImage_ratio (p_ratio p)))
      as [[e He] | [[] Hr]]; rewrite ?He, ?Hr;
      [rewrite bind_throw; reflexivity | rewrite bind_ret].
    rewrite !bind_ret. cbn [renderImage_padding]. rewrite bind_ret.
    destruct (silent_cases (silent_renderImage_bearing (p_bearing p)))
      as [[e He] | [[] Hbe]]; rewrite ?He, ?Hbe;
      [rewrite bind_throw; reflexivity | rewrite bind_ret].
    destruct (silent_cases (silent_renderImage_pitch (p_pitch p)))
      as [[e He] | [[] Hpi]]; rewrite ?He, ?Hpi;
      [rewrite bind_throw; reflexivity | rewrite bind_ret].
    rewrite (Hcross _ _ Hc Hz), bind_throw. reflexivity. }
  split; [rewrite Hfirst; eexists; reflexivity |].
  split; [exact Hfirst |].
  intros style center zoom Hs Hc Hz Hr Hbe Hpi. unfold renderImage.
  rewrite Hb, renderImage_bounds_absent, Hs, Hc, Hz, Hr, Hbe, Hpi.
  rewrite !bind_ret. cbn [renderImage_padding]. rewrite !bind_ret.
  rewrite (Hcross _ _ Hc Hz). reflexivity.
Qed.

End CrossField.

(** ** Resource fetches *)

Section Fetching.
Context {P : Platform}.

(** An asset fetch never answers [null]. *)
Lemma getRemoteAsset_never_null (url : string) : getRemoteAsset url <> CallbackData None.
Proof.
  unfold getRemoteAsset. destruct (fetch url) as [res |]; [| discriminate].
  destruct (assetResponse url res); discriminate.
Qed.

(** The handler sends tiles to the tile fetch and every other kind it
    knows to the asset fetch. *)
Lemma requestHandler_dispatch (url : string) :
  isMapboxURL url = false ->
  requestHandler url 3 = getRemoteTile url /\
  (forall kind, In kind [2; 4; 5; 6; 7] -> requestHandler url kind = getRemoteAsset url).
Proof.
  intros Hm. unfold requestHandler. rewrite Hm. split; [reflexivity |].
  intros kind Hin. simpl in Hin.
  repeat (destruct Hin as [<- | Hin]; [reflexivity |]). contradiction.
Qed.

(** C6: a tile fetch answered with status 204 or 404 calls back with no
    error and [null] data, and with any other status outside 200..299 it
    calls back with an error; an asset fetch (source, glyph, sprite image,
    sprite JSON, image source) answered with any status outside 200..299
    calls back with an error, and never with [null] data. *)
Theorem fetch_status_policy (url : string) (res : Response) :
  fetch url = Some res ->
  (status res = 204 \/ status res = 404 -> getRemoteTile url = CallbackData None) /\
  (~ 200 <= status res <= 299 -> status res <> 404 ->
   getRemoteTile url = CallbackErr (ErrRemoteTile url (status res))) /\
  (~ 200 <= status res <= 299 ->
   getRemoteAsset url = CallbackErr (ErrRemoteAsset url (status res))) /\
  getRemoteAsset url <> CallbackData None /\
  (isMapboxURL url = false ->
   requestHandler url 3 = getRemoteTile url /\
   forall kind, In kind [2; 4; 5; 6; 7] -> requestHandler url kind = getRemoteAsset url).
Proof.
  intros Hf.
  assert (Hok : ~ 200 <= status res <= 299 -> ok res = false).
  { intros Hn. unfold ok. destruct (200 <=? status res) eqn:E1; [| reflexivity].
    destruct (status res <=? 299) eqn:E2; [| reflexivity].
    exfalso. apply Hn. split; [apply Z.leb_le, E1 | apply Z.leb_le, E2]. }
  repeat split.
  - intros [H | H]; unfold getRemoteTile, tileResponse; rewrite Hf, H; reflexivity.
  - intros Hn H404. unfold getRemoteTile, tileResponse. rewrite Hf.
    destruct (status res =? 204) eqn:E204.
    { exfalso. apply Hn. apply Z.eqb_eq in E204. lia. }
    destruct (status res =? 404) eqn:E404.
    { apply Z.eqb_eq in E404. contradiction. }
    rewrite (Hok Hn). reflexivity.
  - intros Hn. unfold getRemoteAsset, assetResponse. rewrite Hf, (Hok Hn). reflexivity.
  - apply getRemoteAsset_never_null.
  - now apply requestHandler_dispatch.
  - now apply requestHandler_dispatch.
Qed.

End Fetching.

(** ** The pixel conversion *)

Section Pixels.
Context {P : Platform}.

Lemma nth_error_past (done l : list Z) (k : nat) :
  nth_error (done ++ l) (List.length done + k) = nth_error l k.
Proof. induction done as [| d done IH]; simpl; [reflexivity | exact IH]. Qed.

Lemma buffer_set_past (done l : list Z) (k : nat) (v : Z) :
  buffer_set (List.length done + k) v (done ++ l) = done ++ buffer_set k v l.
Proof.
  induction done as [| d done IH]; simpl; [reflexivity |]. now rewrite IH.
Qed.

Lemma buffer_get_past (done l : list Z) (k : nat) :
  buffer_get (done ++ l) (List.length done + k) = buffer_get l k.
Proof. unfold buffer_get. now rewrite nth_error_past. Qed.

Lemma buffer_set_here (done l : list Z) (v : Z) :
  buffer_set (List.length done) v (done ++ l) = done ++ buffer_set 0 v l.
Proof. rewrite <- (Nat.add_0_r (List.length done)) at 1. apply buffer_set_past. Qed.

Lemma buffer_get_here (done l : list Z) :
  buffer_get (done ++ l) (List.length done) = buffer_get l 0.
Proof. rewrite <- (Nat.add_0_r (List.length done)) at 1. apply buffer_get_past. Qed.

(** One round of the loop rewrites the pixel at [i] and nothing else. *)
Lemma unpremultiply_at_pixel (done : list Z) (r g b a : Z) (rest : list Z) :
  unpremultiply_at (List.length done) (done ++ r :: g :: b :: a :: rest)
  = done ++ unpremultiplied_channel r a :: unpremultiplied_channel g a
      :: unpremultiplied_channel b a :: a :: rest.
Proof.
  unfold unpremultiply_at, unpremultiplied_channel.
  rewrite nth_error_past. cbn [nth_error].
  destruct (a =? 0).
  - rewrite buffer_set_here. cbn [buffer_set].
    rewrite buffer_set_past. cbn [buffer_set].
    rewrite buffer_set_past. reflexivity.
  - rewrite buffer_get_here, buffer_set_here. cbn [buffer_set].
    rewrite buffer_get_past, buffer_set_past. cbn [buffer_set].
    rewrite buffer_get_past, buffer_set_past. reflexivity.
Qed.

Lemma length_mod4_cases (l : list Z) :
  (List.length l mod 4 = 0)%nat ->
  l = [] \/
  exists r g b a rest,
    l = r :: g :: b :: a :: rest /\ (List.length rest mod 4 = 0)%nat.
Proof.
  destruct l as [| r [| g [| b [| a rest]]]]; cbn [List.length]; intros H;
    try (left; reflexivity); try discriminate H.
  right. exists r, g, b, a, rest. split; [reflexivity |].
  replace (S (S (S (S (List.length rest))))) with (List.length rest + 1 * 4)%nat in H by lia.
  now rewrite Nat.Div0.mod_add in H.
Qed.

(** The loop, started at the end of the part already converted, converts
    the rest when it is given enough rounds. *)
Lemma unpremultiply_from_spec (fuel : nat) (done todo : list Z) :
  (List.length todo mod 4 = 0)%nat ->
  (List.length todo <= 4 * fuel)%nat ->
  unpremultiply_from fuel (List.length done) (done ++ todo)
  = done ++ unpremultiplied todo.
Proof.
  revert done todo. induction fuel as [| fuel IH]; intros done todo Hmod Hfuel.
  - destruct todo; [reflexivity | simpl in Hfuel; lia].
  - destruct (length_mod4_cases todo Hmod) as [-> | (r & g & b & a & rest & -> & Hrest)].
    + cbn [unpremultiply_from unpremultiplied]. rewrite !app_nil_r, Nat.ltb_irrefl.
      reflexivity.
    + cbn [unpremultiply_from unpremultiplied].
      replace (List.length done <? List.length (done ++ r :: g :: b :: a :: rest))%nat
        with true
        by (symmetry; apply Nat.ltb_lt; rewrite length_app; simpl; lia).
      rewrite unpremultiply_at_pixel.
      set (px := [unpremultiplied_channel r a; unpremultiplied_channel g a;
                  unpremultiplied_channel b a; a]).
      change (done ++ unpremultiplied_channel r a :: unpremultiplied_channel g a
                :: unpremultiplied_channel b a :: a :: rest)
        with (done ++ px ++ rest).
      change (done ++ unpremultiplied_channel r a :: unpremultiplied_channel g a
                :: unpremultiplied_channel b a :: a :: unpremultiplied rest)
        with (done ++ px ++ unpremultiplied rest).
      rewrite !app_assoc.
      replace (List.length done + 4)%nat with (List.length (done ++ px))
        by (rewrite length_app; reflexivity).
      apply IH; [exact Hrest | simpl in Hfuel; lia].
Qed.

(** The loop of [toPNG] terminates within its bound and leaves the
    pixel-by-pixel conversion. *)
Lemma unpremultiply_spec (buffer : list Z) :
  (List.length buffer mod 4 = 0)%nat -> unpremultiply buffer = unpremultiplied buffer.
Proof.
  intros Hmod. unfold unpremultiply.
  apply (unpremultiply_from_spec (List.length buffer) [] buffer Hmod). lia.
Qed.

Lemma length_unpremultiplied (fuel : nat) (buffer : list Z) :
  (List.length buffer <= fuel)%nat ->
  List.length (unpremultiplied buffer) = List.length buffer.
Proof.
  revert buffer. induction fuel as [| fuel IH]; intros buffer Hf.
  - destruct buffer; [reflexivity | simpl in Hf; lia].
  - destruct buffer as [| r [| g [| b [| a rest]]]]; try reflexivity.
    cbn [unpremultiplied List.length]. rewrite IH; [reflexivity |].
    simpl in Hf. lia.
Qed.

Lemma ToUint8_is_u8 (x : float) : is_u8 (JsNum.ToUint8 x).
Proof. unfold is_u8, JsNum.ToUint8. apply Z.mod_pos_bound. lia. Qed.

Lemma unpremultiplied_channel_is_u8 (c a : Z) : is_u8 (unpremultiplied_channel c a).
Proof.
  unfold unpremultiplied_channel. destruct (a =? 0); [unfold is_u8; lia |].
  apply ToUint8_is_u8.
Qed.

Lemma unpremultiplied_is_u8 (fuel : nat) (buffer : list Z) :
  (List.length buffer <= fuel)%nat ->
  Forall is_u8 buffer -> Forall is_u8 (unpremultiplied buffer).
Proof.
  revert buffer. induction fuel as [| fuel IH]; intros buffer Hf Hall.
  - destruct buffer; [constructor | simpl in Hf; lia].
  - destruct buffer as [| r [| g [| b [| a rest]]]]; try exact Hall.
    cbn [unpremultiplied].
    inversion Hall as [| ? ? _ H1]; subst. inversion H1 as [| ? ? _ H2]; subst.
    inversion H2 as [| ? ? _ H3]; subst. inversion H3 as [| ? ? Ha H4]; subst.
    repeat (constructor; [apply unpremultiplied_channel_is_u8 |]).
    constructor; [exact Ha |]. apply IH; [simpl in Hf; lia | exact H4].
Qed.

(** Pixel [k] of the converted buffer. *)
Lemma unpremultiplied_pixel (k : nat) (buffer : list Z) :
  (List.length buffer mod 4 = 0)%nat ->
  (4 * k < List.length buffer)%nat ->
  nth (4 * k + 3) (unpremultiplied buffer) 0 = nth (4 * k + 3) buffer 0 /\
  forall c, (c < 3)%nat ->
    nth (4 * k + c) (unpremultiplied buffer) 0
    = unpremultiplied_channel (nth (4 * k + c) buffer 0) (nth (4 * k + 3) buffer 0).
Proof.
  revert buffer. induction k as [| k IH]; intros buffer Hmod Hk.
  - destruct (length_mod4_cases buffer Hmod) as [-> | (r & g & b & a & rest & -> & _)];
      [simpl in Hk; lia |].
    split; [reflexivity |]. intros c Hc.
    destruct c as [| [| [| c]]]; [reflexivity | reflexivity | reflexivity | lia].
  - destruct (length_mod4_cases buffer Hmod) as [-> | (r & g & b & a & rest & -> & Hrest)];
      [simpl in Hk; lia |].
    assert (Hk' : (4 * k < List.length rest)%nat) by (simpl in Hk; lia).
    destruct (IH rest Hrest Hk') as [Ha Hc].
    assert (Hshift : forall j, (4 * S k + j = S (S (S (S (4 * k + j)))))%nat) by (intros; lia).
    split.
    + rewrite Hshift. cbn [unpremultiplied nth]. exact Ha.
    + intros c Hlt. rewrite !Hshift. cbn [unpremultiplied nth]. now apply Hc.
Qed.

Lemma Math_round_rounds (x : float) : JsNum.rounds_to x (JsNum.Math_round x).
Proof.
  unfold JsNum.rounds_to, JsNum.Math_round.
  destruct (Prim2SF x) as [sz | si | | s m e]; try reflexivity.
  destruct (0 <=? e) eqn:Ee; [reflexivity |].
  apply Z.leb_gt in Ee. cbv zeta.
  exists (JsNum.round_half_up s m e). split; [| reflexivity].
  unfold JsNum.round_half_up.
  set (d := 2 ^ (- e)). set (v := if s then - Z.pos m else Z.pos m).
  assert (Hd : 0 < d) by (apply Z.pow_pos_nonneg; lia).
  pose proof (Z.mul_div_le (2 * v + d) (2 * d) ltac:(lia)) as Hle.
  pose proof (Z.mul_succ_div_gt (2 * v + d) (2 * d) ltac:(lia)) as Hgt.
  nia.
Qed.

(** X24: for a buffer of whole RGBA pixels, [toPNG] leaves every alpha byte
    as it was, sets R, G and B to 0 where alpha is 0 and otherwise to the
    byte their quotient by [alpha / 255] is stored as, keeps the length and
    the byte range, and hands that buffer to the PNG encoder, once, with
    four channels and with the dimensions [width * ratio] and
    [height * ratio] rounded to the nearest integer, a half going up. *)
Theorem toPNG_unpremultiplies
        (buffer : list Z) (width height : float) (ratio : option reqnum) :
  (List.length buffer mod 4 = 0)%nat ->
  Forall is_u8 buffer ->
  let out := unpremultiply buffer in
  let raw := {| raw_data := out;
                raw_width := JsNum.Math_round (width * ToNumber_nullable ratio)%float;
                raw_height := JsNum.Math_round (height * ToNumber_nullable ratio)%float;
                raw_channels := 4 |} in
  List.length out = List.length buffer /\
  Forall is_u8 out /\
  (forall k, (4 * k < List.length buffer)%nat ->
     let alpha := nth (4 * k + 3) buffer 0 in
     nth (4 * k + 3) out 0 = alpha /\
     forall c, (c < 3)%nat ->
       let colour := nth (4 * k + c) buffer 0 in
       nth (4 * k + c) out 0
       = if alpha =? 0 then 0
         else JsNum.ToUint8 (JsNum.of_Z colour / (JsNum.of_Z alpha / 255))%float) /\
  log (toPNG buffer width height ratio) = [EvEncode raw] /\
  outcome (toPNG buffer width height ratio)
  = match png_encode raw with Some png => inr png | None => inl ErrEncode end /\
  JsNum.rounds_to (width * ToNumber_nullable ratio)%float (raw_width raw) /\
  JsNum.rounds_to (height * ToNumber_nullable ratio)%float (raw_height raw).
Proof.
  intros Hmod Hall out raw. subst out raw. rewrite (unpremultiply_spec _ Hmod).
  split; [now apply length_unpremultiplied with (List.length buffer) |].
  split; [now apply unpremultiplied_is_u8 with (List.length buffer) |].
  split; [intros k Hk; exact (unpremultiplied_pixel k buffer Hmod Hk) |].
  unfold toPNG. rewrite (unpremultiply_spec _ Hmod). cbn [raw_width raw_height].
  destruct (png_encode _); repeat split; try reflexivity; apply Math_round_rounds.
Qed.

End Pixels.

(** ** What [render] calls, and with what *)

Lemma In_log_bind (A B : Type) (m : M A) (k : A -> M B) (ev : event) :
  In ev (log (bind m k)) ->
  In ev (log m) \/ exists a, outcome m = inr a /\ In ev (log (k a)).
Proof.
  destruct m as [t [e | a]]; unfold bind, log; simpl; [now left |].
  destruct (k a) as [t' r] eqn:E; simpl. intros H.
  apply in_app_or in H. destruct H as [H | H]; [now left |].
  right. exists a. rewrite E. split; [reflexivity | exact H].
Qed.

Lemma In_log_try_catch_throw (A : Type) (m : M A) (h : exn -> exn) (ev : event) :
  In ev (log (try_catch m (fun e => throw (h e)))) -> In ev (log m).
Proof.
  destruct m as [t [e | a]]; unfold try_catch, log; simpl; [| tauto].
  now rewrite app_nil_r.
Qed.

Lemma In_log_mapM (A B : Type) (f : A -> M B) (l : list A) (ev : event) :
  In ev (log (mapM f l)) -> exists a, In a l /\ In ev (log (f a)).
Proof.
  induction l as [| x l IH]; simpl; [tauto |]. intros H.
  apply In_log_bind in H. destruct H as [H | (b & _ & H)].
  - exists x. split; [now left | exact H].
  - apply In_log_bind in H. destruct H as [H | (bs & _ & H)]; [| contradiction].
    destruct (IH H) as (a & Ha & Hev). exists a. split; [now right | exact Hev].
Qed.

Lemma log_bind_emit (B : Type) (ev : event) (k : unit -> M B) :
  log (bind (emit ev) k) = ev :: log (k tt).
Proof. unfold bind, emit, log. destruct (k tt); reflexivity. Qed.

Section Calls.
Context {P : Platform}.

Lemma silent_getRemoteStyleImport url token : silent (getRemoteStyleImport url token).
Proof.
  unfold getRemoteStyleImport, normalizeMapboxStyleURL, getRemoteJSON. silence.
Qed.

Lemma silent_mergeImport cs idx imp : silent (mergeImport cs idx imp).
Proof. unfold mergeImport, addSource. silence. Qed.

Lemma silent_mergeImports idx imps cs : silent (mergeImports idx imps cs).
Proof.
  revert idx cs. induction imps as [| imp imps IH]; intros idx cs; simpl.
  - apply silent_ret.
  - apply silent_bind; [apply silent_mergeImport | intros cs'; apply IH].
Qed.

Lemma silent_resolveImports style options : silent (resolveImports style options).
Proof.
  unfold resolveImports. destruct (o_imports options) as [imports |]; [| apply silent_ret].
  destruct (0 <? List.length imports)%nat; [| apply silent_ret].
  apply silent_bind; [| intros l; apply silent_mergeImports].
  apply silent_mapM. intros e.
  apply silent_bind; [apply silent_getRemoteStyleImport | intros s; apply silent_ret].
Qed.

Lemma silent_render_checks width height options :
  silent (render_checks width height options).
Proof. unfold render_checks. silence. Qed.

(** Loading icons calls [map.addImage] and nothing else. *)
Lemma log_loadImage (id : string) (image : ImageRef) (ev : event) :
  In ev (log (loadImage id image)) ->
  exists d pixelRatio sdf, ev = EvAddImage id d pixelRatio sdf.
Proof.
  unfold loadImage. intros H.
  apply In_log_bind in H. destruct H as [H | (_ & _ & H)].
  { rewrite silent_throw_if in H. contradiction. }
  apply In_log_try_catch_throw in H.
  apply In_log_bind in H. destruct H as [H | (buf & _ & H)].
  { assert (Hs : silent
        (if JsStr.startsWith "data:" (img_url image)
         then match nth_error (JsStr.split "base64," (img_url image)) 1 with
              | Some payload => ret (base64_decode payload)
              | None => throw (ErrTypeError "Buffer.from(undefined, 'base64')")
              end
         else img <- getRemoteAssetPromise (img_url image);;
              match img with
              | Some r => ret (data r)
              | None => throw (ErrCouldNotLoadImage id)
              end)).
    { unfold getRemoteAssetPromise. silence. }
    rewrite Hs in H. contradiction. }
  destruct (sharp_decode buf) as [d |]; [| contradiction].
  rewrite log_bind_emit in H. destruct H as [H | H].
  - eauto.
  - rewrite silent_throw_if in H. contradiction.
Qed.

Lemma log_loadImages (images : option (list (string * ImageRef))) (ev : event) :
  In ev (log (loadImages images)) ->
  exists id d pixelRatio sdf, ev = EvAddImage id d pixelRatio sdf.
Proof.
  unfold loadImages. destruct images as [entries |]; [| contradiction].
  intros H. apply In_log_bind in H. destruct H as [H | (_ & _ & H)]; [| contradiction].
  apply In_log_mapM in H. destruct H as (entry & _ & H).
  apply log_loadImage in H. destruct H as (d & pr & sdf & ->). eauto.
Qed.

(** The one place [render] calls [map.render] from, and its argument. *)
Lemma render_calls_renderer_with
      (style : StyleDoc) (width height : float) (options : Options) (o : RenderOptions) :
  In (EvMapRender o) (log (render (Some style) width height options)) ->
  o = {| r_zoom := fst (resolveViewport (o_bounds options) width height
                                        (ToNumber (o_padding options)) (o_zoom options)
                                        (o_center options));
         r_center := snd (resolveViewport (o_bounds options) width height
                                          (ToNumber (o_padding options)) (o_zoom options)
                                          (o_center options));
         r_height := height; r_width := width;
         r_bearing := o_bearing options; r_pitch := o_pitch options |}.
Proof.
  unfold render.
  destruct (silent_cases (silent_render_checks width height options))
    as [[e ->] | [[] ->]]; [intros []| rewrite bind_ret].
  destruct (resolveViewport _ _ _ _ _ _) as [zoom center]. cbn [fst snd].
  destruct (silent_cases (silent_resolveImports style options))
    as [[e ->] | [cs ->]]; [intros [] | rewrite bind_ret].
  destruct (MBTILES_REGEXP (JSON_stringify cs)); [intros [] |].
  rewrite throw_if_false, bind_ret, !log_bind_emit.
  intros [H | [H | H]]; [discriminate H | discriminate H |].
  apply In_log_bind in H. destruct H as [H | (_ & _ & H)].
  { apply log_loadImages in H. destruct H as (? & ? & ? & ? & H). discriminate H. }
  apply In_log_bind in H. destruct H as [H | (buffer & _ & H)].
  { unfold renderMap in H. rewrite log_bind_emit in H. destruct H as [H | H].
    - now injection H as <-.
    - destruct (map_render _ _); contradiction. }
  rewrite log_bind_emit in H. destruct H as [H | H]; [discriminate H |].
  unfold toPNG in H. rewrite log_bind_emit in H. destruct H as [H | H]; [discriminate H |].
  destruct (png_encode _); contradiction.
Qed.

(** When its checks pass, the imports resolve, the style names no local
    tile archive and the icons load, [render] does call the engine. *)
Lemma render_reaches_renderer
      (style cs : StyleDoc) (width height : float) (options : Options) :
  render_checks width height options = ret tt ->
  resolveImports style options = ret cs ->
  MBTILES_REGEXP (JSON_stringify cs) = false ->
  outcome (loadImages (o_images options)) = inr tt ->
  exists o, In (EvMapRender o) (log (render (Some style) width height options)).
Proof.
  intros Hc Hi Hm Hl. unfold render. rewrite Hc, bind_ret.
  destruct (resolveViewport _ _ _ _ _ _) as [zoom center].
  rewrite Hi, bind_ret, Hm, throw_if_false, bind_ret, !log_bind_emit.
  eexists. right. right. rewrite (log_bind_ok _ _ Hl). apply in_or_app. right.
  unfold renderMap.
  match goal with
  | |- In _ (log (bind (bind (emit ?ev) ?k1) ?k2)) =>
      destruct (outcome_cases (bind (emit ev) k1)) as [[e He] | [b Hb]];
      [rewrite (bind_fail _ _ He) | rewrite (log_bind_ok _ _ Hb); apply in_or_app; left];
      cbn [log fst]; rewrite ?log_bind_emit; left; reflexivity
  end.
Qed.

(** The two zeros are the only numbers equal to zero. *)
Lemma is_zero_cases (x : float) :
  PrimFloat.is_zero x = true -> x = PrimFloat.zero \/ x = PrimFloat.neg_zero.
Proof.
  unfold PrimFloat.is_zero. rewrite FloatAxioms.eqb_spec. intros H.
  rewrite <- (FloatAxioms.SF2Prim_Prim2SF x).
  change (Prim2SF PrimFloat.zero) with (S754_zero false) in H.
  destruct (Prim2SF x) as [s | s | | s m e]; cbn in H; try discriminate H;
    try (destruct s; discriminate H).
  destruct s; [right | left]; reflexivity.
Qed.

(** [Math.max(x, 0)], case by case. *)
Lemma Math_max_0_cases (x : float) :
  ((0 <? x)%float = true -> JsNum.Math_max x 0 = x) /\
  ((x <? 0)%float = true -> JsNum.Math_max x 0 = 0%float) /\
  (PrimFloat.is_zero x = true -> JsNum.Math_max x 0 = 0%float) /\
  (PrimFloat.is_nan x = true -> JsNum.Math_max x 0 = PrimFloat.nan).
Proof.
  unfold JsNum.Math_max. change (PrimFloat.is_nan 0) with false.
  split; [| split; [| split]]; intros H.
  - destruct (@ltb_not_nan _ _ H) as [_ Hn]. rewrite Hn, (@ltb_asym _ _ H), H. reflexivity.
  - destruct (@ltb_not_nan _ _ H) as [Hn _]. rewrite Hn, H. reflexivity.
  - destruct (@is_zero_cases x H) as [-> | ->]; reflexivity.
  - rewrite H. reflexivity.
Qed.

(** C5: whenever [render] calls the engine, then, if [bounds] is supplied
    and [zoom] or [center] is missing, the zoom it passes is the zoom of
    the fit of [bounds] into [width - 2 * padding] by [height - 2 * padding]
    minus 1 when that is above 0, and 0 when it is below 0 or a zero, and
    the center is the center of the fit; and if both [zoom] and [center]
    are supplied, they are passed as they are. *)
Theorem render_viewport_passed
        (style : StyleDoc) (width height : float) (options : Options) (o : RenderOptions) :
  In (EvMapRender o) (log (render (Some style) width height options)) ->
  (forall bounds,
     o_bounds options = Some bounds ->
     o_zoom options = None \/ o_center options = None ->
     let fit := viewport bounds (width - 2 * ToNumber (o_padding options))%float
                         (height - 2 * ToNumber (o_padding options))%float in
     let pulled := (vp_zoom fit - 1)%float in
     r_zoom o = Some (JsNum.Math_max pulled 0%float) /\
     r_center o = Some (vp_center fit) /\
     ((0 <? pulled)%float = true -> r_zoom o = Some pulled) /\
     ((pulled <? 0)%float = true -> r_zoom o = Some 0%float) /\
     (PrimFloat.is_zero pulled = true -> r_zoom o = Some 0%float) /\
     (PrimFloat.is_nan pulled = true -> r_zoom o = Some PrimFloat.nan)) /\
  (forall zoom center,
     o_zoom options = Some zoom -> o_center options = Some center ->
     r_zoom o = Some zoom /\ r_center o = Some center).
Proof.
  intros H. apply render_calls_renderer_with in H. subst o. cbn [r_zoom r_center].
  split.
  - intros bounds Hb Hmissing. cbv zeta. unfold resolveViewport. rewrite Hb.
    assert (Hn : is_null (o_zoom options) || is_null (o_center options) = true).
    { destruct Hmissing as [-> | ->]; [reflexivity | apply orb_true_r]. }
    rewrite Hn. cbn [fst snd].
    match goal with
    | |- Some (JsNum.Math_max ?x _) = _ /\ _ =>
        destruct (Math_max_0_cases x) as (Hpos & Hneg & Hzero & Hnan)
    end.
    repeat split; intros E; f_equal; auto.
  - intros zoom center Hz Hc. unfold resolveViewport. rewrite Hz, Hc.
    destruct (o_bounds options); split; reflexivity.
Qed.

End Calls.

(** ** Local tile archives *)

Lemma lazy_run_reaches_slash (name post : string) :
  JsStr.no_space name = true -> lazy_run (name ++ "/" ++ post)%string = true.
Proof.
  induction name as [| c name IH]; simpl; [reflexivity |].
  intros H. apply andb_prop in H. destruct H as [Hc Hn].
  destruct (is_slash_or_quote c); [reflexivity |].
  apply negb_true_iff in Hc. rewrite Hc. now apply IH.
Qed.

Lemma MBTILES_REGEXP_later (before text : string) :
  mbtiles_here text = true -> MBTILES_REGEXP (before ++ text)%string = true.
Proof.
  intros H. induction before as [| c before IH]; simpl.
  - destruct text as [| a text]; [discriminate H |].
    change (MBTILES_REGEXP (String a text))
      with (mbtiles_here (String a text) || MBTILES_REGEXP text).
    now rewrite H.
  - rewrite IH. apply orb_true_r.
Qed.

(** The pattern finds every [mbtiles://name/...] whose [name] is not empty
    and has no white space, wherever it stands in the text. *)
Lemma MBTILES_REGEXP_finds (before name after : string) :
  name <> EmptyString -> JsStr.no_space name = true ->
  MBTILES_REGEXP (before ++ "mbtiles://" ++ name ++ "/" ++ after)%string = true.
Proof.
  intros Hne Hns. apply MBTILES_REGEXP_later.
  destruct name as [| c name]; [contradiction |].
  simpl in Hns. apply andb_prop in Hns. destruct Hns as [Hc Hn].
  unfold mbtiles_here. cbn. rewrite Hc. cbn. now apply lazy_run_reaches_slash.
Qed.

Section LocalTiles.
Context {P : Platform}.

(** C9: when the imports are fetched and merged and the serialization of
    the merged style matches the [mbtiles://] pattern, [render] fails before
    it calls the engine, whatever [tilePath] is; the error is the
    local-mbtiles one as soon as the checks [render] makes first pass. *)
Theorem local_tiles_rejected
        (style correctedStyle : StyleDoc) (width height : float) (options : Options) :
  resolveImports style options = ret correctedStyle ->
  MBTILES_REGEXP (JSON_stringify correctedStyle) = true ->
  forall tilePath,
    rejected (render (Some style) width height (with_tilePath tilePath options)) /\
    (render_checks width height options = ret tt ->
     render (Some style) width height (with_tilePath tilePath options)
     = ([], inl ErrLocalMbtiles)).
Proof.
  intros Himports Hmatch tilePath. unfold render.
  change (render_checks width height (with_tilePath tilePath options))
    with (render_checks width height options).
  change (resolveImports style (with_tilePath tilePath options))
    with (resolveImports style options).
  destruct (silent_cases (silent_render_checks width height options))
    as [[e ->] | [[] ->]].
  - rewrite bind_throw. split; [exists e; reflexivity | discriminate].
  - rewrite bind_ret. destruct (resolveViewport _ _ _ _ _ _) as [zoom center].
    rewrite Himports, bind_ret, Hmatch.
    split; [exists ErrLocalMbtiles; reflexivity | reflexivity].
Qed.

End LocalTiles.

(** ** Icons *)

Lemma append_empty_r (s : string) : (s ++ EmptyString)%string = s.
Proof. induction s as [| c s IH]; simpl; [reflexivity | now rewrite IH]. Qed.

Lemma append_snoc (a : string) (c : ascii) (s : string) :
  ((a ++ String c EmptyString) ++ s)%string = (a ++ String c s)%string.
Proof. induction a as [| x a IH]; simpl; [reflexivity | now rewrite IH]. Qed.

(** Without the separator in it, a text splits into itself alone. *)
Lemma split_go_without (sep acc s : string) :
  JsStr.includes sep s = false -> JsStr.split_go sep 0 acc s = [(acc ++ s)%string].
Proof.
  revert acc. induction s as [| c s IH]; intros acc H.
  - simpl. now rewrite append_empty_r.
  - cbn [JsStr.includes] in H. apply orb_false_iff in H. destruct H as [Hp Hi].
    cbn [JsStr.split_go]. rewrite Hp, (IH _ Hi), append_snoc. reflexivity.
Qed.

Lemma split_without (sep s : string) :
  JsStr.includes sep s = false -> JsStr.split sep s = [s].
Proof. intros H. unfold JsStr.split. now rewrite (@split_go_without sep EmptyString s H). Qed.

Lemma startsWith_data_truthy (url : string) :
  JsStr.startsWith "data:" url = true -> JsStr.truthy url = true.
Proof. destruct url; [discriminate | reflexivity]. Qed.

Ltac fail_or_continue :=
  match goal with
  | |- failed (bind ?m _) =>
      let e := fresh "e" in
      let a := fresh "a" in
      let H := fresh "H" in
      destruct (outcome_cases m) as [[e H] | [a H]];
      [apply failed_bind_l; exists e; exact H | apply (failed_bind_r _ _ H)]
  end.

Section Icons.
Context {P : Platform}.

(** What the [images] rule hands on when it passes. *)
Lemma renderImage_images_passes entries images :
  outcome (renderImage_images (Some (inr entries))) = inr images ->
  images = Some entries.
Proof.
  unfold renderImage_images. rewrite bind_ret.
  match goal with |- context [mapM ?f ?l] => destruct (outcome_cases (mapM f l)) as [[e H] | [a H]] end.
  - rewrite (bind_fail _ _ H). discriminate.
  - rewrite (outcome_bind_ok _ _ H). simpl. now intros [= <-].
Qed.

Lemma render_fails_on_icon (id : string) (image : ImageRef) :
  failed (loadImage id image) ->
  forall style width height options entries,
    o_images options = Some entries -> In (id, image) entries ->
    failed (render style width height options).
Proof.
  intros Hload style width height options entries Himages Hin.
  destruct style as [style |]; [| exists ErrStyleRequired; reflexivity].
  unfold render. fail_or_continue.
  destruct (resolveViewport _ _ _ _ _ _) as [zoom center].
  fail_or_continue. fail_or_continue. fail_or_continue. fail_or_continue.
  apply failed_bind_l. rewrite Himages. unfold loadImages.
  apply failed_bind_l. apply failed_mapM with (id, image); assumption.
Qed.

(** C10: an icon whose [url] starts with [data:] and has no [base64,] in
    it makes [loadImage] throw (the split has no second piece to decode),
    and every [render] or [renderImage] request with such an icon among its
    images fails. *)
Theorem data_url_without_base64_fails (id : string) (image : ImageRef) :
  JsStr.startsWith "data:" (img_url image) = true ->
  JsStr.includes "base64," (img_url image) = false ->
  loadImage id image
  = throw (ErrLoadingIcon id (ErrTypeError "Buffer.from(undefined, 'base64')")) /\
  (forall style width height options entries,
     o_images options = Some entries -> In (id, image) entries ->
     failed (render style width height options)) /\
  (forall p tilePath entries,
     p_images p = Some (inr entries) -> In (id, image) entries ->
     failed (renderImage p tilePath)).
Proof.
  intros Hdata Hbase.
  assert (Hload : loadImage id image
                  = throw (ErrLoadingIcon id
                                          (ErrTypeError "Buffer.from(undefined, 'base64')"))).
  { unfold loadImage.
    rewrite (@startsWith_data_truthy _ Hdata), Hdata, (@split_without _ _ Hbase).
    reflexivity. }
  assert (Hfailed : failed (loadImage id image)).
  { rewrite Hload. eexists; reflexivity. }
  split; [exact Hload | split].
  - now apply render_fails_on_icon.
  - intros p tilePath entries Himages Hin. unfold renderImage.
    do 9 fail_or_continue.
    rewrite Himages. fail_or_continue.
    match goal with
    | H : outcome (renderImage_images _) = inr _ |- _ =>
        apply renderImage_images_passes in H; subst
    end.
    fail_or_continue. apply failed_try_catch_throw.
    eapply render_fails_on_icon; [exact Hfailed | reflexivity | exact Hin].
Qed.

End Icons.

(** ** Merging imported styles *)

Lemma get_set_same (V : Type) (k : string) (v : V) (o : list (string * V)) :
  JsObj.get k (JsObj.set k v o) = Some v.
Proof.
  induction o as [| [k' v'] o IH]; simpl.
  - now rewrite String.eqb_refl.
  - destruct (String.eqb k k') eqn:E; simpl; rewrite ?String.eqb_refl, ?E; auto.
Qed.

Lemma get_set_other (V : Type) (k k' : string) (v : V) (o : list (string * V)) :
  k <> k' -> JsObj.get k (JsObj.set k' v o) = JsObj.get k o.
Proof.
  intros Hne. apply String.eqb_neq in Hne.
  induction o as [| [k'' v''] o IH]; simpl.
  - now rewrite Hne.
  - destruct (String.eqb k' k'') eqn:E; simpl.
    + apply String.eqb_eq in E. subst k''. now rewrite Hne.
    + destruct (String.eqb k k''); auto.
Qed.

Section Merging.
Context {P : Platform}.

Lemma silent_addSource importId imported cs key :
  silent (addSource importId imported cs key).
Proof. unfold addSource. silence. Qed.

(** One source added: the other fields stay, and so does every source
    under another name. *)
Lemma addSource_ok (importId : string) (imported : list (string * jsval))
      (cs cs' : StyleDoc) (key : string) :
  addSource importId imported cs key = ret cs' ->
  layers cs' = layers cs /\ fog cs' = fog cs /\
  glyphs cs' = glyphs cs /\ sprite cs' = sprite cs /\ version cs' = version cs /\
  (forall name, name <> rewriteSource importId key ->
                source_at cs' name = source_at cs name) /\
  (forall v, JsObj.get key imported = Some v ->
             source_at cs' (rewriteSource importId key) = Some v).
Proof.
  unfold addSource. destruct (sources cs) as [base |] eqn:Eb; [| discriminate].
  destruct (JsObj.get key imported) as [v |] eqn:Ev; intros [= <-].
  - repeat split; try reflexivity.
    + intros name Hne. unfold source_at. cbn [sources set_sources]. rewrite Eb.
      now apply get_set_other.
    + intros v' [= <-]. unfold source_at. cbn [sources set_sources].
      apply get_set_same.
  - repeat split; try reflexivity. intros v' Hv'. discriminate Hv'.
Qed.

(** All the sources of one import added. *)
Lemma addSources_ok (importId : string) (imported : list (string * jsval))
      (keys : list string) (cs cs' : StyleDoc) :
  foldM (addSource importId imported) keys cs = ret cs' ->
  layers cs' = layers cs /\ fog cs' = fog cs /\
  glyphs cs' = glyphs cs /\ sprite cs' = sprite cs /\ version cs' = version cs /\
  (forall name, ~ In name (map (rewriteSource importId) keys) ->
                source_at cs' name = source_at cs name).
Proof.
  revert cs. induction keys as [| key keys IH]; intros cs; cbn [foldM].
  - intros [= <-]. repeat split; reflexivity.
  - destruct (silent_cases (silent_addSource importId imported cs key))
      as [[e E1] | [cs1 E1]]; rewrite E1.
    + rewrite bind_throw. discriminate.
    + rewrite bind_ret. intros Hrest.
      destruct (IH _ Hrest) as (Hl & Hf & Hg & Hs & Hv & Hsrc).
      destruct (addSource_ok _ _ _ _ E1) as (Hl1 & Hf1 & Hg1 & Hs1 & Hv1 & Hsrc1 & _).
      repeat split; try congruence.
      intros name Hn. cbn [map In] in Hn.
      rewrite Hsrc by tauto. apply Hsrc1. intros ->. tauto.
Qed.

Lemma silent_addSources importId imported keys cs :
  silent (foldM (addSource importId imported) keys cs).
Proof. apply silent_foldM. intros. apply silent_addSource. Qed.

(** One import merged: sources under other names stay, and its rewritten
    layers go in front of the layers there were. *)
Lemma mergeImport_ok (cs cs' : StyleDoc) (idx : nat) (imp : ImportedStyle) :
  mergeImport cs idx imp = ret cs' ->
  (forall name, ~ In name (importedNames idx imp) ->
                source_at cs' name = source_at cs name) /\
  (exists baseLayers,
      layers cs = Some baseLayers /\
      layers cs' = Some (rewrittenLayers idx imp ++ baseLayers)).
Proof.
  unfold mergeImport, importedNames, rewrittenLayers.
  destruct (sources (is_style imp)) as [imported |]; [| discriminate].
  rewrite bind_ret.
  destruct (silent_cases (silent_addSources (importIdOf (is_id imp) idx) imported
                                            (JsObj.keys imported) cs))
    as [[e E1] | [cs1 E1]]; rewrite E1; [discriminate |].
  rewrite bind_ret.
  destruct (addSources_ok _ _ _ _ E1) as (Hl & _ & _ & _ & _ & Hsrc).
  destruct (layers (is_style imp)) as [importedLayers |]; [| discriminate].
  rewrite bind_ret.
  destruct (layers cs1) as [baseLayers |] eqn:El; [| discriminate].
  rewrite bind_ret. intros [= <-]. split.
  - intros name Hn. rewrite <- (Hsrc name Hn). unfold source_at.
    repeat match goal with |- context [if ?c then _ else _] => destruct c end;
      reflexivity.
  - exists baseLayers. split; [congruence |].
    repeat match goal with |- context [if ?c then _ else _] => destruct c end;
      reflexivity.
Qed.

(** Merging leaves alone every source name that no import stores under. *)
Lemma mergeImports_keeps_sources
        (importedStyles : list ImportedStyle) (idx : nat)
        (base merged : StyleDoc) (name : string) :
  mergeImports idx importedStyles base = ret merged ->
  ~ contested idx importedStyles name ->
  source_at merged name = source_at base name.
Proof.
  revert idx base. induction importedStyles as [| imp rest IH]; intros idx base.
  - cbn [mergeImports]. intros [= <-] _. reflexivity.
  - cbn [mergeImports contested].
    destruct (silent_cases (silent_mergeImport base idx imp))
      as [[e E1] | [cs1 E1]]; rewrite E1; [discriminate |].
    rewrite bind_ret. intros Hrest Hn.
    rewrite (IH _ _ Hrest) by tauto.
    apply (mergeImport_ok _ _ _ E1). tauto.
Qed.

(** The source reference of a rewritten layer. *)
Lemma rewriteLayer_source (importId : string) (layer : LayerDef) :
  layer_rest (rewriteLayer importId layer) = layer_rest layer /\
  (source layer = None -> source (rewriteLayer importId layer) = None) /\
  (source layer = Some EmptyString -> source (rewriteLayer importId layer) = None) /\
  (source layer = Some "composite" ->
   source (rewriteLayer importId layer) = Some importId) /\
  (forall s, source layer = Some s -> s <> EmptyString -> s <> "composite" ->
             source (rewriteLayer importId layer) = Some (importId ++ "-" ++ s)%string).
Proof.
  unfold rewriteLayer. cbn [source layer_rest].
  split; [reflexivity |]. split; [now intros -> |].
  split; [now intros -> |]. split; [now intros -> |].
  intros s -> Hne Hnc.
  apply String.eqb_neq in Hne, Hnc. unfold JsStr.truthy. now rewrite Hne, Hnc.
Qed.

(** C2 (as amended): after the merge the layers are the rewritten layers
    of the imports, those of the last import first and those of the first
    import last, followed by the layers of the base style; a layer without
    a [source], or with an empty one, has none afterwards, [composite]
    becomes the import id and any other [source] becomes [id-source]. *)
Theorem merge_prepends_layers_last_import_first
        (importedStyles : list ImportedStyle) (idx : nat)
        (base merged : StyleDoc) (baseLayers : list LayerDef) :
  mergeImports idx importedStyles base = ret merged ->
  layers base = Some baseLayers ->
  layers merged = Some (layersLastImportFirst idx importedStyles ++ baseLayers) /\
  (forall importId layer,
     layer_rest (rewriteLayer importId layer) = layer_rest layer /\
     (source layer = None -> source (rewriteLayer importId layer) = None) /\
     (source layer = Some EmptyString -> source (rewriteLayer importId layer) = None) /\
     (source layer = Some "composite" ->
      source (rewriteLayer importId layer) = Some importId) /\
     (forall s, source layer = Some s -> s <> EmptyString -> s <> "composite" ->
                source (rewriteLayer importId layer)
                = Some (importId ++ "-" ++ s)%string)).
Proof.
  intros Hmerge Hbase. split; [| exact rewriteLayer_source].
  revert idx base baseLayers Hmerge Hbase.
  induction importedStyles as [| imp rest IH]; intros idx base baseLayers.
  - cbn [mergeImports layersLastImportFirst]. intros [= <-] Hbase. exact Hbase.
  - cbn [mergeImports layersLastImportFirst].
    destruct (silent_cases (silent_mergeImport base idx imp))
      as [[e E1] | [cs1 E1]]; rewrite E1; [discriminate |].
    rewrite bind_ret. intros Hrest Hbase.
    destruct (mergeImport_ok _ _ _ E1) as (_ & l & Hl & Hl1).
    rewrite Hbase in Hl. injection Hl as <-.
    rewrite (IH _ _ _ Hrest Hl1). now rewrite app_assoc.
Qed.

(** The merge goes through when the base style and every import have
    their [sources] and [layers]. *)
Lemma mergeImports_succeeds (importedStyles : list ImportedStyle) (idx : nat)
      (base : StyleDoc) :
  sources base <> None -> layers base <> None ->
  Forall (fun imp => sources (is_style imp) <> None /\ layers (is_style imp) <> None)
         importedStyles ->
  exists merged, mergeImports idx importedStyles base = ret merged.
Proof.
  intros Hs Hl Hall. revert idx base Hs Hl.
  induction Hall as [| imp rest [His Hil] _ IH]; intros idx base Hs Hl.
  - exists base. reflexivity.
  - cbn [mergeImports].
    assert (H1 : exists cs1, mergeImport base idx imp = ret cs1 /\
                             sources cs1 <> None /\ layers cs1 <> None).
    { unfold mergeImport.
      destruct (sources (is_style imp)) as [imported |]; [| contradiction].
      rewrite bind_ret.
      assert (Hfold : forall keys cs, sources cs <> None ->
                 exists cs1, foldM (addSource (importIdOf (is_id imp) idx) imported) keys cs
                             = ret cs1 /\ sources cs1 <> None).
      { induction keys as [| key keys IHk]; intros cs Hcs; cbn [foldM].
        - exists cs. split; [reflexivity | exact Hcs].
        - unfold addSource at 1.
          destruct (sources cs) as [b |] eqn:Eb; [| contradiction].
          destruct (JsObj.get key imported); rewrite bind_ret; apply IHk;
            cbn [sources set_sources]; rewrite ?Eb; discriminate. }
      destruct (Hfold (JsObj.keys imported) base Hs) as (cs1 & E1 & Hs1).
      rewrite E1, bind_ret.
      destruct (addSources_ok _ _ _ _ E1) as (Hl1 & _).
      destruct (layers (is_style imp)) as [il |]; [| contradiction].
      rewrite bind_ret, Hl1.
      destruct (layers base) as [bl |]; [| contradiction].
      rewrite bind_ret. eexists. split; [reflexivity |].
      repeat match goal with |- context [if ?c then _ else _] => destruct c end;
        cbn; split; (discriminate || exact Hs1). }
    destruct H1 as (cs1 & E1 & Hs1 & Hl1). rewrite E1, bind_ret.
    now apply IH.
Qed.

Lemma append_cancel_l (s t1 t2 : string) :
  (s ++ t1)%string = (s ++ t2)%string -> t1 = t2.
Proof. induction s as [| c s IH]; simpl; [tauto | intros [= H]; now apply IH]. Qed.

Lemma append_not_self (s t : string) (c : ascii) : s <> (s ++ String c t)%string.
Proof.
  induction s as [| x s IH]; simpl; [discriminate |].
  intros [= H]. now apply IH.
Qed.

(** Under one import id, different keys get different names. *)
Lemma rewriteSource_inj (importId k1 k2 : string) :
  rewriteSource importId k1 = rewriteSource importId k2 -> k1 = k2.
Proof.
  unfold rewriteSource.
  destruct (String.eqb k1 "composite") eqn:E1, (String.eqb k2 "composite") eqn:E2;
    intros H.
  - apply String.eqb_eq in E1, E2. congruence.
  - exfalso. exact (@append_not_self _ _ _ H).
  - exfalso. symmetry in H. exact (@append_not_self _ _ _ H).
  - apply append_cancel_l in H. now injection H.
Qed.

Lemma get_Some_In_keys (V : Type) (k : string) (v : V) (o : list (string * V)) :
  JsObj.get k o = Some v -> In k (JsObj.keys o).
Proof.
  induction o as [| [k' v'] o IH]; simpl; [discriminate |].
  destruct (String.eqb k k') eqn:E; [apply String.eqb_eq in E; auto | auto].
Qed.

(** A key of the import ends up, under its new name, with the import's
    value. *)
Lemma addSources_sets (importId : string) (imported : list (string * jsval))
      (keys : list string) (cs cs' : StyleDoc) (key : string) (v : jsval) :
  foldM (addSource importId imported) keys cs = ret cs' ->
  In key keys -> JsObj.get key imported = Some v ->
  source_at cs' (rewriteSource importId key) = Some v.
Proof.
  revert cs. induction keys as [| h keys IH]; intros cs; cbn [foldM]; [intros _ [] |].
  destruct (silent_cases (silent_addSource importId imported cs h))
    as [[e E1] | [cs1 E1]]; rewrite E1; [discriminate |].
  rewrite bind_ret. intros Hrest Hin Hv.
  destruct (in_dec string_dec key keys) as [Hk | Hk]; [now apply IH with cs1 |].
  destruct Hin as [-> | Hin]; [| contradiction].
  destruct (addSources_ok _ _ _ _ Hrest) as (_ & _ & _ & _ & _ & Hkeep).
  rewrite Hkeep.
  - now apply (addSource_ok _ _ _ _ E1).
  - intros Hmap. apply in_map_iff in Hmap. destruct Hmap as (k' & Hk' & Hin').
    apply rewriteSource_inj in Hk'. now subst k'.
Qed.

Lemma mergeImport_sets (cs cs' : StyleDoc) (idx : nat) (imp : ImportedStyle)
      (imported : list (string * jsval)) (key : string) (v : jsval) :
  mergeImport cs idx imp = ret cs' ->
  sources (is_style imp) = Some imported -> JsObj.get key imported = Some v ->
  source_at cs' (rewriteSource (importIdOf (is_id imp) idx) key) = Some v.
Proof.
  unfold mergeImport. intros H Hi Hv. rewrite Hi, bind_ret in H.
  destruct (silent_cases (silent_addSources (importIdOf (is_id imp) idx) imported
                                            (JsObj.keys imported) cs))
    as [[e E1] | [cs1 E1]]; rewrite E1 in H; [discriminate |].
  rewrite bind_ret in H.
  pose proof (@addSources_sets _ _ _ _ _ _ _ E1 (@get_Some_In_keys _ _ _ _ Hv) Hv) as Hset.
  destruct (layers (is_style imp)); [| discriminate].
  rewrite bind_ret in H. destruct (layers cs1); [| discriminate].
  rewrite bind_ret in H. injection H as <-. rewrite <- Hset. unfold source_at.
  repeat match goal with |- context [if ?c then _ else _] => destruct c end;
    reflexivity.
Qed.

(** A source name that an import stores under, and no later import does,
    holds that import's source after the merge - also when the base style
    had a source of that name. *)
Lemma merge_overwrites_contested_source
      (before after : list ImportedStyle) (imp : ImportedStyle) (idx : nat)
      (base merged : StyleDoc) (imported : list (string * jsval))
      (key : string) (v : jsval) :
  mergeImports idx (before ++ imp :: after) base = ret merged ->
  sources (is_style imp) = Some imported -> JsObj.get key imported = Some v ->
  let name := rewriteSource (importIdOf (is_id imp) (idx + List.length before)) key in
  ~ contested (S (idx + List.length before)) after name ->
  source_at merged name = Some v.
Proof.
  revert idx base. induction before as [| b before IH]; intros idx base;
    cbn [app mergeImports List.length].
  - rewrite Nat.add_0_r.
    destruct (silent_cases (silent_mergeImport base idx imp))
      as [[e E1] | [cs1 E1]]; rewrite E1; [discriminate |].
    rewrite bind_ret. cbv zeta. intros Hrest Hi Hv Hn.
    rewrite (@mergeImports_keeps_sources _ _ _ _ _ Hrest Hn).
    now apply mergeImport_sets with base imported.
  - destruct (silent_cases (silent_mergeImport base idx b))
      as [[e E1] | [cs1 E1]]; rewrite E1; [discriminate |].
    rewrite bind_ret. intros Hrest Hi Hv.
    rewrite Nat.add_succ_r. exact (IH (S idx) cs1 Hrest Hi Hv).
Qed.

(** X25: merging the imports leaves every source of the base style in
    place whose name is not a name an imported source is stored under
    ([id] for [composite], [id-key] otherwise). *)
Theorem merge_keeps_unclaimed_sources
        (importedStyles : list ImportedStyle) (idx : nat)
        (base merged : StyleDoc) :
  mergeImports idx importedStyles base = ret merged ->
  forall name v,
    source_at base name = Some v ->
    ~ contested idx importedStyles name ->
    source_at merged name = Some v.
Proof.
  intros Hmerge name v Hv Hn.
  rewrite (@mergeImports_keeps_sources _ _ _ _ _ Hmerge Hn). exact Hv.
Qed.

End Merging.

(** * The theorems at work on the sample platform *)

(** C1: the source [basemap] of the base style does not keep its value;
    after the merge with an import of id [basemap] it holds the [composite]
    source of the import, which line 643 assigns without the test for an
    existing entry that [fog], [glyphs] and [sprite] get. *)
Lemma merge_overwrites_base_source :
  source_at local_style "basemap" = Some (JStr "local-basemap") /\
  rewriteSource (importIdOf "basemap" 0) "composite" = "basemap" /\
  exists merged,
    mergeImports 0 sample_imports local_style = ret merged /\
    source_at merged "basemap" = Some (JStr "imported-composite") /\
    source_at merged "basemap" <> source_at local_style "basemap" /\
    glyphs merged = glyphs local_style.
Proof.
  split; [reflexivity |]. split; [reflexivity |].
  eexists. split; [reflexivity |].
  split; [reflexivity |]. split; [discriminate | reflexivity].
Qed.

(** On the sample imports, [terrain] is stored under by no import and
    keeps its source. *)
Lemma merge_keeps_unclaimed_sources_witness :
  exists merged,
    mergeImports 0 sample_imports local_style = ret merged /\
    source_at merged "terrain" = Some (JStr "local-terrain").
Proof.
  eexists. split; [reflexivity |].
  apply (@merge_keeps_unclaimed_sources sample_imports 0 local_style _ eq_refl
           "terrain" (JStr "local-terrain") eq_refl).
  simpl. intros H.
  repeat match goal with
         | H : _ \/ _ |- _ => destruct H as [H | H]
         | H : _ = _ |- _ => discriminate H
         | H : False |- _ => contradiction
         end.
Defined.

(** C2, the claim as first stated fails: with two imports the layers of
    the second import come first, not those of the first. *)
Lemma merge_layers_not_in_import_order :
  exists merged baseLayers,
    mergeImports 0 sample_imports local_style = ret merged /\
    layers local_style = Some baseLayers /\
    layers merged <> Some (layersInImportOrder 0 sample_imports ++ baseLayers).
Proof.
  eexists. eexists. split; [reflexivity |]. split; [reflexivity |]. discriminate.
Qed.

Lemma merge_prepends_layers_last_import_first_witness :
  exists merged,
    mergeImports 0 sample_imports local_style = ret merged /\
    layers merged
    = Some [mkLayer (Some "labels-places") [("id", JStr "label")];
            mkLayer (Some "basemap") [("id", JStr "land")];
            mkLayer (Some "basemap-roads") [("id", JStr "road")];
            mkLayer None [("id", JStr "background")];
            mkLayer (Some "basemap") [("id", JStr "local")]].
Proof.
  eexists. split; [reflexivity |].
  apply (proj1 (@merge_prepends_layers_last_import_first
                  sample_imports 0 local_style _
                  [mkLayer (Some "basemap") [("id", JStr "local")]]
                  eq_refl eq_refl)).
Defined.

(** C3, the claim as first stated fails: without [bounds] and [zoom], a
    [center] outside the world is what the request is rejected for. *)
Lemma missing_viewport_other_error :
  let p := with_center [200%float; 0%float] (bare_params empty_style) in
  p_bounds p = None /\ p_zoom p = None /\
  renderImage p None = ([], inl (ErrCenterLon 200%float)) /\
  ErrCenterLon 200%float <> ErrCenterZoomOrBounds.
Proof. repeat split; try reflexivity. discriminate. Qed.

(** [{ style: {}, width: 400, height: 260 }] is refused by the cross-field
    rule; with a center outside the world and a ratio below 1 on top, it
    is the center rule, the earlier of the two, that refuses it. *)
Lemma missing_viewport_rejected_witness :
  renderImage (bare_params empty_style) None = ([], inl ErrCenterZoomOrBounds) /\
  renderImage two_faults_params None = ([], inl (ErrCenterLon 200%float)).
Proof.
  split.
  - apply (proj2 (proj2 (@missing_viewport_rejected sample_platform
                           (bare_params empty_style) None eq_refl
                           (or_introl eq_refl)))
                 (Some empty_style) None None);
      reflexivity.
  - exact (proj1 (proj2 (@missing_viewport_rejected sample_platform
                           two_faults_params None eq_refl
                           (or_intror eq_refl)))).
Defined.

(** The division is the binary64 one and the store keeps the integer part
    modulo 256: a channel equal to its alpha can come out as 254, and a
    channel above its alpha wraps around. *)
Lemma unpremultiplied_channel_examples :
  unpremultiplied_channel 128 128 = 255 /\
  unpremultiplied_channel 33 33 = 254 /\
  unpremultiplied_channel 200 100 = 254.
Proof. repeat split; vm_compute; reflexivity. Qed.

Lemma two_pixels_are_bytes : Forall is_u8 two_pixels.
Proof. repeat constructor; unfold is_u8; lia. Defined.

(** C4: the [render] of unnamed/part_000 gives the encoder the buffer as
    the engine produced it, premultiplied, where the [render] of render.ts
    gives it the buffer that [toPNG] has converted. *)
Lemma part000_render_encodes_premultiplied :
  log (Part000.render (Some local_style) 400%float 260%float centered_options)
  = [EvMapNew (Some (NumV 1%float)); EvMapLoad local_style;
     EvMapRender {| r_zoom := Some 5%float; r_center := Some [10%float; 10%float];
                    r_height := 260%float; r_width := 400%float;
                    r_bearing := None; r_pitch := None |};
     EvMapRelease;
     EvEncode {| raw_data := [128; 64; 32; 128; 10; 20; 30; 0];
                 raw_width := 400%float; raw_height := 260%float;
                 raw_channels := 4 |}] /\
  log (render (Some local_style) 400%float 260%float centered_options)
  = [EvMapNew (Some (NumV 1%float)); EvMapLoad local_style;
     EvMapRender {| r_zoom := Some 5%float; r_center := Some [10%float; 10%float];
                    r_height := 260%float; r_width := 400%float;
                    r_bearing := None; r_pitch := None |};
     EvMapRelease;
     EvEncode {| raw_data := [255; 127; 63; 128; 0; 0; 0; 0];
                 raw_width := 400%float; raw_height := 260%float;
                 raw_channels := 4 |}] /\
  unpremultiply [128; 64; 32; 128; 10; 20; 30; 0] = [255; 127; 63; 128; 0; 0; 0; 0].
Proof. repeat split; vm_compute; reflexivity. Qed.

(** Two pixels at 401 by 261 and ratio 1.5: 601.5 and 391.5 go up. *)
Lemma toPNG_unpremultiplies_witness :
  log (toPNG two_pixels 401%float 261%float (Some (NumV 1.5%float)))
  = [EvEncode {| raw_data := [255; 127; 63; 128; 0; 0; 0; 0];
                 raw_width := 602%float; raw_height := 392%float;
                 raw_channels := 4 |}] /\
  JsNum.rounds_to 601.5%float 602%float /\
  JsNum.rounds_to 391.5%float 392%float.
Proof.
  pose proof (@toPNG_unpremultiplies sample_platform two_pixels 401%float 261%float
                (Some (NumV 1.5%float)) eq_refl two_pixels_are_bytes)
    as (_ & _ & _ & Hlog & _ & Hw & Hh).
  split; [exact Hlog | split; [exact Hw | exact Hh]].
Defined.

(** A fit at zoom 11.5 is pulled back to 10.5; a fit at zoom 0.25, which
    would go to -0.75, is passed as 0. *)
Lemma render_viewport_passed_witness :
  In (EvMapRender {| r_zoom := Some 10.5%float;
                     r_center := Some [7.15%float; 45%float];
                     r_height := 260%float; r_width := 400%float;
                     r_bearing := None; r_pitch := None |})
     (log (render (Some local_style) 400%float 260%float bounds_options)) /\
  Some 10.5%float = Some (11.5 - 1)%float /\
  In (EvMapRender {| r_zoom := Some 0%float;
                     r_center := Some [0%float; 0%float];
                     r_height := 260%float; r_width := 400%float;
                     r_bearing := None; r_pitch := None |})
     (log (@render zoomed_out_platform (Some local_style) 400%float 260%float
                   bounds_options)) /\
  Some 0%float = Some 0%float.
Proof.
  assert (H : In (EvMapRender {| r_zoom := Some 10.5%float;
                                 r_center := Some [7.15%float; 45%float];
                                 r_height := 260%float; r_width := 400%float;
                                 r_bearing := None; r_pitch := None |})
                 (log (render (Some local_style) 400%float 260%float bounds_options))).
  { vm_compute. right. right. left. reflexivity. }
  assert (H0 : In (EvMapRender {| r_zoom := Some 0%float;
                                  r_center := Some [0%float; 0%float];
                                  r_height := 260%float; r_width := 400%float;
                                  r_bearing := None; r_pitch := None |})
                  (log (@render zoomed_out_platform (Some local_style) 400%float
                                260%float bounds_options))).
  { vm_compute. right. right. left. reflexivity. }
  split; [exact H |].
  pose proof (proj1 (@render_viewport_passed sample_platform _ _ _ _ _ H)
                    [7.0%float; 44.9%float; 7.3%float; 45.1%float]
                    eq_refl (or_introl eq_refl)) as (_ & _ & Hpos & _).
  split; [exact (Hpos eq_refl) |].
  split; [exact H0 |].
  pose proof (proj1 (@render_viewport_passed zoomed_out_platform _ _ _ _ _ H0)
                    [7.0%float; 44.9%float; 7.3%float; 45.1%float]
                    eq_refl (or_introl eq_refl)) as (_ & _ & _ & Hneg & _).
  exact (Hneg eq_refl).
Defined.

Lemma fetch_status_policy_witness :
  getRemoteTile "https://tiles.example/missing.pbf" = CallbackData None /\
  getRemoteAsset "https://tiles.example/missing.pbf"
  = CallbackErr (ErrRemoteAsset "https://tiles.example/missing.pbf" 404) /\
  getRemoteTile "https://tiles.example/broken.pbf"
  = CallbackErr (ErrRemoteTile "https://tiles.example/broken.pbf" 500).
Proof.
  pose proof (@fetch_status_policy sample_platform "https://tiles.example/missing.pbf"
                (mkResponse 404 [] (Some [])) eq_refl) as (H404 & _ & Hasset & _).
  pose proof (@fetch_status_policy sample_platform "https://tiles.example/broken.pbf"
                (mkResponse 500 [] (Some [])) eq_refl) as (_ & H500 & _).
  split; [apply H404; right; reflexivity |].
  split; [apply Hasset; cbn; lia | apply H500; cbn; lia].
Defined.

Lemma bounds_rule_fails_iff_degenerate_witness :
  failed (renderImage_bounds (Some (inr [10%float; 10%float; 10%float; 20%float]))) /\
  renderImage_bounds (Some (inr [10%float; 10%float; 20%float; 20%float]))
  = ret (Some [10%float; 10%float; 20%float; 20%float]).
Proof.
  split.
  - apply (proj1 (@bounds_rule_fails_iff_degenerate sample_platform
                    (inr [10%float; 10%float; 10%float; 20%float])
                    10%float 10%float 10%float 20%float eq_refl)).
    left. reflexivity.
  - apply (proj1 (proj2 (@bounds_rule_fails_iff_degenerate sample_platform
                    (inr [10%float; 10%float; 20%float; 20%float])
                    10%float 10%float 20%float 20%float eq_refl))).
    intros H.
    repeat match goal with
           | H : _ \/ _ |- _ => destruct H as [H | H]
           | H : _ = _ |- _ => discriminate H
           end.
Defined.

Lemma center_rule_iff_in_world_witness :
  renderImage_center (Some (inr [180%float; 90%float]))
  = ret (Some [180%float; 90%float]) /\
  renderImage_center (Some (inr [(-180)%float; (-90)%float]))
  = ret (Some [(-180)%float; (-90)%float]) /\
  failed (renderImage_center (Some (inr [180.0001%float; 0%float]))).
Proof.
  split; [| split].
  - apply (proj1 (@center_rule_iff_in_world sample_platform
                    (inr [180%float; 90%float]) 180%float 90%float eq_refl)).
    repeat split; reflexivity.
  - apply (proj1 (@center_rule_iff_in_world sample_platform
                    (inr [(-180)%float; (-90)%float]) (-180)%float (-90)%float eq_refl)).
    repeat split; reflexivity.
  - apply (proj1 (proj2 (@center_rule_iff_in_world sample_platform
                    (inr [180.0001%float; 0%float]) 180.0001%float 0%float eq_refl))).
    intros (_ & _ & H & _). discriminate H.
Defined.

(** A style with [mbtiles://foo/1/2/3] among its tiles, and a [tilePath]. *)
Lemma local_tiles_rejected_witness :
  render (Some mbtiles_style) 400%float 260%float
         (with_tilePath (Some "/tiles") centered_options)
  = ([], inl ErrLocalMbtiles).
Proof.
  apply (proj2 (@local_tiles_rejected sample_platform mbtiles_style mbtiles_style
                  400%float 260%float centered_options eq_refl eq_refl
                  (Some "/tiles"))).
  reflexivity.
Defined.

Lemma data_url_without_base64_fails_witness :
  loadImage "pin" plain_data_icon
  = throw (ErrLoadingIcon "pin" (ErrTypeError "Buffer.from(undefined, 'base64')")) /\
  failed (renderImage
            (with_images [("pin", plain_data_icon)]
               (with_zoom 5%float
                  (with_center [10%float; 10%float] (bare_params local_style))))
            None).
Proof.
  pose proof (@data_url_without_base64_fails sample_platform "pin" plain_data_icon
                eq_refl eq_refl) as (Hload & _ & Hrequest).
  split; [exact Hload |].
  apply Hrequest with [("pin", plain_data_icon)]; [reflexivity | left; reflexivity].
Defined.

(** * Further properties *)

(** ** Range rules *)

(** [x < lo || x > hi] is false exactly for [NaN] and for the numbers
    from [lo] to [hi]. *)
Lemma outside_range_false (x lo hi : float) :
  PrimFloat.is_nan lo = false -> PrimFloat.is_nan hi = false ->
  ((x <? lo) || (hi <? x))%float = false <->
  PrimFloat.is_nan x = true \/
  ((lo <=? x)%float = true /\ (x <=? hi)%float = true).
Proof.
  intros Hlo Hhi. destruct (PrimFloat.is_nan x) eqn:Hx.
  - rewrite (@ltb_nan_l x lo Hx), (@ltb_nan_r hi x Hx). simpl. tauto.
  - rewrite (@ltb_negb_leb lo x Hlo Hx), (@ltb_negb_leb x hi Hx Hhi).
    destruct (lo <=? x)%float, (x <=? hi)%float; simpl; intuition discriminate.
Qed.

Section Ranges.
Context {P : Platform}.

(** X1: The [zoom], [bearing] and [pitch] rules let through the numbers of
    their range, and [NaN]; nothing else. *)
Theorem range_rules_accept_range_and_nan (z b p : float) :
  (renderImage_zoom (Some z) = ret (Some (parseFloat z)) <->
   PrimFloat.is_nan (parseFloat z) = true \/
   ((0 <=? parseFloat z)%float = true /\ (parseFloat z <=? 22)%float = true)) /\
  (renderImage_zoom (Some z) = ret (Some (parseFloat z)) \/
   renderImage_zoom (Some z) = throw (ErrZoom (parseFloat z))) /\
  (renderImage_bearing (Some b) = ret tt <->
   PrimFloat.is_nan b = true \/
   ((0 <=? b)%float = true /\ (b <=? 360)%float = true)) /\
  (renderImage_pitch (Some p) = ret tt <->
   PrimFloat.is_nan p = true \/
   ((0 <=? p)%float = true /\ (p <=? 60)%float = true)).
Proof.
  assert (Hrule : forall (x lo hi : float) (e : exn),
             PrimFloat.is_nan lo = false -> PrimFloat.is_nan hi = false ->
             throw_if ((x <? lo) || (hi <? x))%float e = ret tt <->
             PrimFloat.is_nan x = true \/
             ((lo <=? x)%float = true /\ (x <=? hi)%float = true)).
  { intros x lo hi e Hlo Hhi. rewrite <- (@outside_range_false x lo hi Hlo Hhi).
    destruct ((x <? lo) || (hi <? x))%float; simpl; split; intros H;
      (discriminate H || reflexivity). }
  split; [| split; [| split]].
  - pose proof (@outside_range_false (parseFloat z) 0%float 22%float eq_refl eq_refl) as Hz.
    unfold renderImage_zoom.
    destruct ((parseFloat z <? 0) || (22 <? parseFloat z))%float; cbn.
    + split; [discriminate | intros H; apply Hz in H; discriminate H].
    + split; [intros _; now apply Hz | reflexivity].
  - unfold renderImage_zoom.
    destruct ((parseFloat z <? 0) || (22 <? parseFloat z))%float; cbn; auto.
  - apply Hrule; reflexivity.
  - apply Hrule; reflexivity.
Qed.

(** A number equal to zero is not at least 1. *)
Lemma is_zero_not_ge_1 (r : float) :
  PrimFloat.is_zero r = true -> (1 <=? r)%float = false.
Proof.
  unfold PrimFloat.is_zero. rewrite FloatAxioms.eqb_spec, FloatAxioms.leb_spec.
  change (Prim2SF PrimFloat.zero) with (S754_zero false).
  change (Prim2SF 1%float) with (S754_finite false 4503599627370496 (-52)).
  unfold SFeqb, SFleb. destruct (Prim2SF r) as [s | s | | s m e]; simpl;
    try discriminate; try reflexivity.
  - destruct s; discriminate.
  - destruct s; discriminate.
Qed.

(** X2: The [ratio] rule: a number passes exactly when it is at least 1
    ([NaN] and 0 are refused); a text, as a query string gives it, passes
    exactly when it is not empty and does not read as a number below 1,
    so that a text that reads as no number at all passes; [null] is not
    checked.  A refusal is the ratio error, with the value as it came. *)
Theorem ratio_rule_accepts_iff (r : float) (s : string) :
  (renderImage_ratio (Some (NumV r)) = ret tt <-> (1 <=? r)%float = true) /\
  (renderImage_ratio (Some (TextV s)) = ret tt <->
   s <> EmptyString /\ (Number_of s <? 1)%float = false) /\
  (PrimFloat.is_nan (Number_of s) = true -> s <> EmptyString ->
   renderImage_ratio (Some (TextV s)) = ret tt) /\
  (forall v, renderImage_ratio (Some v) = ret tt \/
             renderImage_ratio (Some v) = throw (ErrRatio v)) /\
  renderImage_ratio None = ret tt.
Proof.
  assert (Htext : renderImage_ratio (Some (TextV s)) = ret tt <->
                  s <> EmptyString /\ (Number_of s <? 1)%float = false).
  { unfold renderImage_ratio, ReqNum.truthy, JsStr.truthy, ToNumber.
    destruct (String.eqb_spec s EmptyString) as [-> | Hne]; cbn.
    - split; [discriminate | intros [H _]; now contradiction H].
    - destruct (Number_of s <? 1)%float; cbn; split; intros H;
        try discriminate H; try reflexivity; try (split; [exact Hne | reflexivity]).
      destruct H as [_ H]. discriminate H. }
  split; [| split; [exact Htext | split; [| split]]].
  - unfold renderImage_ratio, ReqNum.truthy, JsNum.truthy, ToNumber.
    destruct (PrimFloat.is_nan r) eqn:Hn.
    + rewrite (@leb_nan_r 1%float r Hn). cbn. split; discriminate.
    + rewrite (@ltb_negb_leb 1%float r eq_refl Hn).
      destruct (PrimFloat.is_zero r) eqn:Hz.
      * rewrite (@is_zero_not_ge_1 r Hz). cbn. split; discriminate.
      * destruct (1 <=? r)%float; cbn; split; intros H; (discriminate H || reflexivity).
  - intros Hn Hne. apply Htext. split; [exact Hne |]. now apply ltb_nan_l.
  - intros v. unfold renderImage_ratio.
    destruct (negb (ReqNum.truthy v) || (ToNumber v <? 1)%float); cbn; auto.
  - reflexivity.
Qed.

(** X3: With [bounds], the [padding] rule looks at a padding that is a number
    other than 0 and [NaN], or a text that is not empty (the text [0]
    too): it then passes exactly when neither [width / 2] nor
    [height / 2] is at most [|padding|], the width being looked at first.
    Without [bounds], or with a padding that is 0, [NaN] or the empty
    text, nothing is checked. *)
Theorem padding_rule_checks_both_axes
        (bounds : list float) (width height : float) :
  (forall padding : reqnum,
     (exists x, padding = NumV x /\
                PrimFloat.is_nan x = false /\ PrimFloat.is_zero x = false) \/
     (exists s, padding = TextV s /\ s <> EmptyString) ->
     let a := PrimFloat.abs (ToNumber padding) in
     (renderImage_padding (Some bounds) padding width height = ret tt <->
      (width / 2 <=? a)%float = false /\ (height / 2 <=? a)%float = false) /\
     ((width / 2 <=? a)%float = true ->
      renderImage_padding (Some bounds) padding width height = throw ErrPaddingWidth) /\
     ((width / 2 <=? a)%float = false -> (height / 2 <=? a)%float = true ->
      renderImage_padding (Some bounds) padding width height = throw ErrPaddingHeight) /\
     (PrimFloat.is_nan a = false ->
      PrimFloat.is_nan (width / 2)%float = false ->
      PrimFloat.is_nan (height / 2)%float = false ->
      (renderImage_padding (Some bounds) padding width height = ret tt <->
       (a <? width / 2)%float = true /\ (a <? height / 2)%float = true))) /\
  (forall padding, renderImage_padding None padding width height = ret tt) /\
  (forall x, PrimFloat.is_nan x = true \/ PrimFloat.is_zero x = true ->
             renderImage_padding (Some bounds) (NumV x) width height = ret tt) /\
  renderImage_padding (Some bounds) (TextV EmptyString) width height = ret tt.
Proof.
  split; [| split; [| split]].
  - intros padding Hlooked a.
    assert (Ht : ReqNum.truthy padding = true).
    { destruct Hlooked as [(x & -> & Hn & Hz) | (s & -> & Hne)].
      - unfold ReqNum.truthy, JsNum.truthy. now rewrite Hn, Hz.
      - unfold ReqNum.truthy, JsStr.truthy.
        destruct (String.eqb_spec s EmptyString); [contradiction | reflexivity]. }
    assert (Hrule : renderImage_padding (Some bounds) padding width height
                    = (throw_if (width / 2 <=? a)%float ErrPaddingWidth ;;;
                       throw_if (height / 2 <=? a)%float ErrPaddingHeight)).
    { unfold renderImage_padding. now rewrite Ht. }
    rewrite Hrule. clear Hrule.
    split; [| split; [| split]].
    + destruct (width / 2 <=? a)%float, (height / 2 <=? a)%float; cbn;
        split; intros H; try discriminate H; try reflexivity; try tauto;
        destruct H as [H1 H2]; discriminate.
    + intros ->. reflexivity.
    + intros -> ->. reflexivity.
    + intros Ha Hw Hh.
      rewrite (@ltb_negb_leb (width / 2)%float a Hw Ha).
      rewrite (@ltb_negb_leb (height / 2)%float a Hh Ha).
      destruct (width / 2 <=? a)%float, (height / 2 <=? a)%float; cbn;
        split; intros H; try discriminate H; try reflexivity; try tauto;
        destruct H as [H1 H2]; discriminate.
  - reflexivity.
  - intros x Hx. unfold renderImage_padding, ReqNum.truthy, JsNum.truthy.
    destruct Hx as [-> | ->]; [reflexivity |].
    destruct (PrimFloat.is_nan x); reflexivity.
  - reflexivity.
Qed.

End Ranges.

(** ** The rules on lists *)

Lemma mapM_checks (A : Type) (f : A -> M unit) (accepted : A -> bool) (l : list A) :
  (forall a, accepted a = true -> f a = ret tt) ->
  (forall a, accepted a = false -> exists e, f a = throw e) ->
  (forallb accepted l = true -> mapM f l = ret (map (fun _ => tt) l)) /\
  (forallb accepted l = false -> exists e, mapM f l = throw e).
Proof.
  intros Hok Hbad. induction l as [| a l [IH1 IH2]]; cbn [forallb mapM map].
  - split; [reflexivity | discriminate].
  - destruct (accepted a) eqn:Ea; cbn [andb].
    + rewrite (Hok a Ea), bind_ret. split.
      * intros Hl. now rewrite (IH1 Hl), bind_ret.
      * intros Hl. destruct (IH2 Hl) as [e He]. exists e. now rewrite He, bind_throw.
    + split; [discriminate | intros _].
      destruct (Hbad a Ea) as [e He]. exists e. now rewrite He, bind_throw.
Qed.

Section ListRules.
Context {P : Platform}.

(** X5: The [images] rule passes exactly when every icon has a url that
    [new URL] accepts, and then hands the icons on unchanged; the
    [imports] rule passes exactly when every import has a url and an id
    and its url starts with [mapbox://styles] or is one [new URL]
    accepts.  Both refuse the request otherwise. *)
Theorem list_rules_accept_iff
        (entries : list (string * ImageRef)) (imports : list ImportRef) :
  (renderImage_images (Some (inr entries)) = ret (Some entries) <->
   forallb image_accepted entries = true) /\
  (forallb image_accepted entries = false ->
   rejected (renderImage_images (Some (inr entries)))) /\
  (renderImage_imports (Some imports) = ret tt <->
   forallb import_accepted imports = true) /\
  (forallb import_accepted imports = false ->
   rejected (renderImage_imports (Some imports))).
Proof.
  set (checkImage := fun entry : string * ImageRef =>
         throw_if (negb (JsStr.truthy (img_url (snd entry)))) ErrImageObject ;;;
         throw_if (negb (URL_valid (img_url (snd entry))))
                  (ErrImageURL (img_url (snd entry)))).
  set (checkImport := fun imp : ImportRef =>
         throw_if (negb (JsStr.truthy (imp_url imp) && JsStr.truthy (imp_id imp)))
                  ErrImportObject ;;;
         if negb (JsStr.startsWith "mapbox://styles" (imp_url imp))
         then throw_if (negb (URL_valid (imp_url imp))) (ErrImportURL (imp_url imp))
         else ret tt).
  assert (Hi_ok : forall a, image_accepted a = true -> checkImage a = ret tt).
  { intros a Ha. unfold image_accepted in Ha. apply andb_prop in Ha.
    destruct Ha as [Hu Hv]. unfold checkImage. rewrite Hu, Hv. reflexivity. }
  assert (Hi_bad : forall a, image_accepted a = false -> exists e, checkImage a = throw e).
  { intros a Ha. unfold image_accepted in Ha. unfold checkImage.
    destruct (JsStr.truthy (img_url (snd a))); cbn [andb negb throw_if] in Ha |- *.
    - rewrite bind_ret, Ha. eexists. reflexivity.
    - rewrite bind_throw. eexists. reflexivity. }
  assert (Hm_ok : forall a, import_accepted a = true -> checkImport a = ret tt).
  { intros a Ha. unfold import_accepted in Ha. apply andb_prop in Ha.
    destruct Ha as [Ha Hu]. unfold checkImport. rewrite Ha. cbn [negb throw_if].
    rewrite bind_ret.
    destruct (JsStr.startsWith "mapbox://styles" (imp_url a)); [reflexivity |].
    cbn in Hu |- *. now rewrite Hu. }
  assert (Hm_bad : forall a, import_accepted a = false -> exists e, checkImport a = throw e).
  { intros a Ha. unfold import_accepted in Ha. unfold checkImport.
    destruct (JsStr.truthy (imp_url a) && JsStr.truthy (imp_id a));
      cbn [andb negb throw_if] in Ha |- *.
    - apply orb_false_iff in Ha. destruct Ha as [Hs Hv].
      rewrite bind_ret, Hs, Hv. eexists. reflexivity.
    - rewrite bind_throw. eexists. reflexivity. }
  destruct (@mapM_checks _ checkImage image_accepted entries Hi_ok Hi_bad) as [Hi1 Hi2].
  destruct (@mapM_checks _ checkImport import_accepted imports Hm_ok Hm_bad) as [Hm1 Hm2].
  clear Hi_ok Hi_bad Hm_ok Hm_bad.
  unfold renderImage_images, renderImage_imports. rewrite bind_ret.
  fold checkImage. fold checkImport.
  destruct (forallb image_accepted entries);
    destruct (forallb import_accepted imports).
  all: repeat match goal with
         | H : true = true -> _ |- _ => specialize (H eq_refl)
         | H : false = false -> _ |- _ => specialize (H eq_refl)
         | H : true = false -> _ |- _ => clear H
         | H : false = true -> _ |- _ => clear H
         | H : exists e, _ = throw e |- _ =>
             let e := fresh "e" in destruct H as [e H]
         end.
  all: repeat match goal with
         | H : mapM _ _ = _ |- _ => rewrite H; clear H
         end.
  all: rewrite ?bind_ret, ?bind_throw.
  all: repeat split; intros; try reflexivity; try discriminate;
    try (eexists; reflexivity).
Qed.

End ListRules.

(** ** Validation and [render] together *)

Lemma prefix_one_char (c x : ascii) (s : string) :
  String.prefix (String c EmptyString) (String x s) = Ascii.eqb c x.
Proof.
  cbn [String.prefix]. destruct (ascii_dec c x) as [-> | Hne].
  - rewrite Ascii.eqb_refl. now destruct s.
  - symmetry. now apply Ascii.eqb_neq.
Qed.

Lemma length_split_go_char (c : ascii) (acc s : string) :
  List.length (JsStr.split_go (String c EmptyString) 0 acc s) = S (count_char c s).
Proof.
  revert acc. induction s as [| x s IH]; intros acc; [reflexivity |].
  cbn [JsStr.split_go count_char]. rewrite prefix_one_char.
  destruct (Ascii.eqb c x); cbn [String.length Nat.pred List.length]; now rewrite IH.
Qed.

Section Lists.
Context {P : Platform}.

(** X4: A list parameter given as text has one entry more than the text has
    commas, whatever stands between them; so the [center] rule refuses a
    text that does not have exactly one comma and the [bounds] rule a text
    that does not have exactly three. *)
Theorem parseListToFloat_length (text : string) :
  List.length (parseListToFloat text) = S (count_char "," text) /\
  (count_char "," text <> 1%nat ->
   renderImage_center (Some (inl text)) = throw (ErrCenterLength (parseListToFloat text))) /\
  (count_char "," text <> 3%nat ->
   renderImage_bounds (Some (inl text)) = throw (ErrBounds (parseListToFloat text))).
Proof.
  assert (Hlen : List.length (parseListToFloat text) = S (count_char "," text)).
  { unfold parseListToFloat, JsStr.split. rewrite length_map.
    apply length_split_go_char. }
  split; [exact Hlen | split]; intros Hn.
  - unfold renderImage_center. cbn [decode_list]. rewrite Hlen.
    replace (S (count_char "," text) =? 2)%nat with false
      by (symmetry; apply Nat.eqb_neq; lia).
    reflexivity.
  - unfold renderImage_bounds. cbn [decode_list]. rewrite Hlen.
    replace (S (count_char "," text) =? 4)%nat with false
      by (symmetry; apply Nat.eqb_neq; lia).
    reflexivity.
Qed.
End Lists.

(** ** Which errors a step can raise *)

Lemma raises_ret (A : Type) (a : A) (Q : exn -> Prop) : raises (ret a) Q.
Proof. intros e H. discriminate H. Qed.

Lemma raises_throw (A : Type) (e : exn) (Q : exn -> Prop) : Q e -> raises (@throw A e) Q.
Proof. intros HQ e' H. injection H as <-. exact HQ. Qed.

Lemma raises_throw_if (c : bool) (e : exn) (Q : exn -> Prop) :
  Q e -> raises (throw_if c e) Q.
Proof. intros HQ. destruct c; [now apply raises_throw | apply raises_ret]. Qed.

Lemma raises_emit (ev : event) (Q : exn -> Prop) : raises (emit ev) Q.
Proof. intros e H. discriminate H. Qed.

Lemma raises_bind (A B : Type) (m : M A) (k : A -> M B) (Q : exn -> Prop) :
  raises m Q -> (forall a, raises (k a) Q) -> raises (bind m k) Q.
Proof.
  intros Hm Hk e. destruct (outcome_cases m) as [[e' He'] | [a Ha]].
  - rewrite (bind_fail _ _ He'). cbn. intros [= <-]. now apply Hm.
  - rewrite (outcome_bind_ok _ _ Ha). apply Hk.
Qed.

Lemma raises_try_catch_throw (A : Type) (m : M A) (h : exn -> exn) (Q : exn -> Prop) :
  (forall e, Q (h e)) -> raises (try_catch m (fun e => throw (h e))) Q.
Proof.
  intros Hh e. destruct m as [t [e' | a]]; cbn; [| discriminate].
  intros [= <-]. apply Hh.
Qed.

Lemma raises_mapM (A B : Type) (f : A -> M B) (l : list A) (Q : exn -> Prop) :
  (forall a, raises (f a) Q) -> raises (mapM f l) Q.
Proof.
  intros Hf. induction l as [| a l IH]; cbn [mapM]; [apply raises_ret |].
  apply raises_bind; [apply Hf | intros b].
  apply raises_bind; [exact IH | intros bs; apply raises_ret].
Qed.

Lemma raises_foldM (A B : Type) (f : B -> A -> M B) (l : list A) (b : B)
      (Q : exn -> Prop) :
  (forall b a, raises (f b a) Q) -> raises (foldM f l b) Q.
Proof.
  intros Hf. revert b. induction l as [| a l IH]; intros b; cbn [foldM];
    [apply raises_ret |].
  apply raises_bind; [apply Hf | intros b'; apply IH].
Qed.

Ltac raising :=
  repeat first
    [ apply raises_ret | apply raises_emit
    | apply raises_throw; try reflexivity
    | apply raises_throw_if; try reflexivity
    | apply raises_try_catch_throw; intros ?; try reflexivity
    | apply raises_bind; [| intros ?]
    | apply raises_mapM; intros ?
    | apply raises_foldM; intros ? ?
    | match goal with
      | |- raises (match ?x with _ => _ end) _ => destruct x
      | |- raises (if ?c then _ else _) _ => destruct c
      | |- raises (let (_, _) := ?x in _) _ => destruct x
      end ].

Section Composition.
Context {P : Platform}.

Lemma resolveImports_not_prevalidated style options :
  raises (resolveImports style options) not_prevalidated.
Proof.
  unfold resolveImports, getRemoteStyleImport, normalizeMapboxStyleURL.
  destruct (o_imports options) as [imports |]; [| apply raises_ret].
  destruct (0 <? List.length imports)%nat; [| apply raises_ret].
  apply raises_bind.
  - unfold not_prevalidated. raising.
  - intros l. generalize 0%nat. revert style.
    induction l as [| imp l IH]; intros style n; cbn [mergeImports]; [apply raises_ret |].
    apply raises_bind; [| intros cs; apply IH].
    unfold mergeImport, addSource, not_prevalidated. raising.
Qed.

Lemma loadImages_not_prevalidated (images : option (list (string * ImageRef))) :
  match images with
  | Some entries => Forall (fun entry => JsStr.truthy (img_url (snd entry)) = true) entries
  | None => True
  end ->
  raises (loadImages images) not_prevalidated.
Proof.
  unfold loadImages. destruct images as [entries |]; [| intros _; apply raises_ret].
  intros Hall. apply raises_bind; [| intros _; apply raises_ret].
  induction Hall as [| entry entries Hurl _ IH]; cbn [mapM]; [apply raises_ret |].
  apply raises_bind; [| intros b; apply raises_bind; [exact IH | intros bs; apply raises_ret]].
  unfold loadImage. rewrite Hurl. cbn [negb throw_if]. rewrite bind_ret.
  now apply raises_try_catch_throw.
Qed.

(** After the checks, nothing [render] does raises a geometry error. *)
Lemma render_after_checks_not_prevalidated
      (style : StyleDoc) (width height : float) (options : Options) :
  raises (render_checks width height options)
         (fun e => e = ErrWidthHeight \/ e = ErrPaddingWidth \/ e = ErrPaddingHeight) ->
  raises (loadImages (o_images options)) not_prevalidated ->
  raises (render (Some style) width height options) not_prevalidated.
Proof.
  intros Hc Hicons. unfold render.
  apply raises_bind.
  - intros e He. destruct (Hc e He) as [-> | [-> | ->]]; reflexivity.
  - intros _. destruct (resolveViewport _ _ _ _ _ _) as [zoom center].
    apply raises_bind; [apply resolveImports_not_prevalidated | intros cs].
    apply raises_bind; [now apply raises_throw_if | intros _].
    apply raises_bind; [apply raises_emit | intros _].
    apply raises_bind; [apply raises_emit | intros _].
    apply raises_bind; [exact Hicons | intros _].
    unfold renderMap, toPNG, not_prevalidated. raising.
Qed.

Lemma raises_bind_ok (A B : Type) (m : M A) (k : A -> M B) (Q : exn -> Prop) :
  raises m Q -> (forall a, outcome m = inr a -> raises (k a) Q) -> raises (bind m k) Q.
Proof.
  intros Hm Hk e. destruct (outcome_cases m) as [[e' He'] | [a Ha]].
  - rewrite (bind_fail _ _ He'). cbn. intros [= <-]. now apply Hm.
  - rewrite (outcome_bind_ok _ _ Ha). now apply Hk.
Qed.

(** What a [center] that passed the rule of [renderImage] looks like. *)
Lemma renderImage_center_passed raw center :
  outcome (renderImage_center raw) = inr (Some center) ->
  List.length center = 2%nat /\
  (180 <? PrimFloat.abs (at_index center 0))%float = false /\
  (90 <? PrimFloat.abs (at_index center 1))%float = false.
Proof.
  unfold renderImage_center. destruct raw as [raw |]; [| discriminate].
  set (c := decode_list raw).
  destruct (List.length c =? 2)%nat eqn:El; cbn [negb throw_if]; [| discriminate].
  rewrite bind_ret.
  destruct (JsNum.isFinite (at_index c 0)); cbn [negb orb]; [| discriminate].
  destruct (180 <? PrimFloat.abs (at_index c 0))%float eqn:E0; cbn [throw_if];
    [discriminate |].
  rewrite bind_ret.
  destruct (JsNum.isFinite (at_index c 1)); cbn [negb orb]; [| discriminate].
  destruct (90 <? PrimFloat.abs (at_index c 1))%float eqn:E1; cbn [throw_if];
    [discriminate |].
  rewrite bind_ret. intros [= <-]. apply Nat.eqb_eq in El. auto.
Qed.

Lemma renderImage_zoom_passed raw zoom :
  outcome (renderImage_zoom raw) = inr (Some zoom) ->
  ((zoom <? 0) || (22 <? zoom))%float = false.
Proof.
  unfold renderImage_zoom. destruct raw as [z |]; [| discriminate].
  destruct ((parseFloat z <? 0) || (22 <? parseFloat z))%float eqn:E; cbn; [discriminate |].
  intros [= <-]. exact E.
Qed.

Lemma renderImage_bounds_passed raw bounds :
  outcome (renderImage_bounds raw) = inr (Some bounds) -> List.length bounds = 4%nat.
Proof.
  unfold renderImage_bounds. destruct raw as [raw |]; [| discriminate].
  set (b := decode_list raw).
  destruct (List.length b =? 4)%nat eqn:El; cbn [negb throw_if]; [| discriminate].
  rewrite bind_ret. intros H. apply Nat.eqb_eq in El.
  repeat match type of H with
         | context [throw_if ?c ?e] =>
             destruct c; cbn [throw_if] in H; [discriminate H | rewrite bind_ret in H]
         end.
  now injection H as <-.
Qed.

Lemma renderImage_bearing_passed bearing :
  outcome (renderImage_bearing bearing) = inr tt ->
  match bearing with
  | Some b => ((b <? 0) || (360 <? b))%float = false
  | None => True
  end.
Proof.
  destruct bearing as [b |]; [| trivial]. unfold renderImage_bearing.
  destruct ((b <? 0) || (360 <? b))%float; [discriminate | reflexivity].
Qed.

Lemma renderImage_pitch_passed pitch :
  outcome (renderImage_pitch pitch) = inr tt ->
  match pitch with
  | Some p => ((p <? 0) || (60 <? p))%float = false
  | None => True
  end.
Proof.
  destruct pitch as [p |]; [| trivial]. unfold renderImage_pitch.
  destruct ((p <? 0) || (60 <? p))%float; [discriminate | reflexivity].
Qed.

(** What an [images] that passed the rule of [renderImage] looks like. *)
Lemma renderImage_images_passed raw images :
  outcome (renderImage_images raw) = inr images ->
  match images with
  | Some entries => Forall (fun entry => JsStr.truthy (img_url (snd entry)) = true) entries
  | None => True
  end.
Proof.
  unfold renderImage_images. destruct raw as [raw |]; [| now intros [= <-]].
  match goal with
  | |- outcome (bind ?m _) = _ -> _ =>
      destruct (outcome_cases m) as [[e He] | [entries He]]
  end.
  { rewrite (bind_fail _ _ He). discriminate. }
  rewrite (outcome_bind_ok _ _ He). clear He.
  match goal with
  | |- outcome (bind ?m _) = _ -> _ =>
      destruct (outcome_cases m) as [[e He] | [us He]]
  end.
  { rewrite (bind_fail _ _ He). discriminate. }
  rewrite (outcome_bind_ok _ _ He). intros [= <-].
  revert us He. induction entries as [| entry entries IH]; intros us He; [constructor |].
  cbn [mapM] in He.
  match type of He with
  | outcome (bind ?m _) = _ => destruct (outcome_cases m) as [[e H1] | [u H1]]
  end.
  { rewrite (bind_fail _ _ H1) in He. discriminate He. }
  rewrite (outcome_bind_ok _ _ H1) in He.
  match type of He with
  | outcome (bind ?m _) = _ => destruct (outcome_cases m) as [[e H2] | [us' H2]]
  end.
  { rewrite (bind_fail _ _ H2) in He. discriminate He. }
  constructor; [| exact (IH _ H2)].
  destruct (JsStr.truthy (img_url (snd entry))); [reflexivity |].
  cbn in H1. discriminate H1.
Qed.

Ltac not_wrapped :=
  match goal with
  | |- raises _ processing_not_prevalidated =>
      unfold processing_not_prevalidated;
      repeat first
        [ apply raises_ret
        | apply raises_throw; intros ? ?; discriminate
        | apply raises_throw_if; intros ? ?; discriminate
        | apply raises_bind; [| intros ?]
        | apply raises_mapM; intros ?
        | match goal with
          | |- raises (match ?x with _ => _ end) _ => destruct x
          | |- raises (if ?c then _ else _) _ => destruct c
          end ]
  end.

(** X6: A request that [renderImage] has validated is never refused by
    [render] for its center, zoom, bearing, pitch or the length of its
    bounds, nor for an icon without a url: an error that [render] raises
    on it is about something else. *)
Theorem render_accepts_validated_request
        (p : Params) (tilePath : option string) (e : exn) :
  outcome (renderImage p tilePath) = inl (ErrProcessing e) ->
  geometry_error e = false /\ forall id, e <> ErrInvalidImageUrl id.
Proof.
  intros H.
  assert (Hr : raises (renderImage p tilePath) processing_not_prevalidated).
  2:{ pose proof (Hr _ H e eq_refl) as Hn. unfold not_prevalidated in Hn.
      apply orb_false_iff in Hn. destruct Hn as [Hg Hi]. split; [exact Hg |].
      intros id ->. discriminate Hi. }
  clear H e. unfold renderImage.
  apply raises_bind; [unfold renderImage_style; not_wrapped | intros style].
  apply raises_bind_ok; [unfold renderImage_center; not_wrapped | intros center Hcenter].
  apply raises_bind_ok; [unfold renderImage_zoom; not_wrapped | intros zoom Hzoom].
  apply raises_bind; [unfold renderImage_ratio; not_wrapped | intros _].
  apply raises_bind_ok; [unfold renderImage_bounds; not_wrapped | intros bounds Hbounds].
  apply raises_bind; [unfold renderImage_padding; not_wrapped | intros _].
  apply raises_bind_ok; [unfold renderImage_bearing; not_wrapped | intros [] Hbearing].
  apply raises_bind_ok; [unfold renderImage_pitch; not_wrapped | intros [] Hpitch].
  apply raises_bind; [unfold renderImage_viewport; not_wrapped | intros _].
  apply raises_bind_ok; [unfold renderImage_images; not_wrapped | intros images Himages].
  apply raises_bind; [unfold renderImage_imports; not_wrapped | intros _].
  intros e He e' ->.
  destruct style as [style |]; [| cbn in He; now injection He as <-].
  revert He.
  match goal with
  | |- outcome (try_catch ?m _) = _ -> _ =>
      assert (Hm : raises m not_prevalidated)
  end.
  { apply render_after_checks_not_prevalidated;
      [| exact (loadImages_not_prevalidated _ (renderImage_images_passed _ Himages))].
    unfold render_checks.
    cbn [o_center o_zoom o_bearing o_pitch o_bounds o_padding].
    apply raises_bind; [apply raises_throw_if; auto | intros _].
    apply raises_bind; [| intros _].
    { destruct center as [c |]; [| apply raises_ret].
      destruct (renderImage_center_passed _ Hcenter) as (Hl & H0 & H1).
      rewrite Hl, H0, H1. cbn. apply raises_ret. }
    apply raises_bind; [| intros _].
    { destruct zoom as [z |]; [| apply raises_ret].
      rewrite (renderImage_zoom_passed _ Hzoom). apply raises_ret. }
    apply raises_bind; [| intros _].
    { pose proof (renderImage_bearing_passed _ Hbearing) as Hb.
      destruct (p_bearing p); [rewrite Hb |]; apply raises_ret. }
    apply raises_bind; [| intros _].
    { pose proof (renderImage_pitch_passed _ Hpitch) as Hb.
      destruct (p_pitch p); [rewrite Hb |]; apply raises_ret. }
    destruct bounds as [b |]; [| apply raises_ret].
    rewrite (renderImage_bounds_passed _ Hbounds). cbn [Nat.eqb negb throw_if].
    rewrite bind_ret.
    destruct (ReqNum.truthy (p_padding p)); [| apply raises_ret].
    apply raises_bind; [apply raises_throw_if; auto | intros _].
    apply raises_throw_if; auto. }
  destruct (render _ _ _ _) as [t [e0 | png]]; cbn; [| discriminate].
  intros [= <-]. apply Hm. reflexivity.
Qed.

End Composition.

Section Wrapping.
Context {P : Platform}.

Lemma validation_step (A B : Type) (m : M A) (k : A -> M B) (e : exn) (W : Prop) :
  silent m -> raises m (fun e => validation_error e = true) ->
  (forall a, outcome (k a) = inl e -> W \/ validation_error e = true /\ log (k a) = []) ->
  outcome (bind m k) = inl e ->
  W \/ validation_error e = true /\ log (bind m k) = [].
Proof.
  intros Hs Hr Hk. destruct (silent_cases Hs) as [[e0 E] | [a E]]; rewrite E.
  - rewrite bind_throw. intros [= <-]. right. split; [| reflexivity].
    apply Hr. now rewrite E.
  - rewrite bind_ret. apply Hk.
Qed.

(** X7: How a request fails: with an error of the validation, raised before
    anything was called and passed on as it is, or with an error of
    [render], always wrapped as a processing error. *)
Theorem renderImage_failure_shape (p : Params) (tilePath : option string) (e : exn) :
  outcome (renderImage p tilePath) = inl e ->
  (exists e' style options,
      e = ErrProcessing e' /\
      outcome (render style (parseInt10 (p_width p)) (parseInt10 (p_height p)) options)
      = inl e' /\
      o_tilePath options = tilePath /\ o_ratio options = p_ratio p /\
      o_padding options = p_padding p /\ o_token options = p_token p) \/
  (validation_error e = true /\ log (renderImage p tilePath) = []).
Proof.
  unfold renderImage.
  apply validation_step;
    [apply silent_renderImage_style | unfold renderImage_style; raising | intros style].
  apply validation_step;
    [apply silent_renderImage_center | unfold renderImage_center; raising | intros center].
  apply validation_step;
    [apply silent_renderImage_zoom | unfold renderImage_zoom; raising | intros zoom].
  apply validation_step;
    [apply silent_renderImage_ratio | unfold renderImage_ratio; raising | intros _].
  apply validation_step;
    [apply silent_renderImage_bounds | unfold renderImage_bounds; raising | intros bounds].
  apply validation_step;
    [apply silent_renderImage_padding | unfold renderImage_padding; raising | intros _].
  apply validation_step;
    [apply silent_renderImage_bearing | unfold renderImage_bearing; raising | intros _].
  apply validation_step;
    [apply silent_renderImage_pitch | unfold renderImage_pitch; raising | intros _].
  apply validation_step;
    [apply silent_renderImage_viewport | unfold renderImage_viewport; raising | intros _].
  apply validation_step;
    [apply silent_renderImage_images | unfold renderImage_images; raising | intros images].
  apply validation_step;
    [apply silent_renderImage_imports | unfold renderImage_imports; raising | intros _].
  intros H. left.
  match type of H with
  | outcome (try_catch (render ?st _ _ ?options) _) = _ =>
      destruct (render st (parseInt10 (p_width p)) (parseInt10 (p_height p)) options)
        as [t [e0 | png]] eqn:Er; cbn in H; [| discriminate H];
      injection H as <-; exists e0, st, options
  end.
  rewrite Er. repeat split; reflexivity.
Qed.

End Wrapping.

(** ** More on fetching *)

Section MoreFetching.
Context {P : Platform}.

Lemma ok_iff (res : Response) : ok res = true <-> 200 <= status res <= 299.
Proof.
  unfold ok. rewrite andb_true_iff, !Z.leb_le. tauto.
Qed.

Lemma header_holds (name : string) (res : Response) :
  holds_header (header name res) name res.
Proof.
  unfold holds_header, header.
  destruct (JsObj.get name (headers res)) as [[| c v] |]; reflexivity.
Qed.

(** X8: A response with a status in 200..299 whose body can be read: the
    asset fetch hands over the bytes of the body with the [etag],
    [last-modified] and [expires] headers that are there, and the tile
    fetch hands over the same, except for 204, which it answers with
    [null].  When reading the body rejects, both call back with the error,
    the tile fetch again except for 204.  A fetch that rejects reaches
    both callbacks as the error. *)
Theorem fetch_ok_policy (url : string) :
  (forall res bytes,
     fetch url = Some res -> 200 <= status res <= 299 -> body res = Some bytes ->
     exists r,
       getRemoteAsset url = CallbackData (Some r) /\
       (status res <> 204 -> getRemoteTile url = CallbackData (Some r)) /\
       (status res = 204 -> getRemoteTile url = CallbackData None) /\
       data r = bytes /\
       holds_header (etag r) "etag" res /\
       holds_header (modified r) "last-modified" res /\
       holds_header (expires r) "expires" res) /\
  (forall res,
     fetch url = Some res -> 200 <= status res <= 299 -> body res = None ->
     getRemoteAsset url = CallbackErr (ErrBodyRejected url) /\
     (status res <> 204 -> getRemoteTile url = CallbackErr (ErrBodyRejected url)) /\
     (status res = 204 -> getRemoteTile url = CallbackData None)) /\
  (fetch url = None ->
   getRemoteAsset url = CallbackErr (ErrFetchRejected url) /\
   getRemoteTile url = CallbackErr (ErrFetchRejected url)).
Proof.
  assert (Htile : forall res, ok res = true -> status res <> 204 ->
                    (status res =? 204) = false /\ (status res =? 404) = false).
  { intros res Hok Hn. split; [now apply Z.eqb_neq |].
    destruct (status res =? 404) eqn:E; [| reflexivity].
    apply Z.eqb_eq in E. unfold ok in Hok. rewrite E in Hok. discriminate Hok. }
  split; [| split].
  - intros res bytes Hf Hok Hb. apply ok_iff in Hok.
    exists {| data := bytes; etag := header "etag" res;
              modified := header "last-modified" res;
              expires := header "expires" res |}.
    unfold getRemoteAsset, getRemoteTile, assetResponse, tileResponse.
    rewrite Hf, Hok, Hb. cbn [negb data etag modified expires].
    split; [reflexivity |]. split; [| split].
    + intros Hn. destruct (Htile res Hok Hn) as [-> ->]. reflexivity.
    + intros ->. reflexivity.
    + split; [reflexivity |]. repeat split; apply header_holds.
  - intros res Hf Hok Hb. apply ok_iff in Hok.
    unfold getRemoteAsset, getRemoteTile, assetResponse, tileResponse.
    rewrite Hf, Hok, Hb. cbn [negb]. split; [reflexivity | split].
    + intros Hn. destruct (Htile res Hok Hn) as [-> ->]. reflexivity.
    + intros ->. reflexivity.
  - intros Hf. unfold getRemoteAsset, getRemoteTile. now rewrite Hf.
Qed.

(** X9: Where the data a resource request is answered with comes from: the
    URL is not a [mapbox://] one, the kind is one of 2..7, and the URL
    was fetched; [null] data is the answer to a tile whose status was 204
    or 404, anything else is the body and headers of a response with a
    status in 200..299. *)
Theorem requestHandler_data_origin
        (url : string) (kind : Z) (d : option RequestResponse) :
  requestHandler url kind = CallbackData d ->
  isMapboxURL url = false /\ 2 <= kind <= 7 /\
  exists res,
    fetch url = Some res /\
    match d with
    | None => kind = 3 /\ (status res = 204 \/ status res = 404)
    | Some r => (exists bytes, body res = Some bytes /\ r = responseOf res bytes) /\
                             200 <= status res <= 299
    end.
Proof.
  unfold requestHandler. destruct (isMapboxURL url); [discriminate |].
  intros H. split; [reflexivity |].
  assert (Ha : getRemoteAsset url = CallbackData d ->
               exists res, fetch url = Some res /\
                 match d with
                 | None => kind = 3 /\ (status res = 204 \/ status res = 404)
                 | Some r => (exists bytes, body res = Some bytes /\ r = responseOf res bytes) /\
                             200 <= status res <= 299
                 end).
  { unfold getRemoteAsset, assetResponse.
    destruct (fetch url) as [res |]; [| discriminate].
    destruct (ok res) eqn:Eok; cbn [negb]; [| discriminate].
    destruct (body res) as [bytes |] eqn:Eb; [| discriminate].
    intros [= <-]. exists res. split; [reflexivity |].
    split; [exists bytes; split; [first [exact Eb | reflexivity] | reflexivity]
           | now apply ok_iff]. }
  assert (Ht : getRemoteTile url = CallbackData d -> kind = 3 ->
               exists res, fetch url = Some res /\
                 match d with
                 | None => kind = 3 /\ (status res = 204 \/ status res = 404)
                 | Some r => (exists bytes, body res = Some bytes /\ r = responseOf res bytes) /\
                             200 <= status res <= 299
                 end).
  { unfold getRemoteTile, tileResponse.
    destruct (fetch url) as [res |]; [| discriminate].
    intros Hr Hk. exists res. split; [reflexivity |].
    destruct (status res =? 204) eqn:E204.
    { injection Hr as <-. apply Z.eqb_eq in E204. auto. }
    destruct (status res =? 404) eqn:E404.
    { injection Hr as <-. apply Z.eqb_eq in E404. auto. }
    destruct (ok res) eqn:Eok; cbn [negb] in Hr; [| discriminate].
    destruct (body res) as [bytes |] eqn:Eb; [| discriminate].
    injection Hr as <-.
    split; [exists bytes; split; [first [exact Eb | reflexivity] | reflexivity]
           | now apply ok_iff]. }
  destruct kind as [| p | p]; try discriminate H.
  repeat (match type of H with
          | context [match ?q with _ => _ end] => is_var q; destruct q
          end; try discriminate H);
    (split; [lia |]); (apply Ha, H || (apply Ht; [exact H | reflexivity])).
Qed.

(** X10: What the download of an imported style gives: a document whose
    [version] is the number 8, the JSON body of a response with a status
    in 200..299, fetched from the URL itself unless that is a
    [mapbox://styles/] one; and every failure of the download other than
    one of the URL reaches the caller wrapped with the URL asked for. *)
Theorem getRemoteStyleImport_result (url : string) (token : option string) :
  (forall s,
     outcome (getRemoteStyleImport url token) = inr s ->
     JsVal.is_eight (version s) = true /\
     exists u res,
       fetch u = Some res /\ 200 <= status res <= 299 /\
       response_json res = Some (JsonObject s) /\
       (isMapboxStyleURL url = false -> u = url)) /\
  (forall e,
     outcome (getRemoteStyleImport url token) = inl e ->
     e = ErrNormalizeStyleURL url \/ e = ErrImportStyleURL \/
     exists u e', e = ErrImportFetch u e' /\
                  (isMapboxStyleURL url = false -> u = url) /\
                  (e' = ErrFetchRejected u \/ (exists st, e' = ErrRemoteJSON u st) \/
                   e' = ErrBodyNotJSON \/ e' = ErrCouldNotFetchImport u \/
                   e' = ErrInvalidImportStyle)).
Proof.
  unfold getRemoteStyleImport.
  assert (Hu : forall u, (isMapboxStyleURL url = false -> u = url) ->
    (forall s,
       outcome (throw_if (negb (JsStr.truthy u)) ErrImportStyleURL ;;;
                try_catch
                  (importedStyle <- getRemoteJSON u ;;
                   match importedStyle with
                   | JsonFalsy => throw (ErrCouldNotFetchImport u)
                   | JsonNonObject => throw ErrInvalidImportStyle
                   | JsonObject s =>
                       if negb (JsVal.is_eight (version s)) then throw ErrInvalidImportStyle
                       else ret s
                   end)
                  (fun e => throw (ErrImportFetch u e))) = inr s ->
       JsVal.is_eight (version s) = true /\
       exists u res,
         fetch u = Some res /\ 200 <= status res <= 299 /\
         response_json res = Some (JsonObject s) /\
         (isMapboxStyleURL url = false -> u = url)) /\
    (forall e,
       outcome (throw_if (negb (JsStr.truthy u)) ErrImportStyleURL ;;;
                try_catch
                  (importedStyle <- getRemoteJSON u ;;
                   match importedStyle with
                   | JsonFalsy => throw (ErrCouldNotFetchImport u)
                   | JsonNonObject => throw ErrInvalidImportStyle
                   | JsonObject s =>
                       if negb (JsVal.is_eight (version s)) then throw ErrInvalidImportStyle
                       else ret s
                   end)
                  (fun e => throw (ErrImportFetch u e))) = inl e ->
       e = ErrNormalizeStyleURL url \/ e = ErrImportStyleURL \/
       exists u e', e = ErrImportFetch u e' /\
                    (isMapboxStyleURL url = false -> u = url) /\
                    (e' = ErrFetchRejected u \/ (exists st, e' = ErrRemoteJSON u st) \/
                     e' = ErrBodyNotJSON \/ e' = ErrCouldNotFetchImport u \/
                     e' = ErrInvalidImportStyle))).
  { intros u Hurl.
    destruct (JsStr.truthy u); cbn [negb throw_if].
    2:{ rewrite bind_throw. split; [discriminate | intros e [= <-]; auto]. }
    rewrite bind_ret. unfold getRemoteJSON.
    destruct (fetch u) as [res |] eqn:Ef.
    2:{ split; [discriminate | intros e [= <-]]. right. right.
        exists u, (ErrFetchRejected u). auto. }
    destruct (ok res) eqn:Eok; cbn [negb].
    2:{ split; [discriminate | intros e [= <-]]. right. right.
        exists u, (ErrRemoteJSON u (status res)). eauto 6. }
    destruct (response_json res) as [[| | s] |] eqn:Ej.
    - split; [discriminate | intros e [= <-]]. right. right.
      exists u, (ErrCouldNotFetchImport u). auto 7.
    - split; [discriminate | intros e [= <-]]. right. right.
      exists u, ErrInvalidImportStyle. auto 7.
    - rewrite bind_ret. destruct (JsVal.is_eight (version s)) eqn:Ev; cbn [negb].
      + split; [| discriminate]. intros s' [= <-]. split; [exact Ev |].
        exists u, res. repeat split; try assumption; now apply ok_iff.
      + split; [discriminate | intros e [= <-]]. right. right.
        exists u, ErrInvalidImportStyle. auto 7.
    - split; [discriminate | intros e [= <-]]. right. right.
      exists u, ErrBodyNotJSON. auto 7. }
  destruct (isMapboxStyleURL url) eqn:Em.
  - unfold normalizeMapboxStyleURL.
    destruct (URL_pathname url) as [pathname |].
    + destruct (URL_with_params _ _) as [u |].
      * rewrite bind_ret. apply Hu. discriminate.
      * rewrite bind_throw. split; [discriminate | intros e [= <-]; auto].
    + rewrite bind_throw. split; [discriminate | intros e [= <-]; auto].
  - rewrite bind_ret. apply Hu. reflexivity.
Qed.

(** X11: One import that cannot be downloaded fails the whole request before
    the engine is called, whatever the other imports are. *)
Theorem render_fails_on_bad_import
        (style : StyleDoc) (width height : float) (options : Options)
        (imports : list ImportRef) (imp : ImportRef) :
  o_imports options = Some imports -> In imp imports ->
  failed (getRemoteStyleImport (imp_url imp) (o_token options)) ->
  rejected (render (Some style) width height options).
Proof.
  intros Hi Hin Hf. unfold render.
  destruct (silent_cases (silent_render_checks width height options))
    as [[e ->] | [[] ->]].
  { rewrite bind_throw. now exists e. }
  rewrite bind_ret. destruct (resolveViewport _ _ _ _ _ _) as [zoom center].
  assert (Hr : failed (resolveImports style options)).
  { unfold resolveImports. rewrite Hi.
    destruct imports as [| i0 rest]; [contradiction |].
    cbn [List.length Nat.ltb Nat.leb].
    apply failed_bind_l.
    apply (@failed_mapM _ _ _ (i0 :: rest) imp Hin).
    now apply failed_bind_l. }
  destruct (silent_cases (silent_resolveImports style options))
    as [[e He] | [cs Hcs]].
  - rewrite He, bind_throw. now exists e.
  - rewrite Hcs in Hr. destruct Hr as [e He]. discriminate He.
Qed.

End MoreFetching.

(** ** More on merging *)

Section MoreMerging.
Context {P : Platform}.

Lemma fillField_eq is_type (cur v : option jsval) :
  fillField is_type cur v = if is_type v && negb (JsVal.truthy cur) then v else cur.
Proof. reflexivity. Qed.

Lemma fold_fillField_truthy is_type (vals : list (option jsval)) (cur : option jsval) :
  JsVal.truthy cur = true -> fold_left (fillField is_type) vals cur = cur.
Proof.
  revert cur. induction vals as [| v vals IH]; intros cur Ht; [reflexivity |].
  cbn [fold_left]. rewrite fillField_eq, Ht, andb_false_r. now apply IH.
Qed.

Lemma fold_fillField_filled is_type (vals : list (option jsval)) (cur : option jsval) :
  filled is_type cur (fold_left (fillField is_type) vals cur) vals.
Proof.
  unfold filled. split; [apply fold_fillField_truthy | split].
  - revert cur. induction vals as [| v vals IH]; intros cur; [now left |].
    cbn [fold_left]. rewrite fillField_eq.
    destruct (is_type v) eqn:Ety, (JsVal.truthy cur) eqn:Etc; cbn [andb negb].
    + left. now apply fold_fillField_truthy.
    + right. split; [reflexivity |].
      destruct (IH v) as [-> | (_ & w & Hin & Hw & ->)].
      * exists v. split; [now left | auto].
      * exists w. split; [now right | auto].
    + left. now apply fold_fillField_truthy.
    + destruct (IH cur) as [-> | (_ & w & Hin & Hw & ->)]; [now left |].
      right. split; [reflexivity |]. exists w. split; [now right | auto].
  - intros pre v post -> Hb Hpre Hty Htv. revert cur Hb.
    induction Hpre as [| w pre Hw _ IH]; intros cur Hb.
    + cbn [app fold_left]. rewrite fillField_eq, Hty, Hb. cbn [andb negb].
      now apply fold_fillField_truthy.
    + cbn [app fold_left]. rewrite fillField_eq.
      destruct Hw as [Hw | Hw].
      * rewrite Hw. cbn [andb]. now apply IH.
      * destruct (is_type w && negb (JsVal.truthy cur)); now apply IH.
Qed.

(** What merging one import does to the fields other than [sources] and
    [layers]. *)
Lemma mergeImport_fields (cs cs' : StyleDoc) (idx : nat) (imp : ImportedStyle) :
  mergeImport cs idx imp = ret cs' ->
  version cs' = version cs /\
  fog cs' = fillField JsVal.typeof_object (fog cs) (fog (is_style imp)) /\
  glyphs cs' = fillField JsVal.typeof_string (glyphs cs) (glyphs (is_style imp)) /\
  sprite cs' = fillField JsVal.typeof_string (sprite cs) (sprite (is_style imp)) /\
  mergeable imp /\ layers cs <> None /\ layers cs' <> None /\
  (sources cs <> None -> sources cs' <> None).
Proof.
  unfold mergeImport, mergeable.
  destruct (sources (is_style imp)) as [imported |]; [| discriminate].
  rewrite bind_ret.
  destruct (silent_cases (silent_addSources (importIdOf (is_id imp) idx) imported
                                            (JsObj.keys imported) cs))
    as [[e E1] | [cs1 E1]]; rewrite E1; [discriminate |].
  rewrite bind_ret.
  destruct (addSources_ok _ _ _ _ E1) as (Hl & Hf & Hg & Hs & Hv & _).
  assert (Hsrc : sources cs <> None -> sources cs1 <> None).
  { clear - E1. revert cs E1.
    induction (JsObj.keys imported) as [| key keys IH]; intros cs; cbn [foldM].
    - now intros [= <-].
    - unfold addSource at 1.
      destruct (sources cs) as [b |] eqn:Eb; [| intros _ Hc; now elim Hc].
      destruct (JsObj.get key imported); rewrite bind_ret; intros E _;
        apply (IH _ E); cbn [sources set_sources]; rewrite ?Eb; discriminate. }
  destruct (layers (is_style imp)) as [importedLayers |]; [| discriminate].
  rewrite bind_ret.
  destruct (layers cs1) as [baseLayers |] eqn:El; [| discriminate].
  rewrite bind_ret. intros [= <-]. unfold fillField.
  rewrite <- Hf, <- Hg, <- Hs, <- Hv, <- Hl.
  repeat match goal with |- context [if ?c then _ else _] => destruct c eqn:? end;
    cbn in *; repeat split; try congruence; try discriminate; auto.
Qed.

Lemma mergeImports_fields (importedStyles : list ImportedStyle) (idx : nat)
      (base merged : StyleDoc) :
  mergeImports idx importedStyles base = ret merged ->
  version merged = version base /\
  fog merged = fold_left (fillField JsVal.typeof_object)
                         (map (fun imp => fog (is_style imp)) importedStyles) (fog base) /\
  glyphs merged = fold_left (fillField JsVal.typeof_string)
                            (map (fun imp => glyphs (is_style imp)) importedStyles)
                            (glyphs base) /\
  sprite merged = fold_left (fillField JsVal.typeof_string)
                            (map (fun imp => sprite (is_style imp)) importedStyles)
                            (sprite base) /\
  Forall mergeable importedStyles /\
  (importedStyles <> [] -> layers base <> None).
Proof.
  revert idx base. induction importedStyles as [| imp rest IH]; intros idx base.
  - cbn [mergeImports]. intros [= <-]. repeat split; try reflexivity; [constructor | tauto].
  - cbn [mergeImports map fold_left].
    destruct (silent_cases (silent_mergeImport base idx imp))
      as [[e E1] | [cs1 E1]]; rewrite E1; [discriminate |].
    rewrite bind_ret. intros Hrest.
    destruct (mergeImport_fields _ _ _ E1) as (Hv & Hf & Hg & Hs & Hm & Hl & _).
    destruct (IH _ _ Hrest) as (Hv' & Hf' & Hg' & Hs' & Hm' & _).
    rewrite <- Hf, <- Hg, <- Hs. repeat split; try congruence.
    now constructor.
Qed.

(** X12: Merging imports never changes a [fog], [glyphs] or [sprite] the
    style has (a truthy one), nor its [version]; a field the style lacks
    is taken from the first import, in import order, that has a truthy
    value of the right type for it, and is never taken from a value of
    another type. *)
Theorem merge_fills_missing_fields
        (importedStyles : list ImportedStyle) (idx : nat) (base merged : StyleDoc) :
  mergeImports idx importedStyles base = ret merged ->
  version merged = version base /\
  filled JsVal.typeof_object (fog base) (fog merged)
         (map (fun imp => fog (is_style imp)) importedStyles) /\
  filled JsVal.typeof_string (glyphs base) (glyphs merged)
         (map (fun imp => glyphs (is_style imp)) importedStyles) /\
  filled JsVal.typeof_string (sprite base) (sprite merged)
         (map (fun imp => sprite (is_style imp)) importedStyles).
Proof.
  intros H. destruct (mergeImports_fields _ _ _ H) as (Hv & -> & -> & -> & _).
  split; [exact Hv |]. repeat split; apply fold_fillField_filled.
Qed.

(** X13: When the base style has its [sources], the merge goes through exactly
    when there is nothing to import, or the base style has its [layers]
    and every import has its [sources] and its [layers]. *)
Theorem merge_succeeds_iff
        (importedStyles : list ImportedStyle) (idx : nat) (base : StyleDoc) :
  sources base <> None ->
  ((exists merged, mergeImports idx importedStyles base = ret merged) <->
   importedStyles = [] \/
   (layers base <> None /\ Forall mergeable importedStyles)).
Proof.
  intros Hs. split.
  - intros [merged H]. destruct importedStyles as [| imp rest]; [now left |].
    right. destruct (mergeImports_fields _ _ _ H) as (_ & _ & _ & _ & Hm & Hl).
    split; [apply Hl; discriminate | exact Hm].
  - intros [-> | [Hl Hm]]; [exists base; reflexivity |].
    revert idx base Hs Hl.
    induction Hm as [| imp rest Himp _ IH]; intros idx base Hs Hl.
    + exists base. reflexivity.
    + cbn [mergeImports].
      assert (H1 : exists cs1, mergeImport base idx imp = ret cs1).
      { destruct Himp as [His Hil]. unfold mergeImport.
        destruct (sources (is_style imp)) as [imported |]; [| contradiction].
        rewrite bind_ret.
        assert (Hfold : forall keys cs, sources cs <> None ->
                   exists cs1, foldM (addSource (importIdOf (is_id imp) idx) imported) keys cs
                               = ret cs1).
        { induction keys as [| key keys IHk]; intros cs Hcs; cbn [foldM].
          - now exists cs.
          - unfold addSource at 1.
            destruct (sources cs) as [b |] eqn:Eb; [| contradiction].
            destruct (JsObj.get key imported); rewrite bind_ret; apply IHk;
              cbn [sources set_sources]; rewrite ?Eb; discriminate. }
        destruct (Hfold (JsObj.keys imported) base Hs) as (cs1 & E1).
        rewrite E1, bind_ret.
        destruct (addSources_ok _ _ _ _ E1) as (Hl1 & _).
        destruct (layers (is_style imp)) as [il |]; [| contradiction].
        rewrite bind_ret, Hl1.
        destruct (layers base) as [bl |]; [| contradiction].
        rewrite bind_ret. eexists. reflexivity. }
      destruct H1 as (cs1 & E1). rewrite E1, bind_ret.
      destruct (mergeImport_fields _ _ _ E1) as (_ & _ & _ & _ & _ & _ & Hl1 & Hs1).
      apply IH; auto.
Qed.

Lemma NoDup_map_injective (A B : Type) (f : A -> B) (l : list A) :
  (forall x y, f x = f y -> x = y) -> NoDup l -> NoDup (map f l).
Proof.
  intros Hf Hl. induction Hl as [| a l Ha _ IH]; cbn [map]; constructor; [| exact IH].
  intros Hin. apply in_map_iff in Hin. destruct Hin as (x & Hx & Hin).
  apply Hf in Hx. now subst x.
Qed.

(** X14: The sources of one import keep apart: distinct keys are stored under
    distinct names, so an import with [n] distinct keys claims [n] names. *)
Theorem imported_names_distinct (idx : nat) (imp : ImportedStyle)
        (imported : list (string * jsval)) :
  sources (is_style imp) = Some imported ->
  NoDup (JsObj.keys imported) ->
  NoDup (importedNames idx imp) /\
  List.length (importedNames idx imp) = List.length imported.
Proof.
  intros Hs Hk. unfold importedNames. rewrite Hs. split.
  - apply NoDup_map_injective; [| exact Hk].
    intros k1 k2. apply rewriteSource_inj.
  - unfold JsObj.keys. now rewrite !length_map.
Qed.

End MoreMerging.

(** ** The pattern for local tile archives, as a set of texts *)

Lemma lazy_run_true_iff (s : string) :
  lazy_run s = true <->
  exists name c after,
    s = (name ++ String c after)%string /\
    JsStr.no_space name = true /\ is_slash_or_quote c = true.
Proof.
  split.
  - induction s as [| x s IH]; cbn [lazy_run]; [discriminate |].
    destruct (is_slash_or_quote x) eqn:Ex.
    + intros _. exists EmptyString, x, s. auto.
    + destruct (JsStr.is_space x) eqn:Es; [discriminate |].
      intros H. destruct (IH H) as (name & c & after & -> & Hn & Hc).
      exists (String x name), c, after. cbn [append JsStr.no_space].
      rewrite Es. auto.
  - intros (name & c & after & -> & Hn & Hc).
    induction name as [| x name IH]; cbn [append lazy_run].
    + now rewrite Hc.
    + cbn [JsStr.no_space] in Hn. apply andb_prop in Hn. destruct Hn as [Hx Hn].
      apply negb_true_iff in Hx. rewrite Hx.
      destruct (is_slash_or_quote x); [reflexivity | now apply IH].
Qed.

Lemma prefix_ci_split (p s : string) :
  JsStr.prefix_ci p s = true ->
  exists scheme,
    s = (scheme ++ JsStr.drop (String.length p) s)%string /\
    String.length scheme = String.length p /\
    JsStr.prefix_ci p scheme = true.
Proof.
  revert s. induction p as [| a p IH]; intros s; cbn [JsStr.prefix_ci].
  - intros _. exists EmptyString. auto.
  - destruct s as [| b s]; [discriminate |]. intros H.
    apply andb_prop in H. destruct H as [Hab Hp].
    destruct (IH _ Hp) as (scheme & Hs & Hl & Hc).
    exists (String b scheme). cbn [append String.length JsStr.drop JsStr.prefix_ci].
    rewrite Hab, Hc, Hl. split; [now rewrite <- Hs | auto].
Qed.

Lemma prefix_ci_app (p scheme rest : string) :
  String.length scheme = String.length p ->
  JsStr.prefix_ci p scheme = true ->
  JsStr.prefix_ci p (scheme ++ rest)%string = true /\
  JsStr.drop (String.length p) (scheme ++ rest)%string = rest.
Proof.
  revert scheme. induction p as [| a p IH]; intros scheme Hl Hp.
  - destruct scheme; [| discriminate Hl]. auto.
  - destruct scheme as [| b scheme]; [discriminate Hl |].
    cbn [JsStr.prefix_ci] in Hp. apply andb_prop in Hp. destruct Hp as [Hab Hp].
    injection Hl as Hl. destruct (IH _ Hl Hp) as [H1 H2].
    cbn [append String.length JsStr.drop JsStr.prefix_ci]. now rewrite Hab, H1, H2.
Qed.

Lemma mbtiles_here_iff (s : string) :
  mbtiles_here s = true <->
  exists scheme name c after,
    s = (scheme ++ name ++ String c after)%string /\
    String.length scheme = 10%nat /\ JsStr.prefix_ci "mbtiles://" scheme = true /\
    name <> EmptyString /\ JsStr.no_space name = true /\ is_slash_or_quote c = true.
Proof.
  unfold mbtiles_here. split.
  - intros H. apply andb_prop in H. destruct H as [Hp Hr].
    destruct (prefix_ci_split _ _ Hp) as (scheme & Hs & Hl & Hc).
    change (String.length "mbtiles://") with 10%nat in *.
    destruct (JsStr.drop 10 s) as [| x rest]; [discriminate |].
    apply andb_prop in Hr. destruct Hr as [Hx Hr].
    apply lazy_run_true_iff in Hr. destruct Hr as (name & c & after & -> & Hn & Hcq).
    exists scheme, (String x name), c, after. cbn [append JsStr.no_space].
    rewrite Hx, Hn. repeat split; auto. discriminate.
  - intros (scheme & name & c & after & -> & Hl & Hp & Hne & Hn & Hc).
    destruct (@prefix_ci_app "mbtiles://" scheme (name ++ String c after) Hl Hp)
      as [H1 H2].
    change (String.length "mbtiles://") with 10%nat in H2. rewrite H1, H2.
    destruct name as [| x name]; [contradiction |].
    cbn [append andb]. cbn [JsStr.no_space] in Hn.
    apply andb_prop in Hn. destruct Hn as [Hx Hn]. rewrite Hx. cbn [andb].
    apply lazy_run_true_iff. eauto 7.
Qed.

(** X15: The texts the pattern matches: those that hold, anywhere, the ten
    characters [mbtiles://] in any letter case, then a non-empty run
    without white space, then a slash or a double quote. *)
Theorem MBTILES_REGEXP_iff (text : string) :
  MBTILES_REGEXP text = true <->
  exists before scheme name c after,
    text = (before ++ scheme ++ name ++ String c after)%string /\
    String.length scheme = 10%nat /\ JsStr.prefix_ci "mbtiles://" scheme = true /\
    name <> EmptyString /\ JsStr.no_space name = true /\ is_slash_or_quote c = true.
Proof.
  split.
  - induction text as [| x text IH].
    + cbn. discriminate.
    + change (MBTILES_REGEXP (String x text))
        with (mbtiles_here (String x text) || MBTILES_REGEXP text).
      intros H. apply orb_prop in H. destruct H as [H | H].
      * apply mbtiles_here_iff in H.
        destruct H as (scheme & name & c & after & H). exists EmptyString. eauto 6.
      * destruct (IH H) as (before & scheme & name & c & after & -> & H').
        exists (String x before), scheme, name, c, after. auto.
  - intros (before & scheme & name & c & after & -> & H).
    apply MBTILES_REGEXP_later. apply mbtiles_here_iff. eauto 8.
Qed.

(** ** The calls [render] makes *)

Lemma bind_emit_eq (B : Type) (ev : event) (k : unit -> M B) :
  bind (emit ev) k = (ev :: log (k tt), outcome (k tt)).
Proof. unfold bind, emit, log, outcome. destruct (k tt); reflexivity. Qed.

Lemma bind_ok_eq (A B : Type) (m : M A) (k : A -> M B) (a : A) :
  outcome m = inr a -> bind m k = (log m ++ log (k a), outcome (k a)).
Proof.
  destruct m as [t [e | a']]; cbn; intros H; [discriminate |].
  injection H as ->. destruct (k a); reflexivity.
Qed.

Section Engine.
Context {P : Platform}.

(** [render], once its checks have passed, the imports are merged and
    the style names no local tile archive. *)
Lemma render_engine_run
      (style cs : StyleDoc) (width height : float) (options : Options) :
  render_checks width height options = ret tt ->
  resolveImports style options = ret cs ->
  MBTILES_REGEXP (JSON_stringify cs) = false ->
  render (Some style) width height options = engine_run cs width height options.
Proof.
  intros Hc Hi Hm. unfold render, engine_run, renderOptionsOf.
  rewrite Hc, bind_ret.
  destruct (resolveViewport _ _ _ _ _ _) as [zoom center]. cbn [fst snd].
  rewrite Hi, bind_ret, Hm, throw_if_false, bind_ret, !bind_emit_eq.
  destruct (outcome_cases (loadImages (o_images options))) as [[e He] | [[] Hl]].
  - rewrite He, (bind_fail _ _ He). reflexivity.
  - rewrite Hl, (bind_ok_eq _ _ Hl). unfold renderMap.
    rewrite bind_emit_eq.
    destruct (map_render cs _) as [buffer |].
    + cbn [log outcome fst snd ret].
      rewrite (@bind_ok_eq _ _ ([_], inr buffer) _ buffer eq_refl).
      rewrite bind_emit_eq. unfold toPNG. rewrite bind_emit_eq.
      fold (rawImageOf buffer width height (o_ratio options)).
      destruct (png_encode _); cbn; rewrite <- ?app_assoc; reflexivity.
    + cbn. reflexivity.
Qed.

(** Either [render] stops before it creates a map, having called
    nothing, or it goes on as [engine_run] says. *)
Lemma render_cases (style : StyleDoc) (width height : float) (options : Options) :
  (exists e, render (Some style) width height options = throw e /\
             e <> ErrEncode /\ e <> ErrRenderer /\
             forall id e', e <> ErrLoadingIcon id e' /\ e <> ErrInvalidImageUrl id) \/
  (exists cs, render_checks width height options = ret tt /\
              resolveImports style options = ret cs /\
              MBTILES_REGEXP (JSON_stringify cs) = false /\
              render (Some style) width height options
              = engine_run cs width height options).
Proof.
  set (Q := fun e => e <> ErrEncode /\ e <> ErrRenderer /\
                     forall id e', e <> ErrLoadingIcon id e' /\ e <> ErrInvalidImageUrl id).
  assert (Hq : forall e, (match e with
                          | ErrEncode | ErrRenderer | ErrLoadingIcon _ _
                          | ErrInvalidImageUrl _ => False
                          | _ => True
                          end) -> Q e).
  { intros e He. unfold Q. destruct e; try contradiction; repeat split; discriminate. }
  assert (Hchecks : raises (render_checks width height options) Q).
  { unfold render_checks. raising; apply Hq; exact I. }
  assert (Himports : raises (resolveImports style options) Q).
  { unfold resolveImports, getRemoteStyleImport, normalizeMapboxStyleURL.
    destruct (o_imports options) as [imports |]; [| apply raises_ret].
    destruct (0 <? List.length imports)%nat; [| apply raises_ret].
    apply raises_bind.
    - raising; apply Hq; exact I.
    - intros l. generalize 0%nat. generalize style.
      induction l as [| imp l IH]; intros st n; cbn [mergeImports]; [apply raises_ret |].
      apply raises_bind; [| intros cs; apply IH].
      unfold mergeImport, addSource. raising; apply Hq; exact I. }
  destruct (silent_cases (silent_render_checks width height options))
    as [[e He] | [[] Hc]].
  { left. exists e. unfold render. rewrite He, bind_throw. split; [reflexivity |].
    apply Hchecks. now rewrite He. }
  destruct (silent_cases (silent_resolveImports style options))
    as [[e He] | [cs Hi]].
  { left. exists e. unfold render. rewrite Hc, bind_ret.
    destruct (resolveViewport _ _ _ _ _ _) as [zoom center].
    rewrite He, bind_throw. split; [reflexivity |].
    apply Himports. now rewrite He. }
  destruct (MBTILES_REGEXP (JSON_stringify cs)) eqn:Hm.
  { left. exists ErrLocalMbtiles. unfold render. rewrite Hc, bind_ret.
    destruct (resolveViewport _ _ _ _ _ _) as [zoom center].
    rewrite Hi, bind_ret, Hm, throw_if_true, bind_throw.
    split; [reflexivity | apply Hq; exact I]. }
  right. exists cs. repeat split; try assumption.
  now apply render_engine_run.
Qed.

Lemma loadImages_errors (images : option (list (string * ImageRef))) :
  raises (loadImages images)
         (fun e => exists id, e = ErrInvalidImageUrl id \/ exists e', e = ErrLoadingIcon id e').
Proof.
  unfold loadImages. destruct images as [entries |]; [| apply raises_ret].
  apply raises_bind; [| intros _; apply raises_ret].
  apply raises_mapM. intros [id image]. unfold loadImage. cbn [fst snd].
  apply raises_bind; [apply raises_throw_if; eauto | intros _].
  apply raises_try_catch_throw. eauto.
Qed.

Lemma log_loadImages_no_release (images : option (list (string * ImageRef))) :
  ~ In EvMapRelease (log (loadImages images)).
Proof.
  intros H. apply log_loadImages in H. destruct H as (? & ? & ? & ? & H). discriminate H.
Qed.




(** X17: The map is released exactly when the engine has delivered a buffer,
    that is when the request succeeds or fails only in the encoder; a
    request that fails while an icon loads or in the engine has created a
    map and leaves it unreleased. *)
Theorem map_released_iff_rendered
        (style : StyleDoc) (width height : float) (options : Options) :
  let run := render (Some style) width height options in
  (In EvMapRelease (log run) <->
   (exists png, outcome run = inr png) \/ outcome run = inl ErrEncode) /\
  (forall e,
     outcome run = inl e ->
     e = ErrRenderer \/ (exists id, e = ErrInvalidImageUrl id) \/
     (exists id e', e = ErrLoadingIcon id e') ->
     In (EvMapNew (o_ratio options)) (log run) /\ ~ In EvMapRelease (log run)).
Proof.
  cbv zeta.
  destruct (render_cases style width height options)
    as [(e & He & Hne & Hnr & Hni) | (cs & Hc & Hi & Hm & Hr)].
  - rewrite He. cbn [log outcome fst snd throw]. split.
    + split; [intros [] |]. intros [[png H] | H]; [discriminate H |].
      injection H as ->. now elim Hne.
    + intros e0 [= <-] [-> | [[id ->] | (id & e' & ->)]].
      * now elim Hnr.
      * now elim (proj2 (Hni id ErrRenderer)).
      * now elim (proj1 (Hni id e')).
  - rewrite Hr. unfold engine_run.
    pose proof (@loadImages_errors (o_images options)) as Herr.
    pose proof (@log_loadImages_no_release (o_images options)) as Hnorel.
    destruct (outcome (loadImages (o_images options))) as [e | []] eqn:Hl.
    { cbn [log outcome fst snd]. split.
      - split.
        + intros [H | [H | H]]; [discriminate H | discriminate H | contradiction].
        + intros [[png H] | H]; [discriminate H |]. injection H as ->.
          destruct (Herr _ Hl) as [id [H | [e' H]]]; discriminate H.
      - intros e0 [= <-] _. split; [now left |].
        intros [H | [H | H]]; [discriminate H | discriminate H | contradiction]. }
    destruct (map_render cs _) as [buffer |].
    + cbn [log outcome fst snd]. split.
      * split.
        -- intros _. destruct (png_encode _); eauto.
        -- intros _. right. right. apply in_or_app. right. right. now left.
      * intros e0 He0 Hshape. exfalso.
        destruct (png_encode _); [discriminate He0 |]. injection He0 as <-.
        destruct Hshape as [H | [[id H] | (id & e' & H)]]; discriminate H.
    + cbn [log outcome fst snd]. split.
      * split.
        -- intros [H | [H | H]]; [discriminate H | discriminate H |].
           apply in_app_or in H. destruct H as [H | [H | []]];
             [contradiction | discriminate H].
        -- intros [[png H] | H]; discriminate H.
      * intros e0 _ _. split; [now left |].
        intros [H | [H | H]]; [discriminate H | discriminate H |].
        apply in_app_or in H. destruct H as [H | [H | []]];
          [contradiction | discriminate H].
Qed.

Lemma Math_max_0_not_negative (x : float) : (JsNum.Math_max x 0 <? 0)%float = false.
Proof.
  unfold JsNum.Math_max.
  destruct (PrimFloat.is_nan x || PrimFloat.is_nan 0)%float; [reflexivity |].
  destruct (x <? 0)%float eqn:E1; [reflexivity |].
  destruct (0 <? x)%float; [exact E1 |].
  destruct (PrimFloat.get_sign x); [reflexivity | exact E1].
Qed.

(** X18: The viewport the engine gets when [render] calls it: without
    [bounds], the [zoom] and [center] of the request as they came, absent
    ones included; with [bounds] and one of the two absent, a zoom that is
    never below 0. *)
Theorem render_viewport_without_rule
        (style : StyleDoc) (width height : float) (options : Options) (o : RenderOptions) :
  In (EvMapRender o) (log (render (Some style) width height options)) ->
  o = renderOptionsOf width height options /\
  (o_bounds options = None ->
   r_zoom o = o_zoom options /\ r_center o = o_center options) /\
  (o_bounds options <> None -> o_zoom options = None \/ o_center options = None ->
   exists zoom, r_zoom o = Some zoom /\ (zoom <? 0)%float = false).
Proof.
  intros H. apply render_calls_renderer_with in H. fold (renderOptionsOf width height options) in H.
  split; [exact H |]. subst o. unfold renderOptionsOf, resolveViewport. cbn [r_zoom r_center].
  split.
  - intros ->. split; reflexivity.
  - intros Hb Hmissing. destruct (o_bounds options) as [b |]; [| contradiction].
    assert (Hn : is_null (o_zoom options) || is_null (o_center options) = true).
    { destruct Hmissing as [-> | ->]; [reflexivity | apply orb_true_r]. }
    rewrite Hn. cbn [fst]. eexists. split; [reflexivity |].
    apply Math_max_0_not_negative.
Qed.

End Engine.

(** ** More on icons *)

Lemma prefix_empty (s : string) : String.prefix EmptyString s = true.
Proof. destruct s; reflexivity. Qed.

Lemma prefix_app (p s t : string) :
  String.prefix p s = true -> String.prefix p (s ++ t)%string = true.
Proof.
  revert s. induction p as [| a p IH]; intros s; [intros _; apply prefix_empty |].
  destruct s as [| b s]; [discriminate |]. cbn [String.prefix append].
  destruct (ascii_dec a b); [apply IH | discriminate].
Qed.

(** Before the first comma of a text, [base64,] cannot start anywhere but
    right in front of it. *)
Lemma marker_not_prefix (pre rest : string) :
  pre <> EmptyString -> count_char "," pre = 0%nat ->
  String.prefix "base64," (pre ++ "base64," ++ rest)%string = false.
Proof.
  intros Hne Hc.
  destruct pre as [| c1 [| c2 [| c3 [| c4 [| c5 [| c6 [| c7 pre]]]]]]];
    [contradiction | ..]; cbn [append String.prefix];
    repeat (match goal with
            | |- context [ascii_dec ?a ?b] => destruct (ascii_dec a b) as [<- | ?]
            end; try reflexivity);
    try discriminate Hc.
Qed.

Lemma count_char_cons_0 (c x : ascii) (s : string) :
  count_char c (String x s) = 0%nat -> count_char c s = 0%nat.
Proof. cbn [count_char]. destruct (Ascii.eqb c x); [discriminate | tauto]. Qed.

Lemma split_go_marker (pre payload acc : string) :
  count_char "," pre = 0%nat -> JsStr.includes "base64," payload = false ->
  JsStr.split_go "base64," 0 acc (pre ++ "base64," ++ payload)%string
  = [(acc ++ pre)%string; payload].
Proof.
  intros Hc Hp. revert acc Hc. induction pre as [| c pre IH]; intros acc Hc.
  - assert (Hm : String.prefix "base64," (String "b" ("ase64," ++ payload)%string) = true).
    { cbn. apply prefix_empty. }
    change (("" ++ "base64," ++ payload)%string)
      with (String "b" ("ase64," ++ payload)%string) in *.
    cbn [JsStr.split_go]. rewrite Hm. cbn.
    rewrite (@split_go_without "base64," EmptyString payload Hp).
    now rewrite append_empty_r.
  - change ((String c pre ++ "base64," ++ payload)%string)
      with (String c (pre ++ "base64," ++ payload)%string).
    cbn [JsStr.split_go].
    change (String c (pre ++ "base64," ++ payload)%string)
      with ((String c pre ++ "base64," ++ payload)%string).
    rewrite (@marker_not_prefix (String c pre) payload); [| discriminate | exact Hc].
    rewrite (IH _ (count_char_cons_0 _ _ _ Hc)), append_snoc. reflexivity.
Qed.

Section MoreIcons.
Context {P : Platform}.

(** X19: What loading one icon amounts to.  When it succeeds, one image has
    been added, under the icon's id, with the pixel ratio and the [sdf]
    flag of the request or else 1 and [false], decoded from a buffer that,
    for a URL that is not a [data:] one, is the body of a response with a
    status in 200..299.  When it fails, the error names the icon. *)
Theorem loadImage_result (id : string) (image : ImageRef) :
  (outcome (loadImage id image) = inr tt ->
   exists buffer d,
     sharp_decode buffer = Some d /\ map_addImage id d = true /\
     log (loadImage id image) = [EvAddImage id d (pixelRatioOf image) (sdfOf image)] /\
     img_url image <> EmptyString /\
     (JsStr.startsWith "data:" (img_url image) = false ->
      exists res, fetch (img_url image) = Some res /\ 200 <= status res <= 299 /\
                  body res = Some buffer)) /\
  (forall e, outcome (loadImage id image) = inl e ->
             e = ErrInvalidImageUrl id \/ exists e', e = ErrLoadingIcon id e') /\
  (img_url image = EmptyString -> loadImage id image = throw (ErrInvalidImageUrl id)).
Proof.
  unfold loadImage. fold (pixelRatioOf image). fold (sdfOf image).
  destruct (img_url image) as [| c url] eqn:Eurl.
  { cbn. repeat split; try discriminate. intros e [= <-]. now left. }
  set (u := String c url) in *.
  change (JsStr.truthy u) with true. cbn [negb throw_if]. rewrite bind_ret.
  split; [| split; [| discriminate]].
  2:{ intros e H. right.
      match type of H with
      | outcome (try_catch ?m _) = _ => destruct m as [t [e0 | []]]
      end; cbn in H; [| discriminate H]. injection H as <-. eauto. }
  intros H.
  match type of H with
  | outcome (try_catch (bind ?m ?k) _) = _ =>
      assert (Hm : exists buffer,
                 m = ret buffer /\
                 (JsStr.startsWith "data:" u = false ->
                  exists res, fetch u = Some res /\ 200 <= status res <= 299 /\
                              body res = Some buffer))
  end.
  { destruct (JsStr.startsWith "data:" u) eqn:Ed.
    - destruct (nth_error (JsStr.split "base64," u) 1) as [payload |].
      + eexists. split; [reflexivity | discriminate].
      + cbn in H. discriminate H.
    - unfold getRemoteAssetPromise, getRemoteAsset, assetResponse in *.
      destruct (fetch u) as [res |]; [| cbn in H; discriminate H].
      destruct (ok res) eqn:Eok; cbn [negb] in *; [| cbn in H; discriminate H].
      destruct (body res) as [bytes |] eqn:Eb; [| cbn in H; discriminate H].
      rewrite !bind_ret. exists bytes. split; [reflexivity |]. intros _.
      exists res. split; [reflexivity |]. split; [now apply ok_iff | exact Eb]. }
  destruct Hm as (buffer & Hm & Hfetch). rewrite Hm, bind_ret in H |- *.
  exists buffer.
  destruct (sharp_decode buffer) as [d |]; [| cbn in H; discriminate H].
  exists d. destruct (map_addImage id d); [| cbn in H; discriminate H].
  repeat split; auto. discriminate.
Qed.

(** X20: An icon given inline, as [data:...base64,payload] with no comma
    before the marker and no second marker: the bytes decoded are those
    of the payload, nothing is fetched for it, and the icon is added when
    they decode to an image. *)
Theorem inline_icon_decodes_payload
        (id : string) (image : ImageRef) (pre payload : string) :
  img_url image = (pre ++ "base64," ++ payload)%string ->
  JsStr.startsWith "data:" pre = true ->
  count_char "," pre = 0%nat ->
  JsStr.includes "base64," payload = false ->
  loadImage id image
  = match sharp_decode (base64_decode payload) with
    | None => throw (ErrLoadingIcon id ErrDecodeImage)
    | Some d =>
        ([EvAddImage id d (pixelRatioOf image) (sdfOf image)],
         if map_addImage id d then inr tt else inl (ErrLoadingIcon id ErrAddImage))
    end.
Proof.
  intros Hurl Hdata Hc Hp. unfold loadImage.
  fold (pixelRatioOf image). fold (sdfOf image). rewrite Hurl.
  assert (Hd : JsStr.startsWith "data:" (pre ++ "base64," ++ payload) = true).
  { now apply prefix_app. }
  rewrite (@startsWith_data_truthy _ Hd), Hd. cbn [negb throw_if]. rewrite bind_ret.
  unfold JsStr.split. rewrite (@split_go_marker pre payload EmptyString Hc Hp).
  cbn [nth_error]. rewrite bind_ret.
  destruct (sharp_decode (base64_decode payload)) as [d |]; [| reflexivity].
  destruct (map_addImage id d); reflexivity.
Qed.

(** X21: The icons are what [render] adds to the map and nothing else: every
    image added carries the id of an icon of the request, with that
    icon's pixel ratio and [sdf] flag or the defaults; a request without
    images adds none. *)
Theorem render_adds_requested_icons
        (style : StyleDoc) (width height : float) (options : Options)
        (id : string) (d : DecodedImage) (pixelRatio : float) (sdf : bool) :
  In (EvAddImage id d pixelRatio sdf) (log (render (Some style) width height options)) ->
  exists entries image,
    o_images options = Some entries /\ In (id, image) entries /\
    pixelRatio = pixelRatioOf image /\ sdf = sdfOf image /\
    img_url image <> EmptyString /\
    exists buffer, sharp_decode buffer = Some d.
Proof.
  unfold render.
  destruct (silent_cases (silent_render_checks width height options))
    as [[e ->] | [[] ->]]; [intros []| rewrite bind_ret].
  destruct (resolveViewport _ _ _ _ _ _) as [zoom center].
  destruct (silent_cases (silent_resolveImports style options))
    as [[e ->] | [cs ->]]; [intros [] | rewrite bind_ret].
  destruct (MBTILES_REGEXP (JSON_stringify cs)); [intros [] |].
  rewrite throw_if_false, bind_ret, !log_bind_emit.
  intros [H | [H | H]]; [discriminate H | discriminate H |].
  apply In_log_bind in H. destruct H as [H | (_ & _ & H)].
  - unfold loadImages in H. destruct (o_images options) as [entries |]; [| contradiction].
    apply In_log_bind in H. destruct H as [H | (_ & _ & H)]; [| contradiction].
    apply In_log_mapM in H. destruct H as ([id' image] & Hin & H). cbn [fst snd] in H.
    exists entries, image.
    assert (Hshape : id' = id /\ pixelRatio = pixelRatioOf image /\ sdf = sdfOf image /\
                     img_url image <> EmptyString /\
                     exists buffer, sharp_decode buffer = Some d).
    { unfold loadImage in H. fold (pixelRatioOf image) in H. fold (sdfOf image) in H.
      apply In_log_bind in H. destruct H as [H | (u & Hu & H)].
      { rewrite silent_throw_if in H. contradiction. }
      assert (Hne : img_url image <> EmptyString).
      { intros E. rewrite E in Hu. discriminate Hu. }
      apply In_log_try_catch_throw in H.
      apply In_log_bind in H. destruct H as [H | (buffer & _ & H)].
      { exfalso. revert H. unfold getRemoteAssetPromise.
        match goal with
        | |- In _ (log ?m) -> _ => assert (Hs : silent m) by silence
        end.
        rewrite Hs. tauto. }
      destruct (sharp_decode buffer) as [d' |] eqn:Ed; [| contradiction].
      rewrite log_bind_emit in H. destruct H as [H | H].
      - injection H as <- <- <- <-. eauto 7.
      - rewrite silent_throw_if in H. contradiction. }
    destruct Hshape as (-> & Hshape). auto.
  - exfalso. apply In_log_bind in H. destruct H as [H | (buffer & _ & H)].
    { unfold renderMap in H. rewrite log_bind_emit in H. destruct H as [H | H].
      - discriminate H.
      - destruct (map_render _ _); contradiction. }
    rewrite log_bind_emit in H. destruct H as [H | H]; [discriminate H |].
    unfold toPNG in H. rewrite log_bind_emit in H. destruct H as [H | H]; [discriminate H |].
    destruct (png_encode _); contradiction.
Qed.

End MoreIcons.

(** ** More on the pixel conversion *)

Lemma trunc_Z_shift (x : float) : JsNum.trunc_Z x = trunc_shift x.
Proof.
  unfold JsNum.trunc_Z, trunc_shift. destruct (Prim2SF x) as [| | | s m e]; try reflexivity.
  destruct (0 <=? e) eqn:E.
  - apply Z.leb_le in E. now rewrite Z.shiftl_mul_pow2.
  - apply Z.leb_gt in E. rewrite Z.shiftr_div_pow2 by lia. reflexivity.
Qed.

Lemma In_below (n : nat) (z : Z) : 0 <= z < Z.of_nat n -> In z (below n).
Proof.
  intros H. unfold below. apply in_map_iff. exists (Z.to_nat z).
  split; [lia |]. apply in_seq. lia.
Qed.

Lemma channels_restored_bytes : channels_restored (below 256) = true.
Proof. vm_compute. reflexivity. Qed.

Lemma channels_restored_In (bytes : list Z) (c a : Z) :
  channels_restored bytes = true -> In a bytes -> In c bytes ->
  c <= a -> a <> 0 -> channel_restored c a = true.
Proof.
  unfold channels_restored. intros H Ha Hc Hle Hne.
  rewrite forallb_forall in H. specialize (H a Ha).
  rewrite forallb_forall in H. specialize (H c Hc).
  assert (E1 : (a <? c) = false) by (apply Z.ltb_ge; lia).
  assert (E2 : (a =? 0) = false) by (now apply Z.eqb_neq).
  now rewrite E1, E2 in H.
Qed.

Lemma channel_restored_holds (c a : Z) :
  0 <= c <= a -> 0 < a <= 255 -> channel_restored c a = true.
Proof.
  intros Hc Ha.
  apply (@channels_restored_In (below 256) c a channels_restored_bytes);
    try (apply In_below); lia.
Qed.

Lemma unpremultiplied_channel_shift (c a : Z) :
  a <> 0 ->
  unpremultiplied_channel c a
  = trunc_shift (JsNum.of_Z c / (JsNum.of_Z a / 255))%float mod 256.
Proof.
  intros Ha. unfold unpremultiplied_channel, JsNum.ToUint8.
  apply Z.eqb_neq in Ha. now rewrite Ha, trunc_Z_shift.
Qed.

Lemma opaque_channel_kept (c : Z) : is_u8 c -> unpremultiplied_channel c 255 = c.
Proof.
  intros Hc. unfold is_u8 in Hc.
  assert (H : channel_restored c 255 = true) by (apply channel_restored_holds; lia).
  unfold channel_restored in H. rewrite <- unpremultiplied_channel_shift in H by lia.
  apply andb_prop in H. destruct H as [_ H].
  apply orb_prop in H. destruct H as [H | H]; [discriminate H | now apply Z.eqb_eq].
Qed.


(** X22: What [toPNG] stores for a colour byte [c] that is premultiplied by
    its alpha byte [a] (so [c <= a]): the quotient [255 c / a] rounded
    down or one less, never a wrapped value; for an opaque pixel the byte
    itself. *)
Theorem premultiplied_channel_restored (c a : Z) :
  0 <= c <= a -> 0 < a <= 255 ->
  255 * c / a - 1 <= unpremultiplied_channel c a <= 255 * c / a /\
  unpremultiplied_channel c a <= 255 /\
  (a = 255 -> unpremultiplied_channel c a = c).
Proof.
  intros Hc Ha.
  pose proof (channel_restored_holds Hc Ha) as H. unfold channel_restored in H.
  rewrite <- unpremultiplied_channel_shift in H by lia.
  apply andb_prop in H. destruct H as [H H3].
  apply andb_prop in H. destruct H as [H1 H2].
  apply Z.leb_le in H1, H2. split; [lia |]. split.
  - assert (255 * c / a <= 255); [| lia].
    apply Z.div_le_upper_bound; nia.
  - intros ->. apply orb_prop in H3. destruct H3 as [H3 | H3];
      [discriminate H3 | now apply Z.eqb_eq].
Qed.

Lemma unpremultiplied_opaque (fuel : nat) (buffer : list Z) :
  (List.length buffer <= fuel)%nat ->
  Forall is_u8 buffer -> opaque buffer ->
  unpremultiplied buffer = buffer /\ (List.length buffer mod 4 = 0)%nat.
Proof.
  revert buffer. induction fuel as [| fuel IH]; intros buffer Hf Hb Ho.
  - destruct buffer; [split; reflexivity | simpl in Hf; lia].
  - destruct buffer as [| r [| g [| b [| a rest]]]]; try contradiction.
    { split; reflexivity. }
    cbn [opaque] in Ho. destruct Ho as [-> Ho].
    inversion Hb as [| ? ? Hr Hb1]; subst. inversion Hb1 as [| ? ? Hg Hb2]; subst.
    inversion Hb2 as [| ? ? Hbl Hb3]; subst. inversion Hb3 as [| ? ? _ Hrest]; subst.
    assert (Hlen : (List.length rest <= fuel)%nat) by (simpl in Hf; lia).
    destruct (IH rest Hlen Hrest Ho) as [E Hmod].
    cbn [unpremultiplied].
    rewrite E, (opaque_channel_kept Hr), (opaque_channel_kept Hg), (opaque_channel_kept Hbl).
    split; [reflexivity |].
    change (List.length (r :: g :: b :: 255 :: rest)) with (4 + List.length rest)%nat.
    rewrite Nat.Div0.add_mod, Hmod. reflexivity.
Qed.

Section MorePixels.
Context {P : Platform}.

(** X23: A buffer of opaque pixels goes to the encoder byte for byte as the
    engine delivered it. *)
Theorem toPNG_keeps_opaque_pixels
        (buffer : list Z) (width height : float) (ratio : option reqnum) :
  Forall is_u8 buffer -> opaque buffer ->
  unpremultiply buffer = buffer /\
  exists raw, log (toPNG buffer width height ratio) = [EvEncode raw] /\
              raw_data raw = buffer.
Proof.
  intros Hb Ho.
  destruct (@unpremultiplied_opaque (List.length buffer) buffer (le_n _) Hb Ho)
    as [E Hmod].
  assert (Hu : unpremultiply buffer = buffer) by (now rewrite unpremultiply_spec).
  split; [exact Hu |]. unfold toPNG. rewrite Hu, log_bind_emit.
  eexists. split; [destruct (png_encode _); reflexivity | reflexivity].
Qed.

End MorePixels.

(** * The further properties at work on the sample platform *)

(** Paddings of 10, 200 and -150 pixels on 400 by 260; the text [0], which
    is looked at, on a width of 0 and on a width of 400; the number 0,
    which is not. *)
Lemma padding_rule_checks_both_axes_witness :
  let bounds := [7.0%float; 44.9%float; 7.3%float; 45.1%float] in
  renderImage_padding (Some bounds) (NumV 10%float) 400%float 260%float = ret tt /\
  renderImage_padding (Some bounds) (NumV 200%float) 400%float 260%float
  = throw ErrPaddingWidth /\
  renderImage_padding (Some bounds) (NumV (-150)%float) 400%float 260%float
  = throw ErrPaddingHeight /\
  renderImage_padding (Some bounds) (TextV "0") 0%float 260%float
  = throw ErrPaddingWidth /\
  renderImage_padding (Some bounds) (TextV "0") 400%float 260%float = ret tt /\
  renderImage_padding (Some bounds) (NumV 0%float) 0%float 260%float = ret tt.
Proof.
  cbv zeta.
  pose proof (@padding_rule_checks_both_axes sample_platform
                [7.0%float; 44.9%float; 7.3%float; 45.1%float] 400%float 260%float)
    as (Hwide & _ & _ & _).
  pose proof (@padding_rule_checks_both_axes sample_platform
                [7.0%float; 44.9%float; 7.3%float; 45.1%float] 0%float 260%float)
    as (Hflat & _ & Hzero & _).
  assert (Hnum : forall x, PrimFloat.is_nan x = false -> PrimFloat.is_zero x = false ->
                   (exists y, NumV x = NumV y /\
                              PrimFloat.is_nan y = false /\ PrimFloat.is_zero y = false) \/
                   (exists s, NumV x = TextV s /\ s <> EmptyString)).
  { intros x Hn Hz. left. exists x. auto. }
  assert (Htext : (exists y, TextV "0" = NumV y /\
                             PrimFloat.is_nan y = false /\ PrimFloat.is_zero y = false) \/
                  (exists s, TextV "0" = TextV s /\ s <> EmptyString)).
  { right. exists "0". split; [reflexivity | discriminate]. }
  split; [| split; [| split; [| split; [| split]]]].
  - apply (proj1 (Hwide (NumV 10%float) (Hnum 10%float eq_refl eq_refl))).
    split; reflexivity.
  - apply (proj1 (proj2 (Hwide (NumV 200%float) (Hnum 200%float eq_refl eq_refl)))).
    reflexivity.
  - apply (proj1 (proj2 (proj2 (Hwide (NumV (-150)%float)
                                      (Hnum (-150)%float eq_refl eq_refl)))));
      reflexivity.
  - apply (proj1 (proj2 (Hflat (TextV "0") Htext))). reflexivity.
  - apply (proj1 (Hwide (TextV "0") Htext)). split; reflexivity.
  - apply Hzero. right. reflexivity.
Defined.

(** A validated request whose style names a local tile archive. *)
Lemma render_accepts_validated_request_witness :
  let p := with_zoom 5%float (with_center [10%float; 10%float] (bare_params mbtiles_style)) in
  outcome (renderImage p None) = inl (ErrProcessing ErrLocalMbtiles) /\
  geometry_error ErrLocalMbtiles = false /\
  forall id, ErrLocalMbtiles <> ErrInvalidImageUrl id.
Proof.
  split; [reflexivity |].
  exact (@render_accepts_validated_request sample_platform
           (with_zoom 5%float (with_center [10%float; 10%float] (bare_params mbtiles_style)))
           None ErrLocalMbtiles eq_refl).
Defined.

(** An empty tile (status 204) and a served one. *)
Lemma requestHandler_data_origin_witness :
  (exists res, fetch "https://tiles.example/empty.pbf" = Some res /\
               (3 = 3 /\ (status res = 204 \/ status res = 404))) /\
  (exists res, fetch "https://tiles.example/1/2/3.pbf" = Some res /\
               ((exists bytes,
                    body res = Some bytes /\
                    {| data := [26; 2]; etag := Some "abc"; modified := None;
                       expires := None |} = responseOf res bytes) /\
                200 <= status res <= 299)).
Proof.
  split.
  - exact (proj2 (proj2 (@requestHandler_data_origin sample_platform
                           "https://tiles.example/empty.pbf" 3 None eq_refl))).
  - exact (proj2 (proj2 (@requestHandler_data_origin sample_platform
                           "https://tiles.example/1/2/3.pbf" 3
                           (Some {| data := [26; 2]; etag := Some "abc";
                                    modified := None; expires := None |})
                           eq_refl))).
Defined.

Lemma render_fails_on_bad_import_witness :
  rejected (render (Some local_style) 400%float 260%float broken_import_options).
Proof.
  apply (@render_fails_on_bad_import sample_platform local_style 400%float 260%float
           broken_import_options
           [mkImport "broken" "https://tiles.example/broken.pbf"]
           (mkImport "broken" "https://tiles.example/broken.pbf")
           eq_refl (or_introl eq_refl)).
  eexists. reflexivity.
Defined.

(** A style without glyphs gets those of the first import that has some;
    a style with glyphs keeps its own. *)
Lemma merge_fills_missing_fields_witness :
  (exists merged,
      mergeImports 0 basemap_import plain_style = ret merged /\
      glyphs merged = Some (JStr "https://fonts.example/{fontstack}/{range}.pbf")) /\
  (exists merged,
      mergeImports 0 basemap_import local_style = ret merged /\
      glyphs merged = Some (JStr "local-glyphs")).
Proof.
  assert (Hplain : mergeImports 0 basemap_import plain_style = ret merged_plain)
    by reflexivity.
  assert (Hlocal : mergeImports 0 basemap_import local_style = ret merged_local)
    by reflexivity.
  split.
  - exists merged_plain. split; [exact Hplain |].
    destruct (@merge_fills_missing_fields basemap_import 0 plain_style merged_plain Hplain)
      as (_ & _ & (_ & _ & Hfirst) & _).
    apply (Hfirst [] _ []); try reflexivity. constructor.
  - exists merged_local. split; [exact Hlocal |].
    destruct (@merge_fills_missing_fields basemap_import 0 local_style merged_local Hlocal)
      as (_ & _ & (Hkept & _) & _).
    apply Hkept. reflexivity.
Defined.

Lemma merge_succeeds_iff_witness :
  (exists merged, mergeImports 0 sample_imports local_style = ret merged) /\
  ~ (exists merged,
        mergeImports 0 [mkImported "bare" "https://styles.example/bare.json" empty_style]
                     local_style = ret merged).
Proof.
  assert (Hs : sources local_style <> None) by discriminate.
  split.
  - apply (proj2 (@merge_succeeds_iff sample_imports 0 local_style Hs)).
    right. split; [discriminate |].
    repeat constructor; discriminate.
  - intros H.
    apply (proj1 (@merge_succeeds_iff _ 0 local_style Hs)) in H.
    destruct H as [H | [_ H]]; [discriminate H |].
    inversion H as [| ? ? [Hsrc _] _]. now apply Hsrc.
Defined.

Lemma imported_names_distinct_witness :
  NoDup (importedNames 0 (mkImported "basemap" "https://styles.example/basemap.json"
                                     basemap_style)) /\
  List.length (importedNames 0 (mkImported "basemap" "https://styles.example/basemap.json"
                                           basemap_style)) = 2%nat.
Proof.
  apply (@imported_names_distinct 0
           (mkImported "basemap" "https://styles.example/basemap.json" basemap_style)
           [("composite", JStr "imported-composite"); ("roads", JStr "imported-roads")]
           eq_refl).
  repeat constructor; cbn; intros H;
    repeat match goal with
           | H : _ \/ _ |- _ => destruct H as [H | H]
           | H : _ = _ |- _ => discriminate H
           | H : False |- _ => contradiction
           end.
Defined.

(** [render] on its own has no rule that asks for a viewport. *)
Lemma render_viewport_without_rule_witness :
  exists o,
    In (EvMapRender o) (log (render (Some local_style) 400%float 260%float
                                    no_viewport_options)) /\
    r_zoom o = None /\ r_center o = None.
Proof.
  exists {| r_zoom := None; r_center := None; r_height := 260%float; r_width := 400%float;
            r_bearing := None; r_pitch := None |}.
  assert (H : In (EvMapRender {| r_zoom := None; r_center := None;
                                 r_height := 260%float; r_width := 400%float;
                                 r_bearing := None; r_pitch := None |})
                 (log (render (Some local_style) 400%float 260%float
                              no_viewport_options))).
  { vm_compute. right. right. left. reflexivity. }
  split; [exact H |].
  exact (proj1 (proj2 (@render_viewport_without_rule sample_platform _ _ _ _ _ H)) eq_refl).
Defined.

Lemma inline_icon_decodes_payload_witness :
  loadImage "pin" inline_icon
  = ([EvAddImage "pin" (mkDecoded 1 1 [81; 85; 74; 68]) 1%float false], inr tt).
Proof.
  exact (@inline_icon_decodes_payload sample_platform "pin" inline_icon
           "data:image/png;" "QUJD" eq_refl eq_refl eq_refl eq_refl).
Defined.

Lemma render_adds_requested_icons_witness :
  exists entries image,
    o_images icon_options = Some entries /\ In ("pin", image) entries /\
    1%float = pixelRatioOf image /\ false = sdfOf image /\
    img_url image <> EmptyString /\
    exists buffer, sharp_decode buffer = Some (mkDecoded 1 1 [81; 85; 74; 68]).
Proof.
  apply (@render_adds_requested_icons sample_platform local_style 400%float 260%float
           icon_options "pin" (mkDecoded 1 1 [81; 85; 74; 68]) 1%float false).
  vm_compute. right. right. left. reflexivity.
Defined.

Lemma premultiplied_channel_restored_witness :
  255 * 64 / 128 - 1 <= unpremultiplied_channel 64 128 <= 255 * 64 / 128 /\
  unpremultiplied_channel 64 128 <= 255 /\
  (128 = 255 -> unpremultiplied_channel 64 128 = 64).
Proof.
  apply (@premultiplied_channel_restored 64 128); lia.
Defined.

Lemma opaque_pixels_are_bytes : Forall is_u8 opaque_pixels.
Proof. repeat constructor; unfold is_u8; lia. Defined.

Lemma toPNG_keeps_opaque_pixels_witness :
  unpremultiply opaque_pixels = opaque_pixels /\
  exists raw, log (toPNG opaque_pixels 400%float 260%float (Some (NumV 1%float))) = [EvEncode raw] /\
              raw_data raw = opaque_pixels.
Proof.
  apply (@toPNG_keeps_opaque_pixels sample_platform opaque_pixels 400%float 260%float
           (Some (NumV 1%float)) opaque_pixels_are_bytes).
  repeat split.
Defined.

(** [{ style: {}, width: 400, height: 260 }] is refused by the
    validation, and nothing has been called. *)
Lemma renderImage_failure_shape_witness :
  validation_error ErrCenterZoomOrBounds = true /\
  log (renderImage (bare_params empty_style) None) = [].
Proof.
  destruct (@renderImage_failure_shape sample_platform (bare_params empty_style) None
              ErrCenterZoomOrBounds eq_refl) as [(e' & _ & _ & H & _) | H].
  - discriminate H.
  - exact H.
Defined.

(** A zoom that is not a number passes; a pitch of 60.5 does not. *)
Lemma range_rules_accept_range_and_nan_witness :
  renderImage_zoom (Some PrimFloat.nan) = ret (Some PrimFloat.nan) /\
  renderImage_bearing (Some 360%float) = ret tt /\
  renderImage_pitch (Some 60.5%float) <> ret tt.
Proof.
  pose proof (@range_rules_accept_range_and_nan sample_platform
                PrimFloat.nan 360%float 60.5%float) as (Hz & _ & Hb & Hp).
  split; [| split].
  - apply Hz. left. reflexivity.
  - apply Hb. right. split; reflexivity.
  - intros H. apply Hp in H. destruct H as [H | [_ H]]; discriminate H.
Defined.

(** The numbers 1 and 0.5, and the texts [2], [2x], [0.5] and the empty
    one. *)
Lemma ratio_rule_accepts_iff_witness :
  renderImage_ratio (Some (NumV 1%float)) = ret tt /\
  renderImage_ratio (Some (NumV 0.5%float)) = throw (ErrRatio (NumV 0.5%float)) /\
  renderImage_ratio (Some (TextV "2")) = ret tt /\
  renderImage_ratio (Some (TextV "2x")) = ret tt /\
  renderImage_ratio (Some (TextV "0.5")) = throw (ErrRatio (TextV "0.5")) /\
  renderImage_ratio (Some (TextV EmptyString)) = throw (ErrRatio (TextV EmptyString)).
Proof.
  pose proof (@ratio_rule_accepts_iff sample_platform 1%float "2")
    as (Hone & Htwo & _ & _ & _).
  pose proof (@ratio_rule_accepts_iff sample_platform 0.5%float "2x")
    as (Hhalf & _ & Hnan & Hcases & _).
  pose proof (@ratio_rule_accepts_iff sample_platform 0.5%float "0.5")
    as (_ & Hlow & _ & _ & _).
  pose proof (@ratio_rule_accepts_iff sample_platform 0.5%float EmptyString)
    as (_ & Hempty & _ & _ & _).
  split; [| split; [| split; [| split; [| split]]]].
  - apply Hone. reflexivity.
  - destruct (Hcases (NumV 0.5%float)) as [H | H]; [| exact H].
    apply Hhalf in H. discriminate H.
  - apply Htwo. split; [discriminate | reflexivity].
  - apply Hnan; [reflexivity | discriminate].
  - destruct (Hcases (TextV "0.5")) as [H | H]; [| exact H].
    apply Hlow in H. destruct H as [_ H]. discriminate H.
  - destruct (Hcases (TextV EmptyString)) as [H | H]; [| exact H].
    apply Hempty in H. destruct H as [H _]. now contradiction H.
Defined.

Lemma parseListToFloat_length_witness :
  List.length (parseListToFloat "7.1,45") = 2%nat /\
  renderImage_center (Some (inl "7.1")) = throw (ErrCenterLength (parseListToFloat "7.1")).
Proof.
  split.
  - exact (proj1 (@parseListToFloat_length sample_platform "7.1,45")).
  - apply (proj1 (proj2 (@parseListToFloat_length sample_platform "7.1"))).
    discriminate.
Defined.

Lemma list_rules_accept_iff_witness :
  renderImage_images (Some (inr [("pin", inline_icon)])) = ret (Some [("pin", inline_icon)]) /\
  rejected (renderImage_imports
              (Some [mkImport EmptyString "https://styles.example/basemap.json"])).
Proof.
  pose proof (@list_rules_accept_iff sample_platform [("pin", inline_icon)]
                [mkImport EmptyString "https://styles.example/basemap.json"])
    as (Himages & _ & _ & Himports).
  split; [apply Himages | apply Himports]; reflexivity.
Defined.

(** A served tile with an [etag] header, a sprite with all three headers,
    the [expires] one empty, a response whose body cannot be read, and a
    response with status 204. *)
Lemma fetch_ok_policy_witness :
  getRemoteAsset "https://tiles.example/sprite.png"
  = CallbackData (Some {| data := [137; 80]; etag := Some "s1";
                          modified := Some "Mon, 01 Jan 2024 00:00:00 GMT";
                          expires := None |}) /\
  getRemoteAsset "https://tiles.example/1/2/3.pbf"
  = CallbackData (Some {| data := [26; 2]; etag := Some "abc";
                          modified := None; expires := None |}) /\
  getRemoteTile "https://tiles.example/1/2/3.pbf"
  = CallbackData (Some {| data := [26; 2]; etag := Some "abc";
                          modified := None; expires := None |}) /\
  getRemoteAsset "https://tiles.example/cut.pbf"
  = CallbackErr (ErrBodyRejected "https://tiles.example/cut.pbf") /\
  getRemoteTile "https://tiles.example/cut.pbf"
  = CallbackErr (ErrBodyRejected "https://tiles.example/cut.pbf") /\
  getRemoteTile "https://tiles.example/empty.pbf" = CallbackData None /\
  exists r, getRemoteAsset "https://tiles.example/empty.pbf" = CallbackData (Some r) /\
            data r = [].
Proof.
  assert (Hserved : 200 <= status (mkResponse 200 [("etag", "abc")] (Some [26; 2])) <= 299)
    by (cbn; lia).
  assert (Hcut : 200 <= status (mkResponse 200 [("etag", "abc")] None) <= 299)
    by (cbn; lia).
  assert (Hempty : 200 <= status (mkResponse 204 [] (Some [])) <= 299) by (cbn; lia).
  destruct (proj1 (@fetch_ok_policy sample_platform "https://tiles.example/1/2/3.pbf")
                  (mkResponse 200 [("etag", "abc")] (Some [26; 2])) [26; 2]
                  eq_refl Hserved eq_refl)
    as ([d e m x] & Hasset & Htile & _ & Hd & He & Hm & Hx).
  cbn in Hd, He, Hm, Hx. subst d e m x.
  assert (Hsprite : 200 <= status (mkResponse 200
                                     [("etag", "s1");
                                      ("last-modified", "Mon, 01 Jan 2024 00:00:00 GMT");
                                      ("expires", EmptyString)] (Some [137; 80])) <= 299)
    by (cbn; lia).
  destruct (proj1 (@fetch_ok_policy sample_platform "https://tiles.example/sprite.png")
                  (mkResponse 200
                     [("etag", "s1");
                      ("last-modified", "Mon, 01 Jan 2024 00:00:00 GMT");
                      ("expires", EmptyString)] (Some [137; 80])) [137; 80]
                  eq_refl Hsprite eq_refl)
    as ([d e m x] & Hsasset & _ & _ & Hd & He & Hm & Hx).
  cbn in Hd, He, Hm, Hx. subst d e m x.
  destruct (proj1 (proj2 (@fetch_ok_policy sample_platform "https://tiles.example/cut.pbf"))
                  (mkResponse 200 [("etag", "abc")] None) eq_refl Hcut eq_refl)
    as (Hcasset & Hctile & _).
  destruct (proj1 (@fetch_ok_policy sample_platform "https://tiles.example/empty.pbf")
                  (mkResponse 204 [] (Some [])) [] eq_refl Hempty eq_refl)
    as (r & Heasset & _ & Hetile & Hed & _).
  split; [exact Hsasset |].
  split; [exact Hasset |]. split; [apply Htile; discriminate |].
  split; [exact Hcasset |]. split; [apply Hctile; discriminate |].
  split; [apply Hetile; reflexivity |].
  exists r. split; [exact Heasset | exact Hed].
Defined.

Lemma getRemoteStyleImport_result_witness :
  JsVal.is_eight (version basemap_style) = true /\
  exists u res,
    fetch u = Some res /\ 200 <= status res <= 299 /\
    response_json res = Some (JsonObject basemap_style) /\
    (isMapboxStyleURL "https://styles.example/basemap.json" = false ->
     u = "https://styles.example/basemap.json").
Proof.
  exact (proj1 (@getRemoteStyleImport_result sample_platform
                  "https://styles.example/basemap.json" None)
               basemap_style eq_refl).
Defined.

(** The letter case of the scheme does not matter. *)
Lemma MBTILES_REGEXP_iff_witness :
  MBTILES_REGEXP "tiles: MBTiles://foo/1" = true.
Proof.
  apply (proj2 (MBTILES_REGEXP_iff "tiles: MBTiles://foo/1")).
  exists "tiles: ", "MBTiles://", "foo", "/"%char, "1".
  repeat split; try reflexivity. discriminate.
Defined.


(** An icon that fails to load: the map has been created and stays
    unreleased. *)
Lemma map_released_iff_rendered_witness :
  In (EvMapNew (Some (NumV 1%float)))
     (log (render (Some local_style) 400%float 260%float bad_icon_options)) /\
  ~ In EvMapRelease
       (log (render (Some local_style) 400%float 260%float bad_icon_options)).
Proof.
  apply (proj2 (@map_released_iff_rendered sample_platform local_style
                  400%float 260%float bad_icon_options)
               (ErrLoadingIcon "pin" (ErrTypeError "Buffer.from(undefined, 'base64')"))
               eq_refl).
  right. right. eexists. eexists. reflexivity.
Defined.

Lemma loadImage_result_witness :
  exists buffer d,
    sharp_decode buffer = Some d /\ map_addImage "pin" d = true /\
    log (loadImage "pin" remote_icon)
    = [EvAddImage "pin" d (pixelRatioOf remote_icon) (sdfOf remote_icon)] /\
    img_url remote_icon <> EmptyString /\
    (JsStr.startsWith "data:" (img_url remote_icon) = false ->
     exists res, fetch (img_url remote_icon) = Some res /\ 200 <= status res <= 299 /\
                 body res = Some buffer).
Proof.
  exact (proj1 (@loadImage_result sample_platform "pin" remote_icon) eq_refl).
Defined.
